(** * Position lifecycle and risk management of the AVAX trading bot

    A shallow embedding of [src/trading1212.js]: the probability engine
    ([calculateProbability], [calculateBaseProbability] and the session
    dampening inside [checkPrices]), the two opening routines
    ([placeSpotTrade], [placeFutureTrade]), the settlement routine
    ([handleTradeClosure]) and the monitor ([monitorActiveTrades], its loop
    body first, then the loop), with the validators of [tradeSchema.js] that
    stand between a settlement and its ledger update.  Beside them, the
    helpers of the same script that can be read on their own: the retry
    loop ([retryOperation]), the reconnection policy of the live feed
    ([subscribeToLiveData]), the timeframe table and the validation of the
    stored history ([validateHistoricalData]), the aggregation of candles
    ([aggregateCandleData]) and the buffer of live candles
    ([onLiveCandleClose]).

    Modelling conventions.
    - A [Decimal] (decimal.js) is a rational [Q].  Sums, differences and
      products are exact, and equality of computed amounts is [Qeq] ([==]).
      The rounding of decimal.js to 20 significant digits is modelled
      ([toSignificantDigits]) where the script divides by 3, in the two
      amounts of a hedge opened by [checkPrices]: there it shows at every
      input.  Its signed zero is not modelled.
    - The module-level [let] variables of the script form the record [State].
    - Trade objects are JavaScript references: they live in [heap] and the
      array [activeTrades] holds their locations, so that an in-place
      assignment such as [trade.isReallocated = true] is seen through every
      alias.  The array itself is an object too: [activeTradesArray] tells
      which one the variable refers to.
    - Asynchrony is not modelled: every entry point runs to its end before
      the next one starts.
    - Calls that leave the process (Binance, MongoDB, the clock, the random
      source) take their answer from an explicit environment record; what the
      process sends out (orders, database rows, and the log lines that mark
      a decision: rejection, error, exit reason, settlement) is returned as a
      list of [Event]s next to the new state.
    - An order and a database row are sent under [retryOperation]: they
      leave the process once when the first attempt succeeds, and at each of
      the four attempts when every attempt fails (the two answers an
      environment can give).  A fee, price or balance request that fails
      stands for "failed after the last retry". *)

From Stdlib Require Import QArith Qabs Qpower Qround Lqa ZArith Lia.
From stdpp Require Import base list strings.

Local Open Scope Q_scope.

(** ** Decimal arithmetic layer *)

Definition Decimal := Q.

Definition lessThan (x y : Decimal) : bool :=
  match x ?= y with Lt => true | _ => false end.
Definition greaterThan (x y : Decimal) : bool :=
  match x ?= y with Gt => true | _ => false end.
Definition lessThanOrEqualTo (x y : Decimal) : bool :=
  match x ?= y with Gt => false | _ => true end.
Definition greaterThanOrEqualTo (x y : Decimal) : bool :=
  match x ?= y with Lt => false | _ => true end.
Definition isNegative (x : Decimal) : bool := lessThan x 0.

(** The rounding of decimal.js: the result of an operation keeps
    [precision] significant digits and is rounded half away from zero (its
    defaults, which the script leaves as they are).  [digitsOf n] counts the
    decimal digits of a positive integer, [exponentOf x] is the [e] with
    [10 ^ e <= x < 10 ^ (e + 1)] for a positive [x]: the digit counts of
    numerator and denominator give it up to one. *)
Definition precision : Z := 20.

Fixpoint digitsFrom (fuel : nat) (n : Z) : Z :=
  match fuel with
  | O => 1%Z
  | S fuel' =>
      if (n <? 10)%Z then 1%Z else (1 + digitsFrom fuel' (n / 10))%Z
  end.

Definition digitsOf (n : Z) : Z := digitsFrom (Z.to_nat (Z.log2 n)) n.

Definition exponentOf (x : Q) : Z :=
  let k := (digitsOf (Qnum x) - digitsOf (Zpos (Qden x)))%Z in
  if Qle_bool (10 ^ k) x then k else (k - 1)%Z.

Definition toSignificantDigits (x : Decimal) : Decimal :=
  if Qeq_bool x 0 then 0
  else
    let scale := 10 ^ (precision - 1 - exponentOf (Qabs x)) in
    let coefficient := Qfloor (Qabs x * scale + 0.5) in
    Qred ((if lessThan x 0 then -1 else 1) * (inject_Z coefficient / scale)).

(** [x.dividedBy(y)] and [x.times(y)] with their rounding. *)
Definition dividedBy (x y : Decimal) : Decimal := toSignificantDigits (x / y).
Definition times (x y : Decimal) : Decimal := toSignificantDigits (x * y).

(** [===] on strings. *)
Definition streq (s1 s2 : string) : bool := bool_decide (s1 = s2).

(** ** Trading parameters (module constants) *)

Definition stopLossPercentage : Decimal := 1.5.
Definition takeProfitPercentage : Decimal := 6.
Definition defaultBaseProbability : Decimal := 75.
Definition maxSpotDrawdownPercentage : Decimal := 2.
Definition leverage : Decimal := 5.

(** ** Data model *)

Inductive Direction := long | short.

Inductive Side := BUY | SELL.

Inductive Outcome := win | loss.

(** The object literal built by [placeSpotTrade] and [placeFutureTrade].
    [direction] is stored normalised ([direction === 'long' ? 'long' :
    'short']), hence the two-valued type; [type], [tradeMode] and
    [allocation] are stored as the caller passed them.  The field
    [leverage] is called [tradeLeverage] here, [leverage] being the module
    constant. *)
Record Trade := mkTrade {
  id : string;
  entryPrice : Decimal;
  amount : Decimal;
  stopLoss : Decimal;
  takeProfit : Decimal;
  peakProfit : Decimal;
  peakPrice : Decimal;
  type : string;
  tradeMode : string;
  direction : Direction;
  startTime : Z;
  tradeLeverage : Decimal;
  feeRate : Decimal;
  entryFee : Decimal;
  allocation : string;
  isReallocated : bool
}.

Abbreviation loc := nat (only parsing).

(** The module-level variables.  [sessionStart] is the script's global
    [startTime] (renamed: the trade field has the same name).
    [activeTrades] holds the elements of the array the variable currently
    refers to, and [activeTradesArray] tells which array object that is:
    [push] changes the elements of the same object, an assignment of a
    filtered copy makes the variable refer to a new one. *)
Record State := mkState {
  fakeBalanceInitialized : bool;
  fakeBalance : Decimal;
  realBalance : Decimal;
  walletBalance : Decimal;
  fakePnL : Decimal;
  realPnL : Decimal;
  spotPnL : Decimal;
  sessionStart : Z;
  cumulativeProbabilityChange : Decimal;
  heap : list Trade;
  activeTrades : list loc;
  activeTradesArray : nat
}.

(** The row handed to [Trade.create]. *)
Record TradeRecord := mkTradeRecord {
  r_id : string;
  r_entryPrice : Decimal;
  r_amount : Decimal;
  r_stopLoss : Decimal;
  r_takeProfit : Decimal;
  r_direction : Direction;
  r_type : string;
  r_outcome : Outcome;
  r_entryTime : Z;
  r_exitTime : Z;
  r_netPnl : Decimal;
  r_allocation : string;
  r_isReallocated : bool
}.

Inductive Api := SpotApi | FuturesApi.

Inductive LogLine :=
| InsufficientBalance (type : string)
| ErrorPlacingSpot
| ErrorPlacingFutures
| Reallocating (trade : string) (reallocateAmount : Decimal)
| TradeClosed (trade : string) (netPnl : Decimal)
| TradeRecorded (trade : string) (outcome : Outcome)
| ErrorClosure
| TakeProfitReached (trade : string)
| StopLossHit (trade : string)
| CurrentPrice (price : Decimal)
| ErrorMonitoring
| AdjustedProbability (probability : Decimal)
| ProbabilityDampened
| TradeSkipped
| NotEnoughData
| ErrorCheckingPrices.

(** What leaves the process: a log line, an order sent to Binance, a row
    sent to MongoDB, and the call of [finalizeTrade] (PnL report and the
    prompt for another trade). *)
Inductive Event :=
| Log (line : LogLine)
| Order (api : Api) (side : Side) (symbol : string) (quantity : Decimal)
| TradeCreate (row : TradeRecord)
| FinalizeTrade.

(** ** Field updates *)

Definition set_fakeBalanceInitialized (v : bool) (s : State) : State :=
  mkState v (fakeBalance s) (realBalance s) (walletBalance s) (fakePnL s)
    (realPnL s) (spotPnL s) (sessionStart s) (cumulativeProbabilityChange s)
    (heap s) (activeTrades s) (activeTradesArray s).
Definition set_fakeBalance (v : Decimal) (s : State) : State :=
  mkState (fakeBalanceInitialized s) v (realBalance s) (walletBalance s)
    (fakePnL s) (realPnL s) (spotPnL s) (sessionStart s)
    (cumulativeProbabilityChange s) (heap s) (activeTrades s) (activeTradesArray s).
Definition set_realBalance (v : Decimal) (s : State) : State :=
  mkState (fakeBalanceInitialized s) (fakeBalance s) v (walletBalance s)
    (fakePnL s) (realPnL s) (spotPnL s) (sessionStart s)
    (cumulativeProbabilityChange s) (heap s) (activeTrades s) (activeTradesArray s).
Definition set_walletBalance (v : Decimal) (s : State) : State :=
  mkState (fakeBalanceInitialized s) (fakeBalance s) (realBalance s) v
    (fakePnL s) (realPnL s) (spotPnL s) (sessionStart s)
    (cumulativeProbabilityChange s) (heap s) (activeTrades s) (activeTradesArray s).
Definition set_fakePnL (v : Decimal) (s : State) : State :=
  mkState (fakeBalanceInitialized s) (fakeBalance s) (realBalance s)
    (walletBalance s) v (realPnL s) (spotPnL s) (sessionStart s)
    (cumulativeProbabilityChange s) (heap s) (activeTrades s) (activeTradesArray s).
Definition set_realPnL (v : Decimal) (s : State) : State :=
  mkState (fakeBalanceInitialized s) (fakeBalance s) (realBalance s)
    (walletBalance s) (fakePnL s) v (spotPnL s) (sessionStart s)
    (cumulativeProbabilityChange s) (heap s) (activeTrades s) (activeTradesArray s).
Definition set_spotPnL (v : Decimal) (s : State) : State :=
  mkState (fakeBalanceInitialized s) (fakeBalance s) (realBalance s)
    (walletBalance s) (fakePnL s) (realPnL s) v (sessionStart s)
    (cumulativeProbabilityChange s) (heap s) (activeTrades s) (activeTradesArray s).
Definition set_sessionStart (v : Z) (s : State) : State :=
  mkState (fakeBalanceInitialized s) (fakeBalance s) (realBalance s)
    (walletBalance s) (fakePnL s) (realPnL s) (spotPnL s) v
    (cumulativeProbabilityChange s) (heap s) (activeTrades s) (activeTradesArray s).
Definition set_cumulativeProbabilityChange (v : Decimal) (s : State) : State :=
  mkState (fakeBalanceInitialized s) (fakeBalance s) (realBalance s)
    (walletBalance s) (fakePnL s) (realPnL s) (spotPnL s) (sessionStart s)
    v (heap s) (activeTrades s) (activeTradesArray s).
Definition set_heap (v : list Trade) (s : State) : State :=
  mkState (fakeBalanceInitialized s) (fakeBalance s) (realBalance s)
    (walletBalance s) (fakePnL s) (realPnL s) (spotPnL s) (sessionStart s)
    (cumulativeProbabilityChange s) v (activeTrades s) (activeTradesArray s).
Definition set_activeTrades (v : list loc) (s : State) : State :=
  mkState (fakeBalanceInitialized s) (fakeBalance s) (realBalance s)
    (walletBalance s) (fakePnL s) (realPnL s) (spotPnL s) (sessionStart s)
    (cumulativeProbabilityChange s) (heap s) v (activeTradesArray s).

(** [activeTrades = <a new array with elements v>] *)
Definition rebind_activeTrades (v : list loc) (s : State) : State :=
  mkState (fakeBalanceInitialized s) (fakeBalance s) (realBalance s)
    (walletBalance s) (fakePnL s) (realPnL s) (spotPnL s) (sessionStart s)
    (cumulativeProbabilityChange s) (heap s) v (S (activeTradesArray s)).

Definition set_peak (profit price : Decimal) (t : Trade) : Trade :=
  mkTrade (id t) (entryPrice t) (amount t) (stopLoss t) (takeProfit t)
    profit price (type t) (tradeMode t) (direction t) (startTime t)
    (tradeLeverage t) (feeRate t) (entryFee t) (allocation t)
    (isReallocated t).
Definition set_isReallocated (v : bool) (t : Trade) : Trade :=
  mkTrade (id t) (entryPrice t) (amount t) (stopLoss t) (takeProfit t)
    (peakProfit t) (peakPrice t) (type t) (tradeMode t) (direction t)
    (startTime t) (tradeLeverage t) (feeRate t) (entryFee t) (allocation t) v.

(** ** Effects: state, emitted events, exceptions *)

Inductive Completion (A : Type) :=
| Normal (a : A)
| Thrown.
Arguments Normal {A} a.
Arguments Thrown {A}.

Definition Eff (A : Type) : Type := State -> Completion A * State * list Event.

Definition ret {A} (a : A) : Eff A := fun s => (Normal a, s, []).

Definition bind {A B} (m : Eff A) (k : A -> Eff B) : Eff B := fun s =>
  match m s with
  | (Normal a, s1, ev1) =>
      match k a s1 with (r, s2, ev2) => (r, s2, ev1 ++ ev2) end
  | (Thrown, s1, ev1) => (Thrown, s1, ev1)
  end.

Definition throw {A} : Eff A := fun s => (Thrown, s, []).

(** [try { m } catch (error) { h }] *)
Definition try_catch {A} (m : Eff A) (h : Eff A) : Eff A := fun s =>
  match m s with
  | (Normal a, s1, ev1) => (Normal a, s1, ev1)
  | (Thrown, s1, ev1) =>
      match h s1 with (r, s2, ev2) => (r, s2, ev1 ++ ev2) end
  end.

Definition get : Eff State := fun s => (Normal s, s, []).
Definition modify (f : State -> State) : Eff unit :=
  fun s => (Normal tt, f s, []).
Definition emit (e : Event) : Eff unit := fun s => (Normal tt, s, [e]).
Definition emitAll (events : list Event) : Eff unit :=
  fun s => (Normal tt, s, events).
Definition when (b : bool) (m : Eff unit) : Eff unit :=
  if b then m else ret tt.

Declare Scope eff_scope.
Delimit Scope eff_scope with eff.
Notation "x <- m ;; k" := (bind m (fun x => k))
  (at level 100, m at next level, right associativity) : eff_scope.
Notation "m ;; k" := (bind m (fun _ => k))
  (at level 100, right associativity) : eff_scope.
Local Open Scope eff_scope.

Definition state_of {A} (r : Completion A * State * list Event) : State :=
  snd (fst r).
Definition events_of {A} (r : Completion A * State * list Event)
  : list Event := snd r.
Definition completion_of {A} (r : Completion A * State * list Event)
  : Completion A := fst (fst r).

(** Reading through a reference.  References are never dangling in the
    script; in the model a location outside the heap raises. *)
Definition deref (l : loc) : Eff Trade := fun s =>
  match heap s !! l with
  | Some t => (Normal t, s, [])
  | None => (Thrown, s, [])
  end.

(** In-place assignment to fields of the object at [l]. *)
Definition assign (l : loc) (f : Trade -> Trade) : Eff unit :=
  modify (fun s => set_heap (alter f l (heap s)) s).

(** ** Retry with exponential backoff

    [retryOperation(operation, retries, delay)].  The closure [operation]
    is called anew at every attempt and may end differently each time:
    [operation n] is how its call number [n] ends, and [attempt] counts the
    calls made so far.  The result is what the promise settles to, with the
    sleeps taken on the way (in milliseconds, in order).  [retries] is a
    count, as in every call of the script (the default is 3). *)

Inductive Settled (A : Type) :=
| Resolved (value : A)
| Rejected (error : string).
Arguments Resolved {A} value.
Arguments Rejected {A} error.

Fixpoint retryOperation {A} (operation : nat -> Settled A) (attempt : nat)
    (retries : nat) (delay : Z) : Settled A * list Z :=
  match operation attempt with
  | Resolved value => (Resolved value, [])
  | Rejected error =>
      match retries with
      | O => (Rejected error, [])
      | S retries =>
          let '(result, sleeps) :=
            retryOperation operation (S attempt) retries (delay * 2) in
          (result, delay :: sleeps)
      end
  end.

(** ** Gateway answers *)

Record FeeRates := mkFeeRates { makerFee : Decimal; takerFee : Decimal }.

(** [None] is a failed or empty fee lookup: the [catch] branch answers with
    the default fees. *)
Definition getSpotTradingFee (answer : option FeeRates) : FeeRates :=
  match answer with
  | Some fees => fees
  | None => mkFeeRates 0.001 0.001
  end.

Definition getFuturesTradingFee (answer : option FeeRates) : FeeRates :=
  match answer with
  | Some fees => fees
  | None => mkFeeRates 0.0002 0.0004
  end.

(** [getAvaxPrice] rethrows when the candle request fails. *)
Definition getAvaxPrice (answer : option Decimal) : Eff Decimal :=
  match answer with
  | Some price => ret price
  | None => throw
  end.

(** A request made under [retryOperation] with its default arguments (3
    retries, 1000 ms).  Every call of the operation sends [request] out
    again; the promise settles as the retry loop does.  The outside answers
    in one of two ways: it accepts the request at the first call, or it
    refuses it at every call ([accepted = false]); a request that is first
    refused and accepted at a later call is not among the answers
    modelled. *)
Definition retried (request : Event) (accepted : bool) : Eff unit :=
  let operation (_ : nat) : Settled unit :=
    if accepted then Resolved tt else Rejected "refused" in
  let '(result, sleeps) := retryOperation operation 0 3 1000 in
  emitAll (replicate (S (length sleeps)) request);;
  match result with
  | Resolved _ => ret tt
  | Rejected _ => throw
  end.

(** [binance.order] and [binance.futuresOrder] under [retryOperation]: the
    order leaves the process at every attempt, then the promise resolves
    or, after the last attempt, rejects.  [quantity] is the Decimal amount;
    the call receives its [toNumber()]. *)
Definition submitOrder (api : Api) (side : Side) (symbol : string)
    (quantity : Decimal) (accepted : bool) : Eff unit :=
  retried (Order api side symbol quantity) accepted.

(** The validators of [tradeSchema.js] that a row built by
    [handleTradeClosure] can fail: [id] is a required string, [type] is one
    of ['real', 'fake'] and [allocation] one of ['favorable',
    'unfavorable'].  ([direction] and [outcome] are always within their
    enumerations, the numbers are cast to strings.) *)
Definition tradeSchema (row : TradeRecord) : bool :=
  negb (streq (r_id row) "")
  && (streq (r_type row) "real" || streq (r_type row) "fake")
  && (streq (r_allocation row) "favorable"
      || streq (r_allocation row) "unfavorable").

(** [Trade.create] under [retryOperation]: the row is handed over at every
    attempt; each attempt rejects when the row fails validation or the
    database refuses it ([stored = false]: connection lost, duplicate [id],
    ...). *)
Definition Trade_create (row : TradeRecord) (stored : bool) : Eff unit :=
  retried (TradeCreate row) (tradeSchema row && stored).

(** What one opening call receives from outside. *)
Record OpenEnv := mkOpenEnv {
  feeAnswer : option FeeRates;
  orderAccepted : bool;
  generateTradeId : string;
  openNow : Z
}.

(** What one settlement receives from outside; [reallocation] serves the
    nested [placeFutureTrade]. *)
Record CloseEnv := mkCloseEnv {
  exitFeeAnswer : option FeeRates;
  reallocation : OpenEnv;
  recordStored : bool;
  closeNow : Z
}.

Record MonitorEnv := mkMonitorEnv {
  priceAnswer : option Decimal;
  closure : CloseEnv
}.

(** ** Probability engine *)

Record Macd := mkMacd { histogram : Decimal }.
Record Stochastic := mkStochastic { stoch_k : Decimal; stoch_d : Decimal }.
Record Bollinger := mkBollinger {
  boll_price : Decimal; boll_lower : Decimal; boll_upper : Decimal
}.

Definition rsiAdjust (rsi : Decimal) (probability : Decimal) : Decimal :=
  if lessThan rsi 30 then probability + 10
  else if greaterThan rsi 70 then probability - 10
  else probability.

Definition macdAdjust (macd : Macd) (probability : Decimal) : Decimal :=
  if greaterThan (histogram macd) 0 then probability + 5
  else if lessThan (histogram macd) 0 then probability - 5
  else probability.

Definition maAdjust (sma ema : Decimal) (probability : Decimal) : Decimal :=
  if greaterThan sma ema then probability + 5 else probability - 5.

Definition stochasticAdjust (stochastic : Stochastic) (probability : Decimal)
  : Decimal :=
  if lessThan (stoch_k stochastic) 20 && lessThan (stoch_d stochastic) 20
  then probability + 10
  else if greaterThan (stoch_k stochastic) 80
          && greaterThan (stoch_d stochastic) 80
  then probability - 10
  else probability.

Definition atrAdjust (atr : Decimal) (probability : Decimal) : Decimal :=
  if greaterThan atr 0.5 then probability - 5 else probability.

Definition bollingerAdjust (bollinger : Bollinger) (probability : Decimal)
  : Decimal :=
  if lessThan (boll_price bollinger) (boll_lower bollinger)
  then probability + 5
  else if greaterThan (boll_price bollinger) (boll_upper bollinger)
  then probability - 5
  else probability.

(** The two clamping [if]s that end [calculateProbability]. *)
Definition clamp (probability : Decimal) : Decimal :=
  let probability := if lessThan probability 0 then 0 else probability in
  if greaterThan probability 100 then 100 else probability.

Definition calculateProbability (rsi : Decimal) (macd : Macd)
    (sma ema : Decimal) (stochastic : Stochastic) (atr : Decimal)
    (bollinger : Bollinger) (baseProbability : Decimal) : Decimal :=
  let probability := baseProbability in
  let probability := rsiAdjust rsi probability in
  let probability := macdAdjust macd probability in
  let probability := maAdjust sma ema probability in
  let probability := stochasticAdjust stochastic probability in
  let probability := atrAdjust atr probability in
  let probability := bollingerAdjust bollinger probability in
  clamp probability.

(** [calculateBaseProbability]: the rows of [Trade.find()], most recent
    first, reduced to their outcome; [None] is a failed query. *)
Fixpoint weightedSums (alpha : Decimal) (index : nat)
    (recentTrades : list Outcome) (weightedSum weightTotal : Decimal)
  : Decimal * Decimal :=
  match recentTrades with
  | [] => (weightedSum, weightTotal)
  | outcome :: rest =>
      let weight := alpha * (1 - alpha) ^ Z.of_nat index in
      let weightedSum :=
        match outcome with
        | win => weightedSum + weight
        | loss => weightedSum
        end in
      weightedSums alpha (S index) rest weightedSum (weightTotal + weight)
  end.

Definition calculateBaseProbability (windowSize : nat) (alpha : Decimal)
    (answer : option (list Outcome)) : Decimal :=
  match answer with
  | None => defaultBaseProbability
  | Some rows =>
      let recentTrades := take windowSize rows in
      if (length recentTrades =? 0)%nat then defaultBaseProbability
      else
        let '(weightedSum, weightTotal) :=
          weightedSums alpha 0 recentTrades 0 0 in
        if Qeq_bool weightTotal 0 then 0
        else weightedSum / weightTotal * 100
  end.

(** The session dampening of [checkPrices]: the accumulator is reset once
    900 seconds have passed since [sessionStart], fed otherwise; above 20 the
    probability loses a flat 5.  [now] is [Date.now()] in milliseconds. *)
Definition sessionDampening (probability dynamicBaseProbability : Decimal)
    (now : Z) : Eff Decimal :=
  s <- get;;
  let timeElapsed := inject_Z (now - sessionStart s) / 1000 in
  (if greaterThanOrEqualTo timeElapsed 900 then
     modify (set_cumulativeProbabilityChange 0);;
     modify (set_sessionStart now)
   else
     modify (set_cumulativeProbabilityChange
               (cumulativeProbabilityChange s
                + Qabs (probability - dynamicBaseProbability))));;
  s <- get;;
  if greaterThan (cumulativeProbabilityChange s) 20 then
    emit (Log ProbabilityDampened);;
    ret (probability - 5)
  else ret probability.

(** ** Position sizing and opening *)

(** [activeTrades.push(trade)] with a freshly allocated object. *)
Definition pushTrade (t : Trade) : Eff unit :=
  modify (fun s =>
    set_activeTrades (activeTrades s ++ [length (heap s)])
      (set_heap (heap s ++ [t]) s)).

Definition placeSpotTrade (entryPrice amount : Decimal) (type : string)
    (direction : Direction) (env : OpenEnv) : Eff unit :=
  try_catch
    (let feeRates := getSpotTradingFee (feeAnswer env) in
     let feeRate := takerFee feeRates in
     let entryFee := entryPrice * amount * feeRate in
     let totalCost := entryPrice * amount + entryFee in
     s <- get;;
     let balance :=
       if streq type "real" then realBalance s else fakeBalance s in
     if greaterThan totalCost balance then
       emit (Log (InsufficientBalance type))
     else
       (if streq type "real" then
          modify (fun s => set_realBalance (realBalance s - totalCost) s)
        else
          modify (fun s => set_fakeBalance (fakeBalance s - totalCost) s));;
       modify (fun s => set_walletBalance (walletBalance s - amount) s);;
       let stopLoss := entryPrice * (1 - stopLossPercentage / 100) in
       let takeProfit := entryPrice * (1 + takeProfitPercentage / 100) in
       let side := match direction with long => BUY | short => SELL end in
       let quantity := amount in
       submitOrder SpotApi side "AVAXUSDT" quantity (orderAccepted env);;
       let trade :=
         {| id := generateTradeId env;
            entryPrice := entryPrice;
            amount := amount;
            stopLoss := stopLoss;
            takeProfit := takeProfit;
            peakProfit := 0;
            peakPrice := entryPrice;
            type := type;
            tradeMode := type;
            direction := direction;
            startTime := openNow env;
            tradeLeverage := 1;
            feeRate := feeRate;
            entryFee := entryFee;
            allocation := "favorable";
            isReallocated := false |} in
       pushTrade trade)
    (emit (Log ErrorPlacingSpot)).

Definition placeFutureTrade (entryPrice amount : Decimal)
    (direction : Direction) (type : string) (allocation : string)
    (env : OpenEnv) : Eff unit :=
  try_catch
    (let feeRates :=
       if streq type "futures" then getFuturesTradingFee (feeAnswer env)
       else getSpotTradingFee (feeAnswer env) in
     let feeRate := takerFee feeRates in
     let entryFee := entryPrice * amount * feeRate in
     let initialMargin :=
       if streq type "futures" then entryPrice * amount / leverage else 0 in
     s <- get;;
     let balance :=
       if streq type "real" then realBalance s else fakeBalance s in
     let totalCost :=
       if streq type "futures" then initialMargin + entryFee
       else entryPrice * amount + entryFee in
     if greaterThan totalCost balance then
       emit (Log (InsufficientBalance type))
     else
       (if streq type "real" then
          modify (fun s => set_realBalance (realBalance s - totalCost) s)
        else
          modify (fun s => set_fakeBalance (fakeBalance s - totalCost) s));;
       let stopLoss :=
         match direction with
         | long => entryPrice * (1 - stopLossPercentage / 100)
         | short => entryPrice * (1 + stopLossPercentage / 100)
         end in
       let takeProfit :=
         match direction with
         | long => entryPrice * (1 + takeProfitPercentage / 100)
         | short => entryPrice * (1 - takeProfitPercentage / 100)
         end in
       let orderSide := match direction with long => BUY | short => SELL end in
       let quantity := amount in
       submitOrder FuturesApi orderSide "AVAXUSDT" quantity
         (orderAccepted env);;
       let tradeObj :=
         {| id := generateTradeId env;
            entryPrice := entryPrice;
            amount := amount;
            stopLoss := stopLoss;
            takeProfit := takeProfit;
            peakProfit := 0;
            peakPrice := entryPrice;
            type := type;
            tradeMode := type;
            direction := direction;
            startTime := openNow env;
            tradeLeverage := if streq type "futures" then leverage else 1;
            feeRate := feeRate;
            entryFee := entryFee;
            allocation := allocation;
            isReallocated := false |} in
       pushTrade tradeObj)
    (emit (Log ErrorPlacingFutures)).

(** ** Settlement and reallocation

    The steps of [handleTradeClosure] up to the database write, named. *)

Definition grossPnlOf (t : Trade) (currentPrice : Decimal) : Decimal :=
  match direction t with
  | long => (currentPrice - entryPrice t) * amount t * tradeLeverage t
  | short => (entryPrice t - currentPrice) * amount t * tradeLeverage t
  end.

Definition exitFeeOf (t : Trade) (currentPrice : Decimal)
    (answer : option FeeRates) : Decimal :=
  let feeRates :=
    if streq (type t) "spot" then getSpotTradingFee answer
    else getFuturesTradingFee answer in
  currentPrice * amount t * takerFee feeRates.

Definition netPnlOf (t : Trade) (currentPrice : Decimal)
    (answer : option FeeRates) : Decimal :=
  grossPnlOf t currentPrice - entryFee t - exitFeeOf t currentPrice answer.

Definition outcomeOf (netPnl : Decimal) : Outcome :=
  if greaterThanOrEqualTo netPnl 0 then win else loss.

Definition shouldReallocate (t : Trade) (netPnl : Decimal) : bool :=
  isNegative netPnl && streq (allocation t) "unfavorable"
  && negb (isReallocated t).

(** The ledger update that follows the database write. *)
Definition settleLedgers (t : Trade) (netPnl : Decimal) : Eff unit :=
  if streq (type t) "fake" then
    modify (fun s => set_fakeBalance (fakeBalance s + netPnl + amount t) s);;
    modify (fun s => set_fakePnL (fakePnL s + netPnl) s)
  else if streq (type t) "real" then
    modify (fun s => set_realBalance (realBalance s + netPnl + amount t) s);;
    modify (fun s => set_realPnL (realPnL s + netPnl) s)
  else
    modify (fun s => set_spotPnL (spotPnL s + netPnl) s);;
    modify (fun s => set_walletBalance (walletBalance s + amount t) s);;
    if streq (type t) "real" then
      modify (fun s =>
        set_realBalance (realBalance s + entryPrice t * amount t) s)
    else
      modify (fun s =>
        set_fakeBalance (fakeBalance s + entryPrice t * amount t) s).

(** [activeTrades = activeTrades.filter((t) => t.id !== trade.id)] *)
Definition removeById (tradeId : string) (s : State) : State :=
  rebind_activeTrades
    (List.filter
       (fun l => match heap s !! l with
                 | Some t => negb (streq (id t) tradeId)
                 | None => true
                 end)
       (activeTrades s)) s.

Definition handleTradeClosure (trade : loc) (currentPrice : Decimal)
    (env : CloseEnv) : Eff unit :=
  try_catch
    (t <- deref trade;;
     let netPnl := netPnlOf t currentPrice (exitFeeAnswer env) in
     when (shouldReallocate t netPnl)
       (let reallocateAmount := amount t in
        emit (Log (Reallocating (id t) reallocateAmount));;
        let newDirection :=
          match direction t with long => short | short => long end in
        placeFutureTrade currentPrice reallocateAmount newDirection (type t)
          "favorable" (reallocation env);;
        assign trade (set_isReallocated true));;
     emit (Log (TradeClosed (id t) netPnl));;
     let outcome := outcomeOf netPnl in
     t' <- deref trade;;
     Trade_create
       {| r_id := id t';
          r_entryPrice := entryPrice t';
          r_amount := amount t';
          r_stopLoss := stopLoss t';
          r_takeProfit := takeProfit t';
          r_direction := direction t';
          r_type := type t';
          r_outcome := outcome;
          r_entryTime := startTime t';
          r_exitTime := closeNow env;
          r_netPnl := netPnl;
          r_allocation := allocation t';
          r_isReallocated := isReallocated t' |}
       (recordStored env);;
     emit (Log (TradeRecorded (id t) outcome));;
     settleLedgers t netPnl;;
     modify (removeById (id t));;
     s <- get;;
     when (length (activeTrades s) =? 0)%nat (emit FinalizeTrade))
    (emit (Log ErrorClosure)).

(** ** Position monitor: the body of the [for (const trade of activeTrades)]
    loop of [monitorActiveTrades], run on one reference. *)

Definition currentProfitOf (t : Trade) (currentPrice : Decimal) : Decimal :=
  match direction t with
  | long => (currentPrice - entryPrice t) * amount t * tradeLeverage t
  | short => (entryPrice t - currentPrice) * amount t * tradeLeverage t
  end.

Definition maxDrawdownPriceOf (t : Trade) : Decimal :=
  let allowedDrawdown := peakPrice t * maxSpotDrawdownPercentage / 100 in
  match direction t with
  | long => peakPrice t - allowedDrawdown
  | short => peakPrice t + allowedDrawdown
  end.

Definition takeProfitHit (t : Trade) (currentPrice : Decimal) : bool :=
  match direction t with
  | long => greaterThanOrEqualTo currentPrice (takeProfit t)
  | short => lessThanOrEqualTo currentPrice (takeProfit t)
  end.

Definition stopLossHit (t : Trade) (currentPrice : Decimal) : bool :=
  match direction t with
  | long => lessThanOrEqualTo currentPrice (maxDrawdownPriceOf t)
            || lessThanOrEqualTo currentPrice (stopLoss t)
  | short => greaterThanOrEqualTo currentPrice (maxDrawdownPriceOf t)
             || greaterThanOrEqualTo currentPrice (stopLoss t)
  end.

Definition monitorActiveTrades_body (trade : loc) (env : MonitorEnv)
  : Eff unit :=
  try_catch
    (currentPrice <- getAvaxPrice (priceAnswer env);;
     t <- deref trade;;
     let currentProfit := currentProfitOf t currentPrice in
     when (greaterThan currentProfit (peakProfit t))
       (assign trade (set_peak currentProfit currentPrice));;
     t <- deref trade;;
     if takeProfitHit t currentPrice then
       emit (Log (TakeProfitReached (id t)));;
       handleTradeClosure trade currentPrice (closure env)
     else
       when (stopLossHit t currentPrice)
         (emit (Log (StopLossHit (id t)));;
          handleTradeClosure trade currentPrice (closure env));;
       emit (Log (CurrentPrice currentPrice)))
    (emit (Log ErrorMonitoring)).

(** ** Position monitor: one pass

    [for (const trade of activeTrades)] takes the array the variable refers
    to when the loop starts and walks it by index, reading its length anew
    at every step.  A position pushed while the variable still refers to
    that array is therefore visited in the same pass; once a settlement has
    assigned a filtered copy to the variable, later pushes go to the copy
    and the walk continues on the old array.

    [elements] are the elements of the walked array and [array] is its
    identity.  In the loop body every push comes before the assignment, and
    every push allocates one object, so the objects allocated by a step that
    starts on the still-shared array are exactly the ones pushed onto it.
    [envs i] is what the outside answers during step [i].  The mutex around
    the pass changes nothing for a pass taken alone and is not modelled.

    The loop is not structurally recursive (the array can grow), hence the
    fuel; the result tells whether the iterator was exhausted ([true]) or
    the fuel was ([false]). *)
Fixpoint forOf_activeTrades (fuel array : nat) (elements : list loc)
    (index : nat) (envs : nat -> MonitorEnv) : Eff bool :=
  match elements !! index with
  | None => ret true
  | Some trade =>
      match fuel with
      | O => ret false
      | S fuel =>
          s0 <- get;;
          monitorActiveTrades_body trade (envs index);;
          s1 <- get;;
          let pushedNow :=
            seq (length (heap s0)) (length (heap s1) - length (heap s0)) in
          let elements :=
            if (activeTradesArray s0 =? array)%nat
            then elements ++ pushedNow
            else elements in
          forOf_activeTrades fuel array elements (S index) envs
      end
  end.

(** Twice the length of the array is fuel enough (see
    [monitorActiveTrades_exhausts_the_array]): a step pushes at most one
    position, only when it settles a position that can still be
    reallocated, and the pushed position cannot. *)
Definition monitorActiveTrades (envs : nat -> MonitorEnv) : Eff unit :=
  s <- get;;
  forOf_activeTrades (2 * length (activeTrades s)) (activeTradesArray s)
    (activeTrades s) 0 envs;;
  ret tt.

(** ** Signal check *)

Definition getAvaxBalance (answer : option Decimal) : Eff unit :=
  match answer with
  | Some available =>
      modify (set_realBalance available);;
      s <- get;;
      when (negb (fakeBalanceInitialized s))
        (modify (fun s => set_fakeBalance (realBalance s) s);;
         modify (fun s => set_walletBalance (realBalance s) s);;
         modify (set_fakeBalanceInitialized true))
  | None => ret tt
  end.

(** The answers of the [inquirer] prompts; the list prompts offer exactly
    these choices. *)
Inductive TradeType := futures | spot.
Inductive TradeModeChoice := real | fake.

Definition choiceName (m : TradeModeChoice) : string :=
  match m with real => "real" | fake => "fake" end.

Record Answers := mkAnswers {
  chosenType : TradeType;
  chosenMode : TradeModeChoice;
  chosenAmount : Decimal
}.

(** The indicator values of the last 26 candles and their last close. *)
Record Snapshot := mkSnapshot {
  rsi : Decimal;
  macd : Macd;
  sma : Decimal;
  ema : Decimal;
  stochastic : Stochastic;
  atr : Decimal;
  bollinger : Bollinger;
  lastClosePrice : Decimal
}.

(** [snapshot = None]: fewer than 26 candles are stored.
    [indicatorsThrow = true]: a call into the indicator module (it is not
    part of this file) throws, which takes [checkPrices] to its [catch].
    [takeTrade = None]: the user declines.  The closing
    [activeTrades = activeTrades.filter((trade) => trade !== null)] keeps
    every element (no entry is ever [null]) but makes the variable refer to
    a new array.  The restart of the timer is left out. *)
Record CheckEnv := mkCheckEnv {
  balanceAnswer : option Decimal;
  snapshot : option Snapshot;
  indicatorsThrow : bool;
  historyAnswer : option (list Outcome);
  checkNow : Z;
  takeTrade : option Answers;
  firstOpen : OpenEnv;
  secondOpen : OpenEnv
}.

Definition checkPrices (env : CheckEnv) : Eff unit :=
  try_catch
    (getAvaxBalance (balanceAnswer env);;
     match snapshot env with
     | None => emit (Log NotEnoughData)
     | Some ind =>
         if indicatorsThrow env then throw
         else
         let dynamicBaseProbability :=
           calculateBaseProbability 100 0.1 (historyAnswer env) in
         let probability :=
           calculateProbability (rsi ind) (macd ind) (sma ind) (ema ind)
             (stochastic ind) (atr ind) (bollinger ind)
             dynamicBaseProbability in
         probability <-
           sessionDampening probability dynamicBaseProbability (checkNow env);;
         emit (Log (AdjustedProbability probability));;
         if greaterThanOrEqualTo probability 70
            && lessThanOrEqualTo probability 80 then
           match takeTrade env with
           | Some answers =>
               let amount := chosenAmount answers in
               let tradeMode := choiceName (chosenMode answers) in
               match chosenType answers with
               | spot =>
                   placeSpotTrade (lastClosePrice ind) amount tradeMode long
                     (firstOpen env)
               | futures =>
                   let favorableAmount := times amount (dividedBy 2 3) in
                   let unfavorableAmount := times amount (dividedBy 1 3) in
                   placeFutureTrade (lastClosePrice ind) favorableAmount long
                     tradeMode "favorable" (firstOpen env);;
                   placeFutureTrade (lastClosePrice ind) unfavorableAmount
                     short tradeMode "unfavorable" (secondOpen env)
               end;;
               modify (fun s => rebind_activeTrades (activeTrades s) s)
           | None => emit (Log TradeSkipped)
           end
         else emit (Log TradeSkipped)
     end)
    (emit (Log ErrorCheckingPrices)).

(** ** Engine runs: any sequence of the entry points, of whole monitor
    passes and of single monitor ticks *)

Inductive Op :=
| CheckPrices (env : CheckEnv)
| PlaceSpotTrade (entryPrice amount : Decimal) (type : string)
    (direction : Direction) (env : OpenEnv)
| PlaceFutureTrade (entryPrice amount : Decimal) (direction : Direction)
    (type : string) (allocation : string) (env : OpenEnv)
| MonitorTrade (trade : loc) (env : MonitorEnv)
| MonitorPass (envs : nat -> MonitorEnv).

Definition perform (op : Op) : Eff unit :=
  match op with
  | CheckPrices env => checkPrices env
  | PlaceSpotTrade entryPrice amount type direction env =>
      placeSpotTrade entryPrice amount type direction env
  | PlaceFutureTrade entryPrice amount direction type allocation env =>
      placeFutureTrade entryPrice amount direction type allocation env
  | MonitorTrade trade env => monitorActiveTrades_body trade env
  | MonitorPass envs => monitorActiveTrades envs
  end.

Definition step (op : Op) (s : State) : State := state_of (perform op s).

Fixpoint run (ops : list Op) (s : State) : State :=
  match ops with
  | [] => s
  | op :: rest => run rest (step op s)
  end.

(** ** Quantities named in the statements

    The opening routines compute these values inline; they are named here
    so that the statements below can refer to them. *)

Definition spotFeeRate (env : OpenEnv) : Decimal :=
  takerFee (getSpotTradingFee (feeAnswer env)).

Definition spotTotalCost (entryPrice amount : Decimal) (env : OpenEnv)
  : Decimal :=
  entryPrice * amount + entryPrice * amount * spotFeeRate env.

Definition futureFeeRate (type : string) (env : OpenEnv) : Decimal :=
  takerFee (if streq type "futures" then getFuturesTradingFee (feeAnswer env)
            else getSpotTradingFee (feeAnswer env)).

Definition futureTotalCost (entryPrice amount : Decimal) (type : string)
    (env : OpenEnv) : Decimal :=
  let entryFee := entryPrice * amount * futureFeeRate type env in
  if streq type "futures" then entryPrice * amount / leverage + entryFee
  else entryPrice * amount + entryFee.

(** The ledger an opening call checks and debits for [type]. *)
Definition selectedBalance (type : string) (s : State) : Decimal :=
  if streq type "real" then realBalance s else fakeBalance s.

Definition debit (type : string) (totalCost : Decimal) (s : State) : State :=
  if streq type "real" then set_realBalance (realBalance s - totalCost) s
  else set_fakeBalance (fakeBalance s - totalCost) s.

Definition sideOf (direction : Direction) : Side :=
  match direction with long => BUY | short => SELL end.

Definition opposite (direction : Direction) : Direction :=
  match direction with long => short | short => long end.

Definition pushed (t : Trade) (s : State) : State :=
  set_activeTrades (activeTrades s ++ [length (heap s)])
    (set_heap (heap s ++ [t]) s).

Definition newSpotTrade (entryPrice amount : Decimal) (type : string)
    (direction : Direction) (env : OpenEnv) : Trade :=
  mkTrade (generateTradeId env) entryPrice amount
    (entryPrice * (1 - stopLossPercentage / 100))
    (entryPrice * (1 + takeProfitPercentage / 100))
    0 entryPrice type type direction (openNow env) 1 (spotFeeRate env)
    (entryPrice * amount * spotFeeRate env) "favorable" false.

Definition newFutureTrade (entryPrice amount : Decimal)
    (direction : Direction) (type allocation : string) (env : OpenEnv)
  : Trade :=
  mkTrade (generateTradeId env) entryPrice amount
    (match direction with
     | long => entryPrice * (1 - stopLossPercentage / 100)
     | short => entryPrice * (1 + stopLossPercentage / 100)
     end)
    (match direction with
     | long => entryPrice * (1 + takeProfitPercentage / 100)
     | short => entryPrice * (1 - takeProfitPercentage / 100)
     end)
    0 entryPrice type type direction (openNow env)
    (if streq type "futures" then leverage else 1)
    (futureFeeRate type env)
    (entryPrice * amount * futureFeeRate type env) allocation false.

(** Closed forms of the three ways an opening call ends: rejected, order
    refused after the debit (at each of the four attempts), position
    registered. *)
Definition placeSpotTrade_summary (entryPrice amount : Decimal)
    (type : string) (direction : Direction) (env : OpenEnv) (s : State)
  : State * list Event :=
  let totalCost := spotTotalCost entryPrice amount env in
  if greaterThan totalCost (selectedBalance type s) then
    (s, [Log (InsufficientBalance type)])
  else
    let s1 :=
      set_walletBalance (walletBalance s - amount) (debit type totalCost s) in
    let order := Order SpotApi (sideOf direction) "AVAXUSDT" amount in
    if orderAccepted env then
      (pushed (newSpotTrade entryPrice amount type direction env) s1, [order])
    else (s1, replicate 4 order ++ [Log ErrorPlacingSpot]).

Definition placeFutureTrade_summary (entryPrice amount : Decimal)
    (direction : Direction) (type allocation : string) (env : OpenEnv)
    (s : State) : State * list Event :=
  let totalCost := futureTotalCost entryPrice amount type env in
  if greaterThan totalCost (selectedBalance type s) then
    (s, [Log (InsufficientBalance type)])
  else
    let s1 := debit type totalCost s in
    let order := Order FuturesApi (sideOf direction) "AVAXUSDT" amount in
    if orderAccepted env then
      (pushed (newFutureTrade entryPrice amount direction type allocation env)
         s1, [order])
    else (s1, replicate 4 order ++ [Log ErrorPlacingFutures]).

(** The peak update of one monitor tick, on the trade value. *)
Definition ratchet (t : Trade) (currentPrice : Decimal) : Trade :=
  if greaterThan (currentProfitOf t currentPrice) (peakProfit t)
  then set_peak (currentProfitOf t currentPrice) currentPrice t
  else t.

(** The probability [checkPrices] logs and gates on, for given indicator
    values, base probability, clock and accumulator state. *)
Definition adjustedProbability (ind : Snapshot) (baseProbability : Decimal)
    (now : Z) (s : State) : Completion Decimal :=
  completion_of
    (sessionDampening
       (calculateProbability (rsi ind) (macd ind) (sma ind) (ema ind)
          (stochastic ind) (atr ind) (bollinger ind) baseProbability)
       baseProbability now s).

(** The new positions of a run: locations allocated between two states. *)
Definition openedBetween (s s' : State) : list Trade :=
  drop (length (heap s)) (heap s').

Definition ordersIn (events : list Event) : list Event :=
  List.filter (fun e => match e with Order _ _ _ _ => true | _ => false end)
    events.

Definition rowsIn (events : list Event) : list TradeRecord :=
  omap (fun e => match e with TradeCreate row => Some row | _ => None end)
    events.

(** Closed form of the ledger update. *)
Definition settled (t : Trade) (netPnl : Decimal) (s : State) : State :=
  if streq (type t) "fake" then
    set_fakePnL (fakePnL s + netPnl)
      (set_fakeBalance (fakeBalance s + netPnl + amount t) s)
  else if streq (type t) "real" then
    set_realPnL (realPnL s + netPnl)
      (set_realBalance (realBalance s + netPnl + amount t) s)
  else
    let s1 :=
      set_walletBalance (walletBalance s + amount t)
        (set_spotPnL (spotPnL s + netPnl) s) in
    set_fakeBalance (fakeBalance s1 + entryPrice t * amount t) s1.

(** Closed form of the reallocation block of [handleTradeClosure]. *)
Definition reallocated (trade : loc) (t : Trade) (currentPrice : Decimal)
    (env : CloseEnv) (s : State) : State * list Event :=
  let netPnl := netPnlOf t currentPrice (exitFeeAnswer env) in
  if shouldReallocate t netPnl then
    let r :=
      placeFutureTrade_summary currentPrice (amount t)
        (opposite (direction t)) (type t) "favorable" (reallocation env) s in
    (set_heap (alter (set_isReallocated true) trade (heap (fst r))) (fst r),
     Log (Reallocating (id t) (amount t)) :: snd r)
  else (s, []).

Definition rowOf (t : Trade) (netPnl : Decimal) (exitTime : Z)
    (reallocatedNow : bool) : TradeRecord :=
  mkTradeRecord (id t) (entryPrice t) (amount t) (stopLoss t) (takeProfit t)
    (direction t) (type t) (outcomeOf netPnl) (startTime t) exitTime netPnl
    (allocation t) (reallocatedNow || isReallocated t).

Definition handleTradeClosure_summary (trade : loc) (t : Trade)
    (currentPrice : Decimal) (env : CloseEnv) (s : State)
  : State * list Event :=
  let netPnl := netPnlOf t currentPrice (exitFeeAnswer env) in
  let r := reallocated trade t currentPrice env s in
  let row := rowOf t netPnl (closeNow env) (shouldReallocate t netPnl) in
  let closed := snd r ++ [Log (TradeClosed (id t) netPnl)] in
  if tradeSchema row && recordStored env then
    let s2 := removeById (id t) (settled t netPnl (fst r)) in
    (s2,
     closed ++ TradeCreate row
       :: Log (TradeRecorded (id t) (outcomeOf netPnl))
       :: (if (length (activeTrades s2) =? 0)%nat then [FinalizeTrade]
           else []))
  else
    (fst r, closed ++ replicate 4 (TradeCreate row) ++ [Log ErrorClosure]).

(** The state after the peak update of one monitor tick on a reference
    that holds [t]. *)
Definition recordPeak (trade : loc) (t : Trade) (currentPrice : Decimal)
    (s : State) : State :=
  if greaterThan (currentProfitOf t currentPrice) (peakProfit t)
  then set_heap
         (alter (set_peak (currentProfitOf t currentPrice) currentPrice)
            trade (heap s)) s
  else s.

(** Closed form of one monitor tick on a reference that holds [t]. *)
Definition monitorActiveTrades_body_summary (trade : loc) (t : Trade)
    (currentPrice : Decimal) (env : MonitorEnv) (s : State)
  : State * list Event :=
  let t1 := ratchet t currentPrice in
  let s1 := recordPeak trade t currentPrice s in
  if takeProfitHit t1 currentPrice then
    let r :=
      handleTradeClosure_summary trade t1 currentPrice (closure env) s1 in
    (fst r, Log (TakeProfitReached (id t1)) :: snd r)
  else if stopLossHit t1 currentPrice then
    let r :=
      handleTradeClosure_summary trade t1 currentPrice (closure env) s1 in
    (fst r,
     Log (StopLossHit (id t1)) :: snd r ++ [Log (CurrentPrice currentPrice)])
  else (s1, [Log (CurrentPrice currentPrice)]).

(** How a trade object may differ between two moments of a run: the peak
    pair is either untouched or moved to a strictly higher profit, and
    [isReallocated] only goes from [false] to [true]; every other field is
    fixed at open. *)
Record evolves (t t' : Trade) : Prop := mkEvolves {
  ev_id : id t' = id t;
  ev_entryPrice : entryPrice t' = entryPrice t;
  ev_amount : amount t' = amount t;
  ev_stopLoss : stopLoss t' = stopLoss t;
  ev_takeProfit : takeProfit t' = takeProfit t;
  ev_type : type t' = type t;
  ev_direction : direction t' = direction t;
  ev_leverage : tradeLeverage t' = tradeLeverage t;
  ev_entryFee : entryFee t' = entryFee t;
  ev_allocation : allocation t' = allocation t;
  ev_peak :
    (peakProfit t' = peakProfit t /\ peakPrice t' = peakPrice t)
    \/ peakProfit t < peakProfit t';
  ev_isReallocated : isReallocated t = true -> isReallocated t' = true
}.

(** Every object of [s] is still in [s'] at the same location, evolved. *)
Definition heap_evolves (s s' : State) : Prop :=
  forall (l : loc) (t : Trade),
    heap s !! l = Some t -> exists t', heap s' !! l = Some t' /\ evolves t t'.

(** A computation that only lets heap objects evolve, from any state. *)
Definition keeps_heap {A} (m : Eff A) : Prop :=
  forall s, heap_evolves s (state_of (m s)).

(** Whether settling the position at [l] can still trigger a reallocation. *)
Definition canReallocate (h : list Trade) (l : loc) : nat :=
  match h !! l with
  | Some t =>
      if streq (allocation t) "unfavorable" && negb (isReallocated t)
      then 1%nat else 0%nat
  | None => 0%nat
  end.

(** The steps a pass may still take from [index]: one per remaining
    element, plus one for each that can still push a position. *)
Definition stepsLeft (h : list Trade) (elements : list loc) (index : nat)
  : nat :=
  sum_list_with (fun l => S (canReallocate h l)) (drop index elements).

(** The array as the iterator finds it after one step. *)
Definition elementsAfter (array : nat) (elements : list loc) (s s' : State)
  : list loc :=
  if (activeTradesArray s =? array)%nat
  then elements ++ seq (length (heap s)) (length (heap s') - length (heap s))
  else elements.

(** ** Example inputs *)

Definition zeroFees : option FeeRates := Some (mkFeeRates 0 0).

(** A session with 1000 on every ledger and no position. *)
Definition freshSession : State :=
  mkState true 1000 1000 1000 0 0 0 0 0 [] [] 0.

(** Every indicator in its penalising range. *)
Definition bearish : Snapshot :=
  mkSnapshot 80 (mkMacd (-1)) 1 2 (mkStochastic 90 90) 1
    (mkBollinger 10 1 5) 100.

(** A session whose accumulator already stands at 18. *)
Definition swungSession : State :=
  mkState true 1000 1000 1000 0 0 0 0 18 [] [] 0.

(** A gateway whose fee lookup fails (default fees apply) and which accepts,
    respectively refuses, the market order. *)
Definition acceptingGateway : OpenEnv :=
  mkOpenEnv None true "trade_1700000000000_7" 1700000000000.

(** The same with a fee lookup that answers zero fees. *)
Definition freeGateway : OpenEnv :=
  mkOpenEnv zeroFees true "trade_1700000000000_7" 1700000000000.

(** Settlement environments: the database stores, respectively refuses,
    the row; fees are zero and a reallocation would meet [freeGateway]. *)
Definition storingClosure : CloseEnv :=
  mkCloseEnv zeroFees freeGateway true 1700000060000.
Definition failingClosure : CloseEnv :=
  mkCloseEnv zeroFees freeGateway false 1700000060000.

Definition tickAt (price : Decimal) (closure : CloseEnv) : MonitorEnv :=
  mkMonitorEnv (Some price) closure.

(** A simulated long of 1 AVAX opened at 100 without fees. *)
Definition openedSession : State :=
  run [PlaceFutureTrade 100 1 long "fake" "favorable" freeGateway]
    freshSession.



(** A simulated hedge of 9 AVAX at 100 without fees: 6 long (favorable) and
    3 short (unfavorable); 100 remain on the simulated ledger. *)
Definition hedgeGateway (n : string) : OpenEnv :=
  mkOpenEnv zeroFees true n 1700000000000.

Definition hedgedSession : State :=
  run [PlaceFutureTrade 100 6 long "fake" "favorable"
         (hedgeGateway "trade_1700000000000_1");
       PlaceFutureTrade 100 3 short "fake" "unfavorable"
         (hedgeGateway "trade_1700000000000_2")]
    freshSession.

Definition shortLeg : Trade :=
  newFutureTrade 100 3 short "fake" "unfavorable"
    (hedgeGateway "trade_1700000000000_2").

(** A simulated short of 1 AVAX at 100, unfavorable, alone in the session. *)
Definition loneShortSession : State :=
  run [PlaceFutureTrade 100 1 short "fake" "unfavorable"
         (hedgeGateway "trade_1700000000000_2")]
    freshSession.

Definition loneShort : Trade :=
  newFutureTrade 100 1 short "fake" "unfavorable"
    (hedgeGateway "trade_1700000000000_2").

(** A real-mode spot position of 1 AVAX bought at 100 without fees. *)
Definition spotSession : State :=
  run [PlaceSpotTrade 100 1 "real" long freeGateway] freshSession.

(** A position as the engine itself opens them: its type is one of the two
    modes and it carries no leverage. *)
Definition unleveraged (t : Trade) : Prop :=
  (type t = "real" \/ type t = "fake") /\ tradeLeverage t = 1.

(** A computation that keeps every heap object unleveraged. *)
Definition keeps_unleveraged {A} (m : Eff A) : Prop :=
  forall s,
    Forall unleveraged (heap s) ->
    Forall unleveraged (heap (state_of (m s))).

(** The entry points the running script drives by itself: the timer and
    the candle feed. *)
Definition driven (op : Op) : Prop :=
  match op with
  | CheckPrices _ | MonitorTrade _ _ | MonitorPass _ => True
  | PlaceSpotTrade _ _ _ _ _ | PlaceFutureTrade _ _ _ _ _ _ => False
  end.

(** The scenario of the specification: a long spot position of 10 at 100
    with a fee rate of 0.1%. *)
Definition scenarioGateway : OpenEnv :=
  mkOpenEnv (Some (mkFeeRates 0.001 0.001)) true "trade_1700000000000_7"
    1700000000000.

Definition scenarioSession : State :=
  mkState true 2000 2000 2000 0 0 0 0 0 [] [] 0.

Definition scenarioTrade : Trade :=
  newSpotTrade 100 10 "fake" long scenarioGateway.

Definition isCurrentPrice (e : Event) : bool :=
  match e with Log (CurrentPrice _) => true | _ => false end.

(** ** Well-formed active set

    Every reference of the array points to an allocated object and no
    reference occurs twice. *)
Definition wellFormed (s : State) : Prop :=
  NoDup (activeTrades s)
  /\ Forall (fun l => (l < length (heap s))%nat) (activeTrades s).

(** A computation that keeps the state predicate [P]. *)
Definition keeps (P : State -> Prop) {A} (m : Eff A) : Prop :=
  forall s, P s -> P (state_of (m s)).

(** Every indicator neutral but SMA above EMA: with the default base
    probability 75 the computed probability is 80. *)
Definition calmMarket : Snapshot :=
  mkSnapshot 50 (mkMacd 0) 2 1 (mkStochastic 50 50) 0
    (mkBollinger 100 90 110) 100.

(** Signal checks of a user who takes every trade offered, 9 AVAX of
    simulated futures: one in a calm market, one in a bearish one.  The
    balance and history requests fail, the indicator calls return. *)
Definition hedgeCheck : CheckEnv :=
  mkCheckEnv None (Some calmMarket) false None 1000
    (Some (mkAnswers futures fake 9))
    (hedgeGateway "trade_1700000000000_1")
    (hedgeGateway "trade_1700000000000_2").

Definition bearishCheck : CheckEnv :=
  mkCheckEnv None (Some bearish) false None 1000
    (Some (mkAnswers futures fake 9))
    (hedgeGateway "trade_1700000000000_1")
    (hedgeGateway "trade_1700000000000_2").

(** The state after a series of calls of [getAvaxBalance], one per
    answer. *)
Fixpoint balanceFetches (answers : list (option Decimal)) (s : State)
  : State :=
  match answers with
  | [] => s
  | answer :: rest => balanceFetches rest (state_of (getAvaxBalance answer s))
  end.

(** ** Reconnection of the live feed

    [subscribeToLiveData] opens one WebSocket per call.  What matters to
    the reconnection policy is whether the socket reaches 'open' before it
    emits 'close' (an 'error' closes the socket, so it ends in 'close' too).
    [sockets] tells this for the sockets opened one after the other; the
    list ends where the run is observed, with the last socket still
    connected.  The result lists the timeouts set for the reconnections and
    tells whether [gracefulShutdown] was called. *)

Inductive Socket := opensThenCloses | closesUnopened.

Definition maxRetries : nat := 5.

Definition backoffTime (retryCount : nat) : Z :=
  Z.min (1000 * 2 ^ Z.of_nat retryCount) 30000.

Fixpoint subscribeToLiveData (sockets : list Socket) (retryCount : nat)
  : list Z * bool :=
  match sockets with
  | [] => ([], false)
  | socket :: rest =>
      let backoffTime := backoffTime retryCount in
      let retryCount :=
        match socket with
        | opensThenCloses => 0%nat
        | closesUnopened => retryCount
        end in
      if (retryCount <? maxRetries)%nat then
        let '(timeouts, shutdown) :=
          subscribeToLiveData rest (retryCount + 1) in
        (backoffTime :: timeouts, shutdown)
      else ([], true)
  end.

(** The sleeps of [n] failed attempts that started with [delay]. *)
Definition backoffSleeps (delay : Z) (n : nat) : list Z :=
  map (fun j => (delay * 2 ^ Z.of_nat j)%Z) (seq 0 n).

(** ** Candles

    A time field of a candle object holds either a number of milliseconds
    (the candles read from MongoDB by [fetchHistoricalDataFromDB] and the
    live candles built by [subscribeToLiveData]) or a [Date] object (the
    candles returned by [getAvaxOHLC], which [initializeData] stores as they
    are).  The price fields are Decimals, as in the candles that
    [aggregateCandleData] can process. *)

Inductive TimeValue :=
| Millis (ms : Z)
| DateObject (ms : Z).

Record Candle := mkCandle {
  openTime : TimeValue;
  open : Decimal;
  high : Decimal;
  low : Decimal;
  close : Decimal;
  volume : Decimal;
  closeTime : TimeValue
}.

(** ** Timeframes

    [timeframeMap[key]]: the value of an own property, an inherited member
    of [Object.prototype] (a function or an object, hence truthy and not a
    number), or [undefined]. *)

Inductive Property :=
| Own (ms : Z)
| Inherited
| Missing.

Definition timeframes : list (string * Z) :=
  [("1m", 60000); ("3m", 180000); ("5m", 300000); ("15m", 900000);
   ("30m", 1800000); ("1h", 3600000); ("2h", 7200000); ("4h", 14400000);
   ("6h", 21600000); ("8h", 28800000); ("12h", 43200000); ("1d", 86400000);
   ("3d", 259200000); ("1w", 604800000); ("1M", 2592000000);
   ("1y", 31536000000); ("3y", 94608000000); ("5y", 157680000000)]%Z.

Definition objectPrototype : list string :=
  ["constructor"; "__proto__"; "hasOwnProperty"; "isPrototypeOf";
   "propertyIsEnumerable"; "toLocaleString"; "toString"; "valueOf";
   "__defineGetter__"; "__defineSetter__"; "__lookupGetter__";
   "__lookupSetter__"].

Fixpoint ownProperty (entries : list (string * Z)) (key : string)
  : option Z :=
  match entries with
  | [] => None
  | (name, ms) :: rest =>
      if streq key name then Some ms else ownProperty rest key
  end.

Definition timeframeMap (key : string) : Property :=
  match ownProperty timeframes key with
  | Some ms => Own ms
  | None => if bool_decide (key ∈ objectPrototype) then Inherited else Missing
  end.

(** [timeframeMap[interval] || 60000]; [None] stands for a value that is
    not a number.  Every own value is non-zero, hence truthy. *)
Definition expectedGapOf (interval : string) : option Z :=
  match timeframeMap interval with
  | Own ms => Some ms
  | Inherited => None
  | Missing => Some 60000%Z
  end.

(** [data[i].openTime !== data[i - 1].closeTime + expectedGap].  The sum is
    a number only when both operands are numbers: a [Date] or a function
    makes [+] concatenate strings.  [!==] between a number and a string, or
    between a [Date] object and anything else, is true. *)
Definition gapDetected (expectedGap : option Z) (previous current : Candle)
  : bool :=
  match closeTime previous, expectedGap, openTime current with
  | Millis closed, Some gap, Millis opened =>
      negb (opened =? closed + gap)%Z
  | _, _, _ => true
  end.

(** The loop of [validateHistoricalData] from index [i] on, [previous]
    being [data[i - 1]] and [rest] the candles from [data[i]]; the result
    lists the indices for which a warning is logged. *)
Fixpoint validateFrom (expectedGap : option Z) (i : nat) (previous : Candle)
    (rest : list Candle) : list nat :=
  match rest with
  | [] => []
  | current :: rest =>
      (if gapDetected expectedGap previous current then [i] else [])
      ++ validateFrom expectedGap (S i) current rest
  end.

Definition validateHistoricalData (data : list Candle) (interval : string)
  : list nat :=
  let expectedGap := expectedGapOf interval in
  match data with
  | [] => []
  | first :: rest => validateFrom expectedGap 1 first rest
  end.

(** ** Aggregation *)

(** [Decimal.max] and [Decimal.min] of two values. *)
Definition Decimal_max (x y : Decimal) : Decimal :=
  if lessThan x y then y else x.
Definition Decimal_min (x y : Decimal) : Decimal :=
  if greaterThan x y then y else x.

(** The callback of [candles.forEach] in [aggregateCandleData], on the
    three variables it updates.  [targetInterval] is compared with [===] to
    the integer [count]. *)
Definition aggregateStep (targetInterval : Z)
    (vars : list Candle * option Candle * nat) (candle : Candle)
  : list Candle * option Candle * nat :=
  let '(aggregatedCandles, tempCandle, count) := vars in
  let tempCandle :=
    match tempCandle with
    | None => candle
    | Some tempCandle => tempCandle
    end in
  let tempCandle :=
    {| openTime := openTime tempCandle;
       open := open tempCandle;
       high := Decimal_max (high tempCandle) (high candle);
       low := Decimal_min (low tempCandle) (low candle);
       close := close candle;
       volume := volume tempCandle + volume candle;
       closeTime := closeTime tempCandle |} in
  let count := S count in
  if (Z.of_nat count =? targetInterval)%Z
  then (aggregatedCandles ++ [tempCandle], None, 0%nat)
  else (aggregatedCandles, Some tempCandle, count).

Definition aggregateCandleData (candles : list Candle) (targetInterval : Z)
  : list Candle :=
  fst (fst (fold_left (aggregateStep targetInterval) candles
              ([], None, 0%nat))).

(** ** Live candles *)

(** [onLiveCandleClose]: the candle is appended to [historicalData], the
    oldest one is dropped when the length has passed 1000, and a monitor
    pass is started.  The result is the new [historicalData] and the
    pass. *)
Definition onLiveCandleClose (candle : Candle) (envs : nat -> MonitorEnv)
    (historicalData : list Candle) : list Candle * Eff unit :=
  let historicalData := historicalData ++ [candle] in
  let historicalData :=
    if (1000 <? length historicalData)%nat then tail historicalData
    else historicalData in
  (historicalData, monitorActiveTrades envs).

(** [historicalData] after a series of live candles. *)
Definition liveFeed (candles : list Candle) (envs : nat -> MonitorEnv)
    (historicalData : list Candle) : list Candle :=
  fold_left (fun data candle => fst (onLiveCandleClose candle envs data))
    candles historicalData.

(** The five assignments of the [forEach] callback of
    [aggregateCandleData], on the candle being built. *)
Definition mergeCandle (tempCandle candle : Candle) : Candle :=
  mkCandle (openTime tempCandle) (open tempCandle)
    (Decimal_max (high tempCandle) (high candle))
    (Decimal_min (low tempCandle) (low candle))
    (close candle) (volume tempCandle + volume candle) (closeTime tempCandle).

(** The [k]-th group of [m] consecutive candles. *)
Definition groupOf (m k : nat) (candles : list Candle) : list Candle :=
  take m (drop (k * m) candles).

Definition totalVolume (candles : list Candle) : Decimal :=
  foldr (fun candle total => volume candle + total) 0 candles.

(** Three one-minute candles, numbered as the exchange numbers them: each
    closes 59999 ms after it opens and the next opens 1 ms later. *)
Definition minuteCandle (k : Z) (high low close volume : Decimal) : Candle :=
  mkCandle (Millis (k * 60000)) 100 high low close volume
    (Millis (k * 60000 + 59999)).

Definition threeMinutes : list Candle :=
  [minuteCandle 0 101 99 100 10; minuteCandle 1 103 100 102 20;
   minuteCandle 2 102 98 99 30].

(** The peak pair of a position is consistent when its peak profit is the
    profit the position has at its peak price. *)
Definition peakConsistent (t : Trade) : Prop :=
  peakProfit t == currentProfitOf t (peakPrice t).

(** * Properties *)

(** ** Decimal comparisons *)

Lemma lessThan_true x y : lessThan x y = true <-> x < y.
Proof.
  unfold lessThan. rewrite Qlt_alt. destruct (x ?= y); split; congruence.
Qed.

Lemma lessThan_false x y : lessThan x y = false <-> y <= x.
Proof.
  unfold lessThan. rewrite Qge_alt. destruct (x ?= y); split; congruence.
Qed.

Lemma greaterThan_true x y : greaterThan x y = true <-> y < x.
Proof.
  unfold greaterThan. rewrite Qgt_alt. destruct (x ?= y); split; congruence.
Qed.

Lemma greaterThan_false x y : greaterThan x y = false <-> x <= y.
Proof.
  unfold greaterThan. rewrite Qle_alt. destruct (x ?= y); split; congruence.
Qed.

Lemma greaterThanOrEqualTo_true x y :
  greaterThanOrEqualTo x y = true <-> y <= x.
Proof.
  unfold greaterThanOrEqualTo. rewrite Qge_alt.
  destruct (x ?= y); split; congruence.
Qed.

Lemma greaterThanOrEqualTo_false x y :
  greaterThanOrEqualTo x y = false <-> x < y.
Proof.
  unfold greaterThanOrEqualTo. rewrite Qlt_alt.
  destruct (x ?= y); split; congruence.
Qed.

Lemma lessThanOrEqualTo_true x y : lessThanOrEqualTo x y = true <-> x <= y.
Proof.
  unfold lessThanOrEqualTo. rewrite Qle_alt.
  destruct (x ?= y); split; congruence.
Qed.

Lemma isNegative_true x : isNegative x = true <-> x < 0.
Proof. apply lessThan_true. Qed.

Lemma isNegative_false x : isNegative x = false <-> 0 <= x.
Proof. apply lessThan_false. Qed.

Lemma streq_true s1 s2 : streq s1 s2 = true <-> s1 = s2.
Proof. unfold streq. apply bool_decide_eq_true. Qed.

Lemma streq_false s1 s2 : streq s1 s2 = false <-> s1 <> s2.
Proof. unfold streq. apply bool_decide_eq_false. Qed.

Lemma streq_refl s : streq s s = true.
Proof. now apply streq_true. Qed.

(** ** The opening routines end in one of three ways *)

(** The retry loop with its default arguments makes one call when the
    request is accepted and four when it is refused. *)
Lemma retried_eq request accepted s :
  retried request accepted s
  = if accepted then (Normal tt, s, [request])
    else (Thrown, s, replicate 4 request).
Proof. destruct accepted; reflexivity. Qed.

Lemma placeSpotTrade_eq entryPrice amount type direction env s :
  placeSpotTrade entryPrice amount type direction env s
  = (Normal tt,
     fst (placeSpotTrade_summary entryPrice amount type direction env s),
     snd (placeSpotTrade_summary entryPrice amount type direction env s)).
Proof.
  unfold placeSpotTrade_summary, placeSpotTrade, spotTotalCost, spotFeeRate,
    selectedBalance, debit, try_catch, bind, get.
  destruct (streq type "real");
    (destruct (greaterThan _ _); [reflexivity|]);
    unfold submitOrder, bind, emit, modify, pushTrade;
    destruct (orderAccepted env), direction; reflexivity.
Qed.

Lemma placeFutureTrade_eq entryPrice amount direction type allocation env s :
  placeFutureTrade entryPrice amount direction type allocation env s
  = (Normal tt,
     fst (placeFutureTrade_summary entryPrice amount direction type
            allocation env s),
     snd (placeFutureTrade_summary entryPrice amount direction type
            allocation env s)).
Proof.
  unfold placeFutureTrade_summary, placeFutureTrade, newFutureTrade,
    futureTotalCost, futureFeeRate, selectedBalance, debit, try_catch, bind,
    get.
  destruct (streq type "futures"), (streq type "real");
    (destruct (greaterThan _ _); [reflexivity|]);
    unfold submitOrder, bind, emit, modify, pushTrade;
    destruct (orderAccepted env), direction; reflexivity.
Qed.

(** ** Settlement in closed form *)

Lemma placeFutureTrade_summary_lookup entryPrice amount direction type
    allocation env s (l : loc) (t : Trade) :
  heap s !! l = Some t ->
  heap (fst (placeFutureTrade_summary entryPrice amount direction type
               allocation env s)) !! l = Some t.
Proof.
  intros H. unfold placeFutureTrade_summary, debit.
  destruct (greaterThan _ _); [exact H|].
  destruct (orderAccepted env), (streq type "real"); simpl;
    try exact H; now apply lookup_app_l_Some.
Qed.

Lemma reallocation_block_eq trade t currentPrice env s :
  heap s !! trade = Some t ->
  when (shouldReallocate t (netPnlOf t currentPrice (exitFeeAnswer env)))
    (emit (Log (Reallocating (id t) (amount t)));;
     placeFutureTrade currentPrice (amount t)
       (match direction t with long => short | short => long end) (type t)
       "favorable" (reallocation env);;
     assign trade (set_isReallocated true)) s
  = (Normal tt, fst (reallocated trade t currentPrice env s),
     snd (reallocated trade t currentPrice env s)).
Proof.
  intros H. unfold reallocated, when.
  destruct (shouldReallocate _ _); [|reflexivity].
  unfold bind, emit. fold (opposite (direction t)).
  rewrite placeFutureTrade_eq. unfold assign, modify. simpl.
  rewrite app_nil_r. reflexivity.
Qed.

Lemma reallocated_lookup trade t currentPrice env s :
  heap s !! trade = Some t ->
  heap (fst (reallocated trade t currentPrice env s)) !! trade
  = Some (if shouldReallocate t (netPnlOf t currentPrice (exitFeeAnswer env))
          then set_isReallocated true t else t).
Proof.
  intros H. unfold reallocated.
  destruct (shouldReallocate _ _); [|exact H].
  simpl. rewrite list_lookup_alter_eq.
  erewrite placeFutureTrade_summary_lookup by exact H. reflexivity.
Qed.

Lemma settleLedgers_eq t netPnl s :
  settleLedgers t netPnl s = (Normal tt, settled t netPnl s, []).
Proof.
  unfold settleLedgers, settled, bind, modify.
  destruct (streq (type t) "fake"); [reflexivity|].
  destruct (streq (type t) "real"); reflexivity.
Qed.

Lemma handleTradeClosure_eq trade t currentPrice env s :
  heap s !! trade = Some t ->
  handleTradeClosure trade currentPrice env s
  = (Normal tt,
     fst (handleTradeClosure_summary trade t currentPrice env s),
     snd (handleTradeClosure_summary trade t currentPrice env s)).
Proof.
  intros H. unfold handleTradeClosure, handleTradeClosure_summary.
  unfold try_catch. unfold bind at 1. unfold deref at 1. rewrite H.
  unfold bind at 1. rewrite (reallocation_block_eq _ _ _ _ _ H).
  unfold bind at 1. unfold emit at 1.
  unfold bind at 1. unfold deref.
  rewrite (reallocated_lookup _ _ _ _ _ H).
  assert (Hrow :
    forall b : bool, (let t' := if b then set_isReallocated true t else t in
      mkTradeRecord (id t') (entryPrice t') (amount t') (stopLoss t')
        (takeProfit t') (direction t') (type t')
        (outcomeOf (netPnlOf t currentPrice (exitFeeAnswer env)))
        (startTime t') (closeNow env)
        (netPnlOf t currentPrice (exitFeeAnswer env)) (allocation t')
        (isReallocated t'))
      = rowOf t (netPnlOf t currentPrice (exitFeeAnswer env)) (closeNow env) b)
    by (intros []; reflexivity).
  cbv zeta in Hrow. rewrite Hrow. clear Hrow.
  generalize (rowOf t (netPnlOf t currentPrice (exitFeeAnswer env))
                (closeNow env)
                (shouldReallocate t
                   (netPnlOf t currentPrice (exitFeeAnswer env)))).
  intros row.
  destruct (reallocated trade t currentPrice env s) as [s1 ev1].
  unfold Trade_create, bind, emit. rewrite retried_eq.
  destruct (tradeSchema row && recordStored env).
  - unfold ret. cbn [fst snd]. rewrite settleLedgers_eq.
    unfold modify, get, when. cbn [fst snd].
    match goal with
    | |- context [(?n =? 0)%nat] => destruct (n =? 0)%nat
    end; cbn [app]; rewrite ?app_nil_r, <- ?app_assoc; reflexivity.
  - cbn [fst snd app replicate].
    rewrite ?app_nil_r, <- ?app_assoc. reflexivity.
Qed.

(** ** One monitor tick in closed form *)

Lemma recordPeak_lookup trade t currentPrice s :
  heap s !! trade = Some t ->
  heap (recordPeak trade t currentPrice s) !! trade
  = Some (ratchet t currentPrice).
Proof.
  intros H. unfold ratchet, recordPeak. destruct (greaterThan _ _); [|exact H].
  simpl. rewrite list_lookup_alter_eq, H. reflexivity.
Qed.

Lemma monitorActiveTrades_body_eq trade t currentPrice env s :
  priceAnswer env = Some currentPrice ->
  heap s !! trade = Some t ->
  monitorActiveTrades_body trade env s
  = (Normal tt,
     fst (monitorActiveTrades_body_summary trade t currentPrice env s),
     snd (monitorActiveTrades_body_summary trade t currentPrice env s)).
Proof.
  intros Hp H.
  unfold monitorActiveTrades_body, monitorActiveTrades_body_summary.
  rewrite Hp. unfold getAvaxPrice, try_catch.
  unfold bind at 1. unfold ret at 1.
  unfold bind at 1. unfold deref at 1. rewrite H.
  unfold bind at 1.
  pose proof (recordPeak_lookup trade t currentPrice s H) as Hl.
  assert (Hw :
    when (greaterThan (currentProfitOf t currentPrice) (peakProfit t))
      (assign trade (set_peak (currentProfitOf t currentPrice) currentPrice))
      s
    = (Normal tt, recordPeak trade t currentPrice s, [])).
  { unfold recordPeak. destruct (greaterThan _ _); reflexivity. }
  rewrite Hw. clear Hw.
  unfold bind at 1. unfold deref at 1. rewrite Hl.
  destruct (takeProfitHit (ratchet t currentPrice) currentPrice).
  - unfold bind, emit. rewrite (handleTradeClosure_eq _ _ _ _ _ Hl).
    reflexivity.
  - unfold when.
    destruct (stopLossHit (ratchet t currentPrice) currentPrice).
    + unfold bind, emit. rewrite (handleTradeClosure_eq _ _ _ _ _ Hl).
      cbn [app fst snd]. rewrite ?app_nil_r. reflexivity.
    + reflexivity.
Qed.

Lemma monitorActiveTrades_body_no_price trade env s :
  priceAnswer env = None ->
  monitorActiveTrades_body trade env s = (Normal tt, s, [Log ErrorMonitoring]).
Proof. intros Hp. unfold monitorActiveTrades_body. rewrite Hp. reflexivity. Qed.

Lemma monitorActiveTrades_body_dangling trade env s :
  heap s !! trade = None ->
  monitorActiveTrades_body trade env s = (Normal tt, s, [Log ErrorMonitoring]).
Proof.
  intros H. unfold monitorActiveTrades_body, try_catch, getAvaxPrice.
  destruct (priceAnswer env); [|reflexivity].
  unfold bind at 1. unfold ret at 1. unfold bind at 1. unfold deref at 1.
  rewrite H. reflexivity.
Qed.

(** ** What a run does to the objects on the heap *)

Lemma evolves_refl t : evolves t t.
Proof. split; auto. Qed.

Lemma evolves_trans t1 t2 t3 : evolves t1 t2 -> evolves t2 t3 -> evolves t1 t3.
Proof.
  intros [] []. split; try congruence; try tauto.
  destruct ev_peak0 as [[Ha Hb]|Ha], ev_peak1 as [[Hc Hd]|Hc].
  - left. split; congruence.
  - right. rewrite <- Ha. exact Hc.
  - right. rewrite Hc. exact Ha.
  - right. eapply Qlt_trans; eassumption.
Qed.

Lemma evolves_peakProfit_le t t' :
  evolves t t' -> peakProfit t <= peakProfit t'.
Proof.
  intros [_ _ _ _ _ _ _ _ _ _ [[-> _]|H] _].
  - apply Qle_refl.
  - apply Qlt_le_weak, H.
Qed.

Lemma evolves_set_isReallocated t : evolves t (set_isReallocated true t).
Proof. split; auto. Qed.

Lemma evolves_ratchet t currentPrice : evolves t (ratchet t currentPrice).
Proof.
  unfold ratchet.
  destruct (greaterThan _ _) eqn:E; [|apply evolves_refl].
  apply greaterThan_true in E. split; auto.
Qed.

Lemma heap_evolves_refl s : heap_evolves s s.
Proof. intros l t H. exists t. split; [exact H|apply evolves_refl]. Qed.

Lemma heap_evolves_trans s1 s2 s3 :
  heap_evolves s1 s2 -> heap_evolves s2 s3 -> heap_evolves s1 s3.
Proof.
  intros H12 H23 l t H.
  destruct (H12 l t H) as (t2 & H2 & E2).
  destruct (H23 l t2 H2) as (t3 & H3 & E3).
  exists t3. split; [exact H3|]. eapply evolves_trans; eassumption.
Qed.

Lemma heap_evolves_app s s' (new : list Trade) :
  heap s' = heap s ++ new -> heap_evolves s s'.
Proof.
  intros E l t H. exists t. split; [|apply evolves_refl].
  rewrite E. now apply lookup_app_l_Some.
Qed.

Lemma heap_evolves_same s s' : heap s' = heap s -> heap_evolves s s'.
Proof. intros E. apply (heap_evolves_app s s' []). now rewrite app_nil_r. Qed.

Lemma heap_evolves_alter s s' (f : Trade -> Trade) (trade : loc) :
  heap s' = alter f trade (heap s) ->
  (forall t, heap s !! trade = Some t -> evolves t (f t)) ->
  heap_evolves s s'.
Proof.
  intros E Hf l t H. rewrite E.
  destruct (decide (trade = l)) as [->|Hne].
  - exists (f t). rewrite list_lookup_alter_eq, H. split; [reflexivity|].
    now apply Hf.
  - exists t. rewrite list_lookup_alter_ne by exact Hne.
    split; [exact H|apply evolves_refl].
Qed.

Lemma debit_heap type totalCost s : heap (debit type totalCost s) = heap s.
Proof. unfold debit. destruct (streq type "real"); reflexivity. Qed.

Lemma debit_activeTrades type totalCost s :
  activeTrades (debit type totalCost s) = activeTrades s.
Proof. unfold debit. destruct (streq type "real"); reflexivity. Qed.

Lemma placeSpotTrade_summary_heap entryPrice amount type direction env s :
  heap (fst (placeSpotTrade_summary entryPrice amount type direction env s))
  = heap s
    ++ (if greaterThan (spotTotalCost entryPrice amount env)
             (selectedBalance type s)
        then []
        else if orderAccepted env
             then [newSpotTrade entryPrice amount type direction env]
             else []).
Proof.
  unfold placeSpotTrade_summary.
  destruct (greaterThan _ _); [now rewrite app_nil_r|].
  destruct (orderAccepted env); simpl; rewrite debit_heap;
    [reflexivity|now rewrite app_nil_r].
Qed.

Lemma placeFutureTrade_summary_heap entryPrice amount direction type
    allocation env s :
  heap (fst (placeFutureTrade_summary entryPrice amount direction type
               allocation env s))
  = heap s
    ++ (if greaterThan (futureTotalCost entryPrice amount type env)
             (selectedBalance type s)
        then []
        else if orderAccepted env
             then [newFutureTrade entryPrice amount direction type allocation
                     env]
             else []).
Proof.
  unfold placeFutureTrade_summary.
  destruct (greaterThan _ _); [now rewrite app_nil_r|].
  destruct (orderAccepted env); simpl; rewrite debit_heap;
    [reflexivity|now rewrite app_nil_r].
Qed.

Lemma reallocated_heap_evolves trade t currentPrice env s :
  heap_evolves s (fst (reallocated trade t currentPrice env s)).
Proof.
  unfold reallocated.
  destruct (shouldReallocate _ _); [|apply heap_evolves_refl].
  eapply heap_evolves_trans.
  - eapply heap_evolves_app. apply placeFutureTrade_summary_heap.
  - eapply heap_evolves_alter; [reflexivity|].
    intros. apply evolves_set_isReallocated.
Qed.

Lemma settled_heap t netPnl s : heap (settled t netPnl s) = heap s.
Proof.
  unfold settled.
  destruct (streq (type t) "fake"), (streq (type t) "real"); reflexivity.
Qed.

Lemma handleTradeClosure_summary_heap trade t currentPrice env s :
  heap (fst (handleTradeClosure_summary trade t currentPrice env s))
  = heap (fst (reallocated trade t currentPrice env s)).
Proof.
  unfold handleTradeClosure_summary.
  destruct (_ && recordStored env); [|reflexivity].
  simpl. apply settled_heap.
Qed.

Lemma handleTradeClosure_summary_heap_evolves trade t currentPrice env s :
  heap_evolves s (fst (handleTradeClosure_summary trade t currentPrice env s)).
Proof.
  eapply heap_evolves_trans; [apply reallocated_heap_evolves|].
  apply heap_evolves_same, handleTradeClosure_summary_heap.
Qed.

Lemma monitorActiveTrades_body_summary_heap_evolves trade t currentPrice env s :
  heap s !! trade = Some t ->
  heap_evolves s
    (fst (monitorActiveTrades_body_summary trade t currentPrice env s)).
Proof.
  intros H. unfold monitorActiveTrades_body_summary.
  assert (heap_evolves s (recordPeak trade t currentPrice s)) as H1.
  { unfold recordPeak.
    destruct (greaterThan _ _) eqn:E; [|apply heap_evolves_refl].
    eapply heap_evolves_alter; [reflexivity|].
    intros t0 H0. rewrite H in H0. injection H0 as <-.
    pose proof (evolves_ratchet t currentPrice) as Hr.
    unfold ratchet in Hr. now rewrite E in Hr. }
  destruct (takeProfitHit _ _); [|destruct (stopLossHit _ _)]; simpl;
    try exact H1;
    (eapply heap_evolves_trans;
     [exact H1|apply handleTradeClosure_summary_heap_evolves]).
Qed.

Lemma keeps_heap_ret {A} (a : A) : keeps_heap (ret a).
Proof. intros s. apply heap_evolves_refl. Qed.

Lemma keeps_heap_throw {A} : keeps_heap (@throw A).
Proof. intros s. apply heap_evolves_refl. Qed.

Lemma keeps_heap_get : keeps_heap get.
Proof. intros s. apply heap_evolves_refl. Qed.

Lemma keeps_heap_emit e : keeps_heap (emit e).
Proof. intros s. apply heap_evolves_refl. Qed.

Lemma keeps_heap_modify f :
  (forall s, heap (f s) = heap s) -> keeps_heap (modify f).
Proof. intros H s. apply heap_evolves_same, H. Qed.

Lemma keeps_heap_bind {A B} (m : Eff A) (k : A -> Eff B) :
  keeps_heap m -> (forall a, keeps_heap (k a)) -> keeps_heap (bind m k).
Proof.
  intros Hm Hk s. specialize (Hm s). unfold bind, state_of in *.
  destruct (m s) as [[[a|] s1] ev1]; simpl in *; [|exact Hm].
  specialize (Hk a s1). unfold state_of in Hk.
  destruct (k a s1) as [[r s2] ev2]; simpl in *.
  eapply heap_evolves_trans; eassumption.
Qed.

Lemma keeps_heap_try_catch {A} (m h : Eff A) :
  keeps_heap m -> keeps_heap h -> keeps_heap (try_catch m h).
Proof.
  intros Hm Hh s. specialize (Hm s). unfold try_catch, state_of in *.
  destruct (m s) as [[[a|] s1] ev1]; simpl in *; [exact Hm|].
  specialize (Hh s1). unfold state_of in Hh.
  destruct (h s1) as [[r s2] ev2]; simpl in *.
  eapply heap_evolves_trans; eassumption.
Qed.

Lemma keeps_heap_when b m : keeps_heap m -> keeps_heap (when b m).
Proof. destruct b; [auto|intros _; apply keeps_heap_ret]. Qed.

Lemma keeps_heap_placeSpotTrade entryPrice amount type direction env :
  keeps_heap (placeSpotTrade entryPrice amount type direction env).
Proof.
  intros s. rewrite placeSpotTrade_eq. unfold state_of. simpl.
  eapply heap_evolves_app, placeSpotTrade_summary_heap.
Qed.

Lemma keeps_heap_placeFutureTrade entryPrice amount direction type allocation
    env :
  keeps_heap
    (placeFutureTrade entryPrice amount direction type allocation env).
Proof.
  intros s. rewrite placeFutureTrade_eq. unfold state_of. simpl.
  eapply heap_evolves_app, placeFutureTrade_summary_heap.
Qed.

Lemma keeps_heap_getAvaxBalance answer : keeps_heap (getAvaxBalance answer).
Proof.
  destruct answer; [|apply keeps_heap_ret].
  repeat first
    [ apply keeps_heap_bind; [|intros ?]
    | apply keeps_heap_when
    | apply keeps_heap_get
    | apply keeps_heap_modify; reflexivity ].
Qed.

Lemma keeps_heap_sessionDampening probability base now :
  keeps_heap (sessionDampening probability base now).
Proof.
  unfold sessionDampening.
  repeat first
    [ apply keeps_heap_bind; [|intros ?]
    | apply keeps_heap_get
    | apply keeps_heap_emit
    | apply keeps_heap_ret
    | apply keeps_heap_modify; reflexivity
    | match goal with |- keeps_heap (if ?b then _ else _) => destruct b end ].
Qed.

Lemma keeps_heap_checkPrices env : keeps_heap (checkPrices env).
Proof.
  unfold checkPrices.
  apply keeps_heap_try_catch; [|apply keeps_heap_emit].
  repeat first
    [ apply keeps_heap_getAvaxBalance
    | apply keeps_heap_sessionDampening
    | apply keeps_heap_placeSpotTrade
    | apply keeps_heap_placeFutureTrade
    | apply keeps_heap_emit
    | apply keeps_heap_ret
    | apply keeps_heap_modify; reflexivity
    | apply keeps_heap_bind; [|intros ?]
    | match goal with
      | |- keeps_heap (if ?b then _ else _) => destruct b
      | |- keeps_heap (match ?x with _ => _ end) => destruct x
      end ].
Qed.

Lemma keeps_heap_monitorActiveTrades_body trade env :
  keeps_heap (monitorActiveTrades_body trade env).
Proof.
  intros s.
  destruct (priceAnswer env) as [currentPrice|] eqn:Hp.
  - destruct (heap s !! trade) as [t|] eqn:H.
    + rewrite (monitorActiveTrades_body_eq _ _ _ _ _ Hp H).
      unfold state_of. simpl.
      now apply monitorActiveTrades_body_summary_heap_evolves.
    + rewrite (monitorActiveTrades_body_dangling _ _ _ H).
      apply heap_evolves_refl.
  - rewrite (monitorActiveTrades_body_no_price _ _ _ Hp).
    apply heap_evolves_refl.
Qed.

Lemma keeps_heap_forOf_activeTrades fuel array elements index envs :
  keeps_heap (forOf_activeTrades fuel array elements index envs).
Proof.
  revert elements index.
  induction fuel as [|fuel IH]; intros elements index; cbn [forOf_activeTrades];
    (destruct (elements !! index) as [trade|]; [|apply keeps_heap_ret]).
  - apply keeps_heap_ret.
  - apply keeps_heap_bind; [apply keeps_heap_get|intros s0].
    apply keeps_heap_bind;
      [apply keeps_heap_monitorActiveTrades_body|intros _].
    apply keeps_heap_bind; [apply keeps_heap_get|intros s1].
    apply IH.
Qed.

Lemma keeps_heap_monitorActiveTrades envs :
  keeps_heap (monitorActiveTrades envs).
Proof.
  unfold monitorActiveTrades.
  apply keeps_heap_bind; [apply keeps_heap_get|intros s0].
  apply keeps_heap_bind;
    [apply keeps_heap_forOf_activeTrades|intros _; apply keeps_heap_ret].
Qed.

Lemma step_heap_evolves op s : heap_evolves s (step op s).
Proof.
  unfold step. destruct op; simpl.
  - apply keeps_heap_checkPrices.
  - apply keeps_heap_placeSpotTrade.
  - apply keeps_heap_placeFutureTrade.
  - apply keeps_heap_monitorActiveTrades_body.
  - apply keeps_heap_monitorActiveTrades.
Qed.

Lemma run_heap_evolves ops s : heap_evolves s (run ops s).
Proof.
  revert s. induction ops as [|op ops IH]; intros s; simpl.
  - apply heap_evolves_refl.
  - eapply heap_evolves_trans; [apply step_heap_evolves|apply IH].
Qed.

(** ** Probability engine *)

Lemma clamp_bounds probability : 0 <= clamp probability <= 100.
Proof.
  unfold clamp.
  destruct (lessThan probability 0) eqn:E1.
  - destruct (greaterThan 0 100) eqn:E2.
    + apply greaterThan_true in E2. lra.
    + lra.
  - apply lessThan_false in E1.
    destruct (greaterThan probability 100) eqn:E2.
    + lra.
    + apply greaterThan_false in E2. lra.
Qed.

Lemma calculateProbability_bounds rsi macd sma ema stochastic atr bollinger
    baseProbability :
  0 <= calculateProbability rsi macd sma ema stochastic atr bollinger
         baseProbability <= 100.
Proof. unfold calculateProbability. apply clamp_bounds. Qed.

Lemma sessionDampening_result probability base now s :
  exists p,
    completion_of (sessionDampening probability base now s) = Normal p
    /\ (p = probability \/ p = probability - 5).
Proof.
  unfold sessionDampening, completion_of, bind, get, modify.
  destruct (greaterThanOrEqualTo _ _); cbn [fst snd];
    destruct (greaterThan _ _); cbn [fst snd]; eauto.
Qed.

(** C5, as amended.  For every indicator snapshot, base probability, clock
    and accumulator state, the value returned by [calculateProbability] lies
    in [0, 100]; the success probability that [checkPrices] then logs and
    gates on is that value or that value minus the flat 5 of the session
    dampening, which is not clamped again, so it lies in [-5, 100]. *)
Theorem adjusted_probability_bounds (ind : Snapshot)
    (baseProbability : Decimal) (now : Z) (s : State) :
  let computed :=
    calculateProbability (rsi ind) (macd ind) (sma ind) (ema ind)
      (stochastic ind) (atr ind) (bollinger ind) baseProbability in
  0 <= computed <= 100
  /\ exists p,
       adjustedProbability ind baseProbability now s = Normal p
       /\ (p = computed \/ p = computed - 5)
       /\ -5 <= p <= 100.
Proof.
  intros computed.
  pose proof (calculateProbability_bounds (rsi ind) (macd ind) (sma ind)
                (ema ind) (stochastic ind) (atr ind) (bollinger ind)
                baseProbability) as Hb.
  fold computed in Hb. split; [exact Hb|].
  unfold adjustedProbability. fold computed.
  destruct (sessionDampening_result computed baseProbability now s)
    as (p & Hp & Hcases).
  exists p. split; [exact Hp|]. split; [exact Hcases|].
  destruct Hcases as [->| ->]; lra.
Qed.

(** C5 as stated fails: with base probability 3, bearish indicators and an
    accumulator at 18, the clamped value 0 adds 3 to the accumulator, which
    passes 20, and the logged probability is -5. *)
Lemma adjusted_probability_below_zero :
  exists p,
    adjustedProbability bearish 3 1000 swungSession = Normal p
    /\ p == -5
    /\ ~ (0 <= p <= 100).
Proof.
  eexists. split; [vm_compute; reflexivity|]. split; [reflexivity|].
  intros [H _]. vm_compute in H. apply H. reflexivity.
Qed.

(** ** Opening *)



(** C10.  A spot open that passes the balance check derives its levels with
    the long formulas whatever the direction argument: when the order is
    accepted, the registered position has
    stopLoss = entryPrice * (1 - 1.5/100) and
    takeProfit = entryPrice * (1 + 6/100), also for [short]; the one order
    submitted does follow the argument (BUY for long, SELL for short), and
    so does the stored direction.  When the order is refused, it is the
    order with that same side that the retry loop sends at each of its four
    attempts. *)
Theorem spot_levels_ignore_direction (entryPrice amount : Decimal)
    (type : string) (requested : Direction) (env : OpenEnv) (s : State) :
  spotTotalCost entryPrice amount env <= selectedBalance type s ->
  let r := placeSpotTrade entryPrice amount type requested env s in
  let order :=
    Order SpotApi (match requested with long => BUY | short => SELL end)
      "AVAXUSDT" amount in
  (orderAccepted env = true ->
   ordersIn (events_of r) = [order]
   /\ exists t,
        heap (state_of r) = heap s ++ [t]
        /\ activeTrades (state_of r) = activeTrades s ++ [length (heap s)]
        /\ direction t = requested
        /\ stopLoss t = entryPrice * (1 - 1.5 / 100)
        /\ takeProfit t = entryPrice * (1 + 6 / 100))
  /\ (orderAccepted env = false ->
      ordersIn (events_of r) = [order; order; order; order]).
Proof.
  intros H r order. subst r order. apply greaterThan_false in H.
  rewrite placeSpotTrade_eq. unfold placeSpotTrade_summary, events_of, state_of.
  rewrite H. cbn [fst snd].
  split.
  - intros ->. cbn [fst snd]. split; [now destruct requested|].
    exists (newSpotTrade entryPrice amount type requested env).
    unfold pushed. cbn. rewrite debit_heap, debit_activeTrades.
    repeat split; reflexivity.
  - intros ->. now destruct requested.
Qed.

Lemma spot_levels_witness :
  let r := placeSpotTrade 100 1 "fake" short acceptingGateway freshSession in
  ordersIn (events_of r) = [Order SpotApi SELL "AVAXUSDT" 1]
  /\ exists t,
       heap (state_of r) = [t]
       /\ activeTrades (state_of r) = [0%nat]
       /\ direction t = short
       /\ stopLoss t = 100 * (1 - 1.5 / 100)
       /\ takeProfit t = 100 * (1 + 6 / 100).
Proof.
  assert (spotTotalCost 100 1 acceptingGateway
          <= selectedBalance "fake" freshSession) as H
    by (vm_compute; discriminate).
  destruct (spot_levels_ignore_direction 100 1 "fake" short acceptingGateway
              freshSession H) as [Ht _].
  destruct (Ht eq_refl) as (Ho & t & H1 & H2 & H3 & H4 & H5).
  split; [exact Ho|].
  exists t. repeat split; auto.
Defined.

(** ** Exit evaluation *)


Lemma outcomeOf_loss netPnl : netPnl < 0 -> outcomeOf netPnl = loss.
Proof.
  intros H. unfold outcomeOf.
  apply greaterThanOrEqualTo_false in H. now rewrite H.
Qed.


Lemma id_ratchet t currentPrice : id (ratchet t currentPrice) = id t.
Proof. unfold ratchet. destruct (greaterThan _ _); reflexivity. Qed.



(** The row of a settlement is handed over once when it is stored, and at
    each of the four attempts when it is not. *)
Lemma closure_events_rows trade t currentPrice env s :
  let row :=
    rowOf t (netPnlOf t currentPrice (exitFeeAnswer env)) (closeNow env)
      (shouldReallocate t (netPnlOf t currentPrice (exitFeeAnswer env))) in
  rowsIn (snd (handleTradeClosure_summary trade t currentPrice env s))
  = if tradeSchema row && recordStored env then [row]
    else [row; row; row; row].
Proof.
  cbv zeta.
  unfold handleTradeClosure_summary, reallocated, placeFutureTrade_summary.
  generalize (rowOf t (netPnlOf t currentPrice (exitFeeAnswer env))
                (closeNow env)
                (shouldReallocate t
                   (netPnlOf t currentPrice (exitFeeAnswer env)))).
  intros row.
  repeat match goal with
         | |- context [if ?b then _ else _] => destruct b
         end; reflexivity.
Qed.

Lemma monitorActiveTrades_body_summary_lookup trade t currentPrice env s :
  heap s !! trade = Some t ->
  exists t2,
    heap (fst (monitorActiveTrades_body_summary trade t currentPrice env s))
      !! trade
    = Some t2
    /\ peakProfit t2 = peakProfit (ratchet t currentPrice)
    /\ peakPrice t2 = peakPrice (ratchet t currentPrice).
Proof.
  intros H.
  pose proof (recordPeak_lookup trade t currentPrice s H) as Hl.
  pose proof (reallocated_lookup trade (ratchet t currentPrice) currentPrice
                (closure env) _ Hl) as Hr.
  unfold monitorActiveTrades_body_summary.
  destruct (takeProfitHit _ _); [|destruct (stopLossHit _ _)]; cbn [fst snd];
    rewrite ?handleTradeClosure_summary_heap, ?Hr, ?Hl;
    eexists; (split; [reflexivity|]);
    try destruct (shouldReallocate _ _); split; reflexivity.
Qed.

Lemma ratchet_lockstep t currentPrice :
  (peakProfit (ratchet t currentPrice) = peakProfit t
   /\ peakPrice (ratchet t currentPrice) = peakPrice t)
  \/ (peakProfit t < peakProfit (ratchet t currentPrice)
      /\ peakProfit (ratchet t currentPrice) = currentProfitOf t currentPrice
      /\ peakPrice (ratchet t currentPrice) = currentPrice).
Proof.
  unfold ratchet. destruct (greaterThan _ _) eqn:E; [right|left; tauto].
  apply greaterThan_true in E. cbn. tauto.
Qed.

(** C8.  Along any run of the engine (ticks of the monitor at any observed
    prices, on this or other positions, whole monitor passes, signal checks
    and opens in between), the [peakProfit] of a position never decreases,
    and at each step the pair
    ([peakProfit], [peakPrice]) is either left as it was or [peakProfit]
    strictly increases.  At a monitor tick on the position itself the second
    case writes both fields together: [peakProfit] becomes the profit at the
    observed price and [peakPrice] becomes that price. *)
Theorem peak_ratchet (before : list Op) (op : Op) (s : State) (trade : loc)
    (t : Trade) :
  heap s !! trade = Some t ->
  exists t1 t2,
    heap (run before s) !! trade = Some t1
    /\ heap (step op (run before s)) !! trade = Some t2
    /\ peakProfit t <= peakProfit t1
    /\ peakProfit t1 <= peakProfit t2
    /\ ((peakProfit t2 = peakProfit t1 /\ peakPrice t2 = peakPrice t1)
        \/ peakProfit t1 < peakProfit t2)
    /\ (forall env,
          op = MonitorTrade trade env ->
          (peakProfit t2 = peakProfit t1 /\ peakPrice t2 = peakPrice t1)
          \/ exists price,
               priceAnswer env = Some price
               /\ peakProfit t1 < peakProfit t2
               /\ peakProfit t2 = currentProfitOf t1 price
               /\ peakPrice t2 = price).
Proof.
  intros H.
  destruct (run_heap_evolves before s trade t H) as (t1 & H1 & E1).
  destruct (step_heap_evolves op (run before s) trade t1 H1) as (t2 & H2 & E2).
  exists t1, t2.
  split; [exact H1|]. split; [exact H2|].
  split; [now apply evolves_peakProfit_le|].
  split; [now apply evolves_peakProfit_le|].
  split; [apply (ev_peak _ _ E2)|].
  intros env ->. unfold step, perform in H2.
  destruct (priceAnswer env) as [price|] eqn:Hp.
  - rewrite (monitorActiveTrades_body_eq _ _ _ _ _ Hp H1) in H2.
    unfold state_of in H2. cbn [fst snd] in H2.
    destruct (monitorActiveTrades_body_summary_lookup trade t1 price env _ H1)
      as (t2' & H2' & Hprofit & Hprice).
    rewrite H2' in H2. injection H2 as <-.
    rewrite Hprofit, Hprice.
    destruct (ratchet_lockstep t1 price) as [Hsame|Hup]; [left; exact Hsame|].
    right. exists price. tauto.
  - rewrite (monitorActiveTrades_body_no_price _ _ _ Hp) in H2.
    unfold state_of in H2. cbn [fst snd] in H2.
    rewrite H1 in H2. injection H2 as <-. left. tauto.
Qed.

Lemma peak_ratchet_witness :
  exists t1 t2,
    heap (run [MonitorTrade 0 (tickAt 103 storingClosure)] openedSession)
      !! 0%nat = Some t1
    /\ heap
         (step (MonitorTrade 0 (tickAt 105 storingClosure))
            (run [MonitorTrade 0 (tickAt 103 storingClosure)] openedSession))
       !! 0%nat = Some t2
    /\ peakProfit t1 <= peakProfit t2
    /\ peakPrice t2 = 105.
Proof.
  assert (heap openedSession !! 0%nat
          = Some (newFutureTrade 100 1 long "fake" "favorable" freeGateway))
    as H by (vm_compute; reflexivity).
  destruct (peak_ratchet [MonitorTrade 0 (tickAt 103 storingClosure)]
              (MonitorTrade 0 (tickAt 105 storingClosure)) openedSession 0 _ H)
    as (t1 & t2 & H1 & H2 & _ & Hle & _ & Htick).
  exists t1, t2. split; [exact H1|]. split; [exact H2|]. split; [exact Hle|].
  vm_compute in H1. injection H1 as <-.
  vm_compute in H2. injection H2 as <-. reflexivity.
Defined.

(** ** A refused order *)





(** ** Reallocation *)

Lemma shouldReallocate_true t netPnl :
  netPnl < 0 -> allocation t = "unfavorable" -> isReallocated t = false ->
  shouldReallocate t netPnl = true.
Proof.
  intros Hn Ha Hr. unfold shouldReallocate.
  apply isNegative_true in Hn. rewrite Hn, Ha, Hr. reflexivity.
Qed.

Lemma shouldReallocate_false t netPnl :
  allocation t <> "unfavorable" \/ isReallocated t = true \/ 0 <= netPnl ->
  shouldReallocate t netPnl = false.
Proof.
  unfold shouldReallocate. intros [H|[H|H]].
  - apply streq_false in H. rewrite H. now rewrite andb_false_r.
  - rewrite H. now rewrite andb_false_r.
  - apply isNegative_false in H. now rewrite H.
Qed.

Lemma drop_length_alter_app (f : Trade -> Trade) (trade : loc)
    (old new : list Trade) :
  (trade < length old)%nat ->
  drop (length old) (alter f trade (old ++ new)) = new.
Proof.
  intros H. revert trade H.
  induction old as [|x old IH]; intros trade H; simpl in *; [lia|].
  destruct trade as [|trade]; simpl.
  - apply drop_app_length.
  - apply IH. lia.
Qed.

Lemma settled_activeTrades t netPnl s :
  activeTrades (settled t netPnl s) = activeTrades s.
Proof.
  unfold settled.
  destruct (streq (type t) "fake"), (streq (type t) "real"); reflexivity.
Qed.

(** A settlement only removes from the active set the references whose
    object carries the id of the closed position. *)
Lemma handleTradeClosure_summary_keeps_active trade t currentPrice env s
    (l : loc) (x : Trade) :
  heap (fst (reallocated trade t currentPrice env s)) !! l = Some x ->
  id x <> id t ->
  l ∈ activeTrades (fst (reallocated trade t currentPrice env s)) ->
  l ∈ activeTrades
        (fst (handleTradeClosure_summary trade t currentPrice env s)).
Proof.
  intros Hx Hid Hin. unfold handleTradeClosure_summary.
  destruct (_ && recordStored env); [|exact Hin].
  cbn [fst snd]. unfold removeById. cbn [activeTrades rebind_activeTrades].
  rewrite settled_activeTrades, settled_heap.
  apply list_elem_of_In, filter_In. split; [now apply list_elem_of_In|].
  rewrite Hx. apply streq_false in Hid. now rewrite Hid.
Qed.

(** C6, as amended.  When a position with allocation unfavorable settles
    with netPnl < 0 and isReallocated false, isReallocated on the closed
    position becomes true, and one opening request is made at the exit price
    for the opposite direction, the same amount, the same type and
    allocation favorable; that request opens exactly one new position with
    those attributes (one order, one new object, registered in the active
    set) when its total cost does not exceed the selected balance and the
    order is accepted, and no position otherwise.  A position whose
    allocation is not unfavorable, or that is already reallocated, or that
    closes with netPnl >= 0, triggers no reallocation: no position is
    created and no order is submitted. *)
Theorem reallocation_rule (trade : loc) (t : Trade) (currentPrice : Decimal)
    (env : CloseEnv) (s : State) :
  heap s !! trade = Some t ->
  let netPnl := netPnlOf t currentPrice (exitFeeAnswer env) in
  let cost :=
    futureTotalCost currentPrice (amount t) (type t) (reallocation env) in
  let r := handleTradeClosure trade currentPrice env s in
  (netPnl < 0 -> allocation t = "unfavorable" -> isReallocated t = false ->
   heap (state_of r) !! trade = Some (set_isReallocated true t)
   /\ (cost <= selectedBalance (type t) s ->
       orderAccepted (reallocation env) = true ->
       exists n,
         openedBetween s (state_of r) = [n]
         /\ direction n = opposite (direction t)
         /\ amount n = amount t
         /\ type n = type t
         /\ tradeMode n = type t
         /\ allocation n = "favorable"
         /\ entryPrice n = currentPrice
         /\ isReallocated n = false
         /\ ordersIn (events_of r)
            = [Order FuturesApi (sideOf (opposite (direction t))) "AVAXUSDT"
                 (amount t)]
         /\ (id n <> id t -> length (heap s) ∈ activeTrades (state_of r)))
   /\ (selectedBalance (type t) s < cost
       \/ orderAccepted (reallocation env) = false ->
       openedBetween s (state_of r) = []))
  /\ (allocation t <> "unfavorable" \/ isReallocated t = true \/ 0 <= netPnl ->
      heap (state_of r) = heap s
      /\ openedBetween s (state_of r) = []
      /\ ordersIn (events_of r) = []).
Proof.
  intros H netPnl cost r. subst netPnl cost r.
  rewrite (handleTradeClosure_eq _ _ _ _ _ H).
  unfold state_of, events_of, openedBetween. cbn [fst snd].
  rewrite handleTradeClosure_summary_heap.
  assert (trade < length (heap s))%nat as Hlt
    by (eapply lookup_lt_Some; exact H).
  split.
  - intros Hn Ha Hr.
    pose proof (shouldReallocate_true _ _ Hn Ha Hr) as Hs.
    rewrite (reallocated_lookup _ _ _ _ _ H), Hs.
    split; [reflexivity|].
    split.
    + intros Hc Ho. apply greaterThan_false in Hc.
      assert (Hre :
        reallocated trade t currentPrice env s
        = (set_heap
             (alter (set_isReallocated true) trade
                (heap s
                 ++ [newFutureTrade currentPrice (amount t)
                       (opposite (direction t)) (type t) "favorable"
                       (reallocation env)]))
             (pushed
                (newFutureTrade currentPrice (amount t)
                   (opposite (direction t)) (type t) "favorable"
                   (reallocation env))
                (debit (type t)
                   (futureTotalCost currentPrice (amount t) (type t)
                      (reallocation env)) s)),
           [Log (Reallocating (id t) (amount t));
            Order FuturesApi (sideOf (opposite (direction t))) "AVAXUSDT"
              (amount t)])).
      { unfold reallocated, placeFutureTrade_summary. rewrite Hs, Hc, Ho.
        cbn [fst snd]. unfold pushed at 1. cbn [heap set_heap set_activeTrades].
        rewrite debit_heap. reflexivity. }
      eexists. split.
      { rewrite Hre. cbn [fst heap set_heap].
        apply drop_length_alter_app. exact Hlt. }
      cbn. repeat (split; [reflexivity|]). split.
      * unfold handleTradeClosure_summary. rewrite Hre. cbn [fst snd].
        destruct (_ && recordStored env); cbn [fst snd app];
          [match goal with
           | |- context [if ?b then _ else _] => destruct b
           end|]; reflexivity.
      * intros Hid.
        apply (handleTradeClosure_summary_keeps_active trade t currentPrice
                 env s (length (heap s))
                 (newFutureTrade currentPrice (amount t)
                    (opposite (direction t)) (type t) "favorable"
                    (reallocation env))).
        -- rewrite Hre. cbn [fst heap set_heap].
           rewrite list_lookup_alter_ne by lia.
           apply list_lookup_middle. reflexivity.
        -- exact Hid.
        -- rewrite Hre.
           cbn [fst heap set_heap activeTrades pushed set_activeTrades].
           rewrite debit_activeTrades, debit_heap.
           apply elem_of_app. right. apply list_elem_of_singleton.
           reflexivity.
    + unfold reallocated. rewrite Hs. cbn [fst snd heap set_heap].
      rewrite placeFutureTrade_summary_heap.
      rewrite drop_length_alter_app by exact Hlt.
      intros [Hc|Ho].
      * apply greaterThan_true in Hc. now rewrite Hc.
      * rewrite Ho. now destruct (greaterThan _ _).
  - intros Hno. pose proof (shouldReallocate_false _ _ Hno) as Hs.
    unfold handleTradeClosure_summary, reallocated. rewrite Hs.
    cbn [fst snd]. rewrite drop_all.
    split; [reflexivity|]. split; [reflexivity|].
    destruct (_ && recordStored env); [|reflexivity].
    cbn [fst snd app].
    match goal with
    | |- context [if ?b then _ else _] => destruct b
    end; reflexivity.
Qed.

Lemma reallocation_rule_witness :
  (exists n,
     openedBetween loneShortSession
       (state_of (handleTradeClosure 0 102 storingClosure loneShortSession))
     = [n]
     /\ direction n = long /\ amount n = 1 /\ allocation n = "favorable")
  /\ openedBetween hedgedSession
       (state_of (handleTradeClosure 1 102 storingClosure hedgedSession))
     = []
  /\ openedBetween openedSession
       (state_of (handleTradeClosure 0 98 storingClosure openedSession))
     = [].
Proof.
  split; [|split].
  - assert (heap loneShortSession !! 0%nat = Some loneShort) as H
      by (vm_compute; reflexivity).
    destruct (proj1 (reallocation_rule 0 loneShort 102 storingClosure
                       loneShortSession H))
      as (_ & Hopen & _);
      [vm_compute; reflexivity|reflexivity|reflexivity|].
    destruct Hopen as (n & Hn & Hd & Ha & _ & _ & Hal & _);
      [vm_compute; discriminate|reflexivity|].
    exists n. split; [exact Hn|]. split; [exact Hd|]. split; [exact Ha|].
    exact Hal.
  - assert (heap hedgedSession !! 1%nat = Some shortLeg) as H
      by (vm_compute; reflexivity).
    destruct (proj1 (reallocation_rule 1 shortLeg 102 storingClosure
                       hedgedSession H))
      as (_ & _ & Hnone);
      [vm_compute; reflexivity|reflexivity|reflexivity|].
    apply Hnone. left. vm_compute. reflexivity.
  - assert (heap openedSession !! 0%nat
            = Some (newFutureTrade 100 1 long "fake" "favorable" freeGateway))
      as H by (vm_compute; reflexivity).
    destruct (proj2 (reallocation_rule 0 _ 98 storingClosure openedSession H))
      as (_ & Hnone & _); [left; discriminate|].
    exact Hnone.
Defined.

(** C6 as stated fails: the unfavorable short leg of a hedge that used 900
    of 1000 settles at a loss; the reallocation request costs 306 against a
    balance of 100 and is rejected, so no position is opened, and the closed
    position is marked reallocated all the same. *)
Lemma reallocation_without_funds_opens_nothing :
  let r := handleTradeClosure 1 102 storingClosure hedgedSession in
  heap hedgedSession !! 1%nat = Some shortLeg
  /\ allocation shortLeg = "unfavorable"
  /\ isReallocated shortLeg = false
  /\ netPnlOf shortLeg 102 (exitFeeAnswer storingClosure) < 0
  /\ openedBetween hedgedSession (state_of r) = []
  /\ heap (state_of r) !! 1%nat = Some (set_isReallocated true shortLeg).
Proof.
  cbv zeta. repeat split; vm_compute; reflexivity.
Qed.

(** ** Ledger round trips *)

(** X14.  What a simulated round trip does to the simulated ledger, for a
    leg of either allocation: the open takes the notional plus fee, the
    close gives back the net PnL plus the bare amount.  When the leg is an
    unfavorable one closed at a loss, the reallocation that the close opens
    at the closing price takes its own notional plus fee from the ledger as
    well, provided the ledger covers it (whether or not its order is then
    accepted). *)
Lemma fake_round_trip_balance (entryPrice amount currentPrice : Decimal)
    (direction : Direction) (allocation : string) (env : OpenEnv)
    (cenv : CloseEnv) (s : State) :
  futureTotalCost entryPrice amount "fake" env <= fakeBalance s ->
  orderAccepted env = true ->
  generateTradeId env <> "" ->
  allocation = "favorable" \/ allocation = "unfavorable" ->
  recordStored cenv = true ->
  let t := newFutureTrade entryPrice amount direction "fake" allocation env in
  let netPnl := netPnlOf t currentPrice (exitFeeAnswer cenv) in
  let opened :=
    state_of
      (placeFutureTrade entryPrice amount direction "fake" allocation env s) in
  let closed :=
    state_of (handleTradeClosure (length (heap s)) currentPrice cenv opened) in
  let afterOpen :=
    fakeBalance s - futureTotalCost entryPrice amount "fake" env in
  let reallocationCost :=
    futureTotalCost currentPrice amount "fake" (reallocation cenv) in
  fakeBalance opened = afterOpen
  /\ fakeBalance closed
     == (if isNegative netPnl && streq allocation "unfavorable"
            && negb (greaterThan reallocationCost afterOpen)
         then afterOpen - reallocationCost
         else afterOpen)
        + netPnl + amount.
Proof.
  intros Hc Ho Hid Halloc Hs t netPnl opened closed afterOpen
    reallocationCost.
  subst t netPnl opened closed afterOpen reallocationCost.
  rename allocation into leg, amount into qty, direction into dir.
  apply greaterThan_false in Hc.
  rewrite placeFutureTrade_eq. unfold state_of. cbn [fst snd].
  assert (Hopened :
    fst (placeFutureTrade_summary entryPrice qty dir "fake"
           leg env s)
    = pushed
        (newFutureTrade entryPrice qty dir "fake" leg env)
        (debit "fake" (futureTotalCost entryPrice qty "fake" env) s)).
  { unfold placeFutureTrade_summary.
    change (selectedBalance "fake" s) with (fakeBalance s).
    rewrite Hc, Ho. reflexivity. }
  rewrite Hopened. split; [reflexivity|].
  erewrite handleTradeClosure_eq.
  2:{ unfold pushed. cbn [heap set_heap set_activeTrades].
      rewrite debit_heap. apply list_lookup_middle. reflexivity. }
  assert (Hrow : forall netPnl exitTime now,
    tradeSchema
      (rowOf (newFutureTrade entryPrice qty dir "fake" leg
                env) netPnl exitTime now) = true).
  { intros. unfold tradeSchema. cbn.
    apply streq_false in Hid. rewrite Hid.
    destruct Halloc as [-> | ->]; reflexivity. }
  unfold handleTradeClosure_summary. rewrite Hrow, Hs.
  unfold reallocated, shouldReallocate, placeFutureTrade_summary.
  cbn [fst snd andb negb isReallocated allocation type amount
       newFutureTrade].
  rewrite Bool.andb_true_r.
  set (open :=
         pushed (newFutureTrade entryPrice qty dir "fake" leg
                   env)
           (debit "fake" (futureTotalCost entryPrice qty "fake" env) s)).
  change (selectedBalance "fake" open)
    with (fakeBalance s - futureTotalCost entryPrice qty "fake" env).
  destruct (isNegative _ && streq leg "unfavorable");
    [|cbn; reflexivity].
  destruct (greaterThan
              (futureTotalCost currentPrice qty "fake" (reallocation cenv))
              _); [cbn; reflexivity|].
  destruct (orderAccepted (reallocation cenv)); cbn; reflexivity.
Qed.

(** C2 at the failing input.  A simulated long of 1 AVAX opened at 100 and
    closed at 100, all fee rates zero: the open takes 100 from the simulated
    ledger, the close returns the net PnL 0 plus the amount 1, and the
    ledger ends at 901 instead of the 1000 it started from. *)
Theorem fake_round_trip_not_conserved :
  let opened :=
    state_of
      (placeFutureTrade 100 1 long "fake" "favorable" freeGateway
         freshSession) in
  let closed := state_of (handleTradeClosure 0 100 storingClosure opened) in
  fakeBalance freshSession == 1000
  /\ fakeBalance opened == 900
  /\ netPnlOf (newFutureTrade 100 1 long "fake" "favorable" freeGateway) 100
       (exitFeeAnswer storingClosure) == 0
  /\ activeTrades closed = []
  /\ fakeBalance closed == 901
  /\ ~ fakeBalance closed == fakeBalance freshSession.
Proof.
  cbv zeta. repeat split; try (vm_compute; reflexivity).
  vm_compute. discriminate.
Qed.

(** ** Margin and leverage *)

(** With the type the caller of [placeFutureTrade] would have to pass for
    it, the margin path is taken. *)
Lemma futures_type_uses_margin (entryPrice amount : Decimal) (env : OpenEnv)
    (direction : Direction) (allocation : string) :
  futureTotalCost entryPrice amount "futures" env
  = entryPrice * amount / leverage
    + entryPrice * amount * takerFee (getFuturesTradingFee (feeAnswer env))
  /\ tradeLeverage
       (newFutureTrade entryPrice amount direction "futures" allocation env)
     = 5.
Proof. split; reflexivity. Qed.

(** With either of the two types the prompt can produce, and which the
    schema of the trade collection admits, it is not. *)
Lemma prompted_types_skip_margin (mode : TradeModeChoice)
    (entryPrice amount : Decimal) (env : OpenEnv) (direction : Direction)
    (allocation : string) :
  futureTotalCost entryPrice amount (choiceName mode) env
  = entryPrice * amount + entryPrice * amount * spotFeeRate env
  /\ tradeLeverage
       (newFutureTrade entryPrice amount direction (choiceName mode)
          allocation env)
     = 1.
Proof. destruct mode; split; reflexivity. Qed.

(** C3 at the failing input.  The favorable futures leg of 1 AVAX at 100 in
    real mode, as [checkPrices] requests it: the call debits the full
    notional plus the fee, 100.1, where margin plus fee would be 20.1, and
    the position is stored with leverage 1 where the configured leverage
    is 5. *)
Theorem futures_open_debits_notional :
  let r :=
    placeFutureTrade 100 1 long "real" "favorable" acceptingGateway
      freshSession in
  exists t,
    heap (state_of r) = [t]
    /\ ordersIn (events_of r) = [Order FuturesApi BUY "AVAXUSDT" 1]
    /\ realBalance freshSession - realBalance (state_of r) == 100.1
    /\ 100 * 1 / leverage + entryFee t == 20.1
    /\ tradeLeverage t = 1
    /\ ~ tradeLeverage t == leverage.
Proof.
  cbv zeta. eexists. split; [vm_compute; reflexivity|].
  repeat split; try (vm_compute; reflexivity).
  vm_compute. discriminate.
Qed.

(** ** Spot settlement *)

(** A position whose type is one of the two modes never reaches the branch
    that restores the wallet. *)
Lemma settled_mode_keeps_wallet (t : Trade) (netPnl : Decimal) (s : State) :
  type t = "real" \/ type t = "fake" ->
  walletBalance (settled t netPnl s) = walletBalance s
  /\ spotPnL (settled t netPnl s) = spotPnL s.
Proof.
  unfold settled. intros [->| ->]; split; reflexivity.
Qed.

(** The branch that restores the wallet always credits the simulated
    ledger: its test for real mode is made where the type is known not to
    be real. *)
Lemma settled_other_type (t : Trade) (netPnl : Decimal) (s : State) :
  type t <> "fake" -> type t <> "real" ->
  walletBalance (settled t netPnl s) = walletBalance s + amount t
  /\ fakeBalance (settled t netPnl s)
     = fakeBalance s + entryPrice t * amount t
  /\ realBalance (settled t netPnl s) = realBalance s
  /\ spotPnL (settled t netPnl s) = spotPnL s + netPnl.
Proof.
  intros Hf Hr. apply streq_false in Hf, Hr. unfold settled.
  rewrite Hf, Hr. repeat split; reflexivity.
Qed.

Lemma debit_walletBalance type totalCost s :
  walletBalance (debit type totalCost s) = walletBalance s.
Proof. unfold debit. destruct (streq type "real"); reflexivity. Qed.

Lemma placeFutureTrade_summary_walletBalance entryPrice amount direction type
    allocation env s :
  walletBalance
    (fst (placeFutureTrade_summary entryPrice amount direction type
            allocation env s))
  = walletBalance s.
Proof.
  unfold placeFutureTrade_summary.
  destruct (greaterThan _ _); [reflexivity|].
  destruct (orderAccepted env); cbn; apply debit_walletBalance.
Qed.

(** X15.  Under the schema of the trade collection the wallet-restoring
    branch is unreachable: a row whose type is neither 'real' nor 'fake' is
    rejected by [Trade.create], and the ledger update behind it is skipped.
    So no settlement, of whatever position, ever changes the wallet
    ledger. *)
Lemma settlement_never_restores_wallet (trade : loc) (currentPrice : Decimal)
    (env : CloseEnv) (s : State) :
  walletBalance (state_of (handleTradeClosure trade currentPrice env s))
  = walletBalance s.
Proof.
  destruct (heap s !! trade) as [t|] eqn:H.
  - rewrite (handleTradeClosure_eq _ _ _ _ _ H).
    unfold state_of. cbn [fst snd].
    assert (walletBalance (fst (reallocated trade t currentPrice env s))
            = walletBalance s) as Hr.
    { unfold reallocated. destruct (shouldReallocate _ _); [|reflexivity].
      cbn. apply placeFutureTrade_summary_walletBalance. }
    unfold handleTradeClosure_summary.
    destruct (tradeSchema _) eqn:Hschema; cbn [andb]; [|exact Hr].
    destruct (recordStored env); [|exact Hr].
    cbn [fst snd]. unfold removeById. cbn [walletBalance rebind_activeTrades].
    unfold tradeSchema in Hschema. cbn [r_type rowOf] in Hschema.
    apply andb_prop in Hschema as [Hschema _].
    apply andb_prop in Hschema as [_ Htype].
    apply orb_prop in Htype as [Htype|Htype]; apply streq_true in Htype;
      rewrite (proj1 (settled_mode_keeps_wallet t _ _ ltac:(tauto)));
      exact Hr.
  - unfold handleTradeClosure, try_catch, bind, deref, state_of.
    rewrite H. reflexivity.
Qed.

(** C4 at the failing input.  A real-mode spot position of 1 AVAX bought at
    100 without fees and settled at 100: the open took 100 from the real
    ledger and 1 from the wallet; the settlement returns 1 to the real
    ledger, leaves the wallet at 999 and the spot PnL untouched, and the
    notional 100 is credited nowhere. *)
Theorem spot_settlement_skips_wallet :
  let closed :=
    state_of (handleTradeClosure 0 100 storingClosure spotSession) in
  realBalance spotSession == 900
  /\ walletBalance spotSession == 999
  /\ activeTrades closed = []
  /\ walletBalance closed == 999
  /\ realBalance closed == 901
  /\ fakeBalance closed == fakeBalance spotSession
  /\ ~ walletBalance closed == walletBalance spotSession + 1
  /\ ~ realBalance closed == realBalance spotSession + 100 * 1.
Proof.
  cbv zeta. repeat split; try (vm_compute; reflexivity);
    vm_compute; discriminate.
Qed.

(** ** The engine never opens a leveraged position *)

Lemma unleveraged_set_peak profit price t :
  unleveraged t -> unleveraged (set_peak profit price t).
Proof. intros H. exact H. Qed.

Lemma unleveraged_set_isReallocated v t :
  unleveraged t -> unleveraged (set_isReallocated v t).
Proof. intros H. exact H. Qed.

Lemma unleveraged_newFutureTrade entryPrice amount direction type allocation
    env :
  type = "real" \/ type = "fake" ->
  unleveraged
    (newFutureTrade entryPrice amount direction type allocation env).
Proof. intros [->| ->]; split; cbn; auto. Qed.

Lemma unleveraged_newSpotTrade entryPrice amount type direction env :
  type = "real" \/ type = "fake" ->
  unleveraged (newSpotTrade entryPrice amount type direction env).
Proof. intros H. split; [exact H|reflexivity]. Qed.

Lemma placeFutureTrade_summary_unleveraged entryPrice amount direction type
    allocation env s :
  type = "real" \/ type = "fake" ->
  Forall unleveraged (heap s) ->
  Forall unleveraged
    (heap (fst (placeFutureTrade_summary entryPrice amount direction type
                  allocation env s))).
Proof.
  intros Ht H. rewrite placeFutureTrade_summary_heap.
  apply Forall_app. split; [exact H|].
  destruct (greaterThan _ _); [constructor|].
  destruct (orderAccepted env); [|constructor].
  constructor; [|constructor]. now apply unleveraged_newFutureTrade.
Qed.

Lemma placeSpotTrade_summary_unleveraged entryPrice amount type direction
    env s :
  type = "real" \/ type = "fake" ->
  Forall unleveraged (heap s) ->
  Forall unleveraged
    (heap (fst (placeSpotTrade_summary entryPrice amount type direction env
                  s))).
Proof.
  intros Ht H. rewrite placeSpotTrade_summary_heap.
  apply Forall_app. split; [exact H|].
  destruct (greaterThan _ _); [constructor|].
  destruct (orderAccepted env); [|constructor].
  constructor; [|constructor]. now apply unleveraged_newSpotTrade.
Qed.

Lemma handleTradeClosure_summary_unleveraged trade t currentPrice env s :
  heap s !! trade = Some t ->
  Forall unleveraged (heap s) ->
  Forall unleveraged
    (heap (fst (handleTradeClosure_summary trade t currentPrice env s))).
Proof.
  intros H Hall. rewrite handleTradeClosure_summary_heap.
  unfold reallocated. destruct (shouldReallocate _ _); [|exact Hall].
  cbn [fst snd heap set_heap].
  apply Forall_alter.
  - apply placeFutureTrade_summary_unleveraged; [|exact Hall].
    rewrite Forall_lookup in Hall. exact (proj1 (Hall trade t H)).
  - intros x _ Hx. exact Hx.
Qed.

Lemma monitorActiveTrades_body_unleveraged trade env :
  keeps_unleveraged (monitorActiveTrades_body trade env).
Proof.
  intros s Hall.
  destruct (priceAnswer env) as [currentPrice|] eqn:Hp.
  - destruct (heap s !! trade) as [t|] eqn:H.
    + rewrite (monitorActiveTrades_body_eq _ _ _ _ _ Hp H). unfold state_of.
      cbn [fst snd].
      pose proof (recordPeak_lookup trade t currentPrice s H) as Hl.
      assert (Forall unleveraged (heap (recordPeak trade t currentPrice s)))
        as Hall1.
      { unfold recordPeak. destruct (greaterThan _ _); [|exact Hall].
        cbn [heap set_heap]. apply Forall_alter; [exact Hall|].
        intros x _ Hx. exact Hx. }
      unfold monitorActiveTrades_body_summary.
      destruct (takeProfitHit _ _); [|destruct (stopLossHit _ _)];
        cbn [fst snd]; try exact Hall1;
        now apply handleTradeClosure_summary_unleveraged.
    + now rewrite (monitorActiveTrades_body_dangling _ _ _ H).
  - now rewrite (monitorActiveTrades_body_no_price _ _ _ Hp).
Qed.

Lemma keeps_unleveraged_same_heap {A} (m : Eff A) :
  (forall s, heap (state_of (m s)) = heap s) -> keeps_unleveraged m.
Proof. intros H s Hall. now rewrite H. Qed.

Lemma keeps_unleveraged_bind {A B} (m : Eff A) (k : A -> Eff B) :
  keeps_unleveraged m -> (forall a, keeps_unleveraged (k a)) ->
  keeps_unleveraged (bind m k).
Proof.
  intros Hm Hk s Hall. specialize (Hm s Hall). unfold bind, state_of in *.
  destruct (m s) as [[[a|] s1] ev1]; simpl in *; [|exact Hm].
  specialize (Hk a s1 Hm). unfold state_of in Hk.
  destruct (k a s1) as [[r s2] ev2]; simpl in *. exact Hk.
Qed.

Lemma keeps_unleveraged_try_catch {A} (m h : Eff A) :
  keeps_unleveraged m -> keeps_unleveraged h ->
  keeps_unleveraged (try_catch m h).
Proof.
  intros Hm Hh s Hall. specialize (Hm s Hall).
  unfold try_catch, state_of in *.
  destruct (m s) as [[[a|] s1] ev1]; simpl in *; [exact Hm|].
  specialize (Hh s1 Hm). unfold state_of in Hh.
  destruct (h s1) as [[r s2] ev2]; simpl in *. exact Hh.
Qed.

Lemma getAvaxBalance_heap answer s :
  heap (state_of (getAvaxBalance answer s)) = heap s.
Proof.
  destruct answer; [|reflexivity].
  unfold getAvaxBalance, bind, get, modify, when, state_of. cbn.
  destruct (fakeBalanceInitialized s); reflexivity.
Qed.

Lemma sessionDampening_heap probability base now s :
  heap (state_of (sessionDampening probability base now s)) = heap s.
Proof.
  unfold sessionDampening, bind, get, modify, state_of.
  destruct (greaterThanOrEqualTo _ _); cbn [fst snd];
    destruct (greaterThan _ _); reflexivity.
Qed.

Lemma checkPrices_unleveraged env : keeps_unleveraged (checkPrices env).
Proof.
  unfold checkPrices.
  assert (forall m, choiceName m = "real" \/ choiceName m = "fake") as Hmode
    by (intros []; auto).
  apply keeps_unleveraged_try_catch;
    [|now apply keeps_unleveraged_same_heap].
  apply keeps_unleveraged_bind;
    [apply keeps_unleveraged_same_heap, getAvaxBalance_heap|intros _].
  destruct (snapshot env) as [ind|]; [|now apply keeps_unleveraged_same_heap].
  destruct (indicatorsThrow env); [now apply keeps_unleveraged_same_heap|].
  apply keeps_unleveraged_bind;
    [apply keeps_unleveraged_same_heap, sessionDampening_heap|intros p].
  apply keeps_unleveraged_bind;
    [now apply keeps_unleveraged_same_heap|intros _].
  destruct (_ && _); [|now apply keeps_unleveraged_same_heap].
  destruct (takeTrade env) as [answers|];
    [|now apply keeps_unleveraged_same_heap].
  apply keeps_unleveraged_bind;
    [|intros _; now apply keeps_unleveraged_same_heap].
  destruct (chosenType answers).
  - apply keeps_unleveraged_bind; [|intros _]; intros s Hall;
      rewrite placeFutureTrade_eq; unfold state_of; cbn [fst snd];
      now apply placeFutureTrade_summary_unleveraged.
  - intros s Hall. rewrite placeSpotTrade_eq. unfold state_of. cbn [fst snd].
    now apply placeSpotTrade_summary_unleveraged.
Qed.

Lemma forOf_activeTrades_unleveraged fuel array elements index envs :
  keeps_unleveraged (forOf_activeTrades fuel array elements index envs).
Proof.
  revert elements index.
  induction fuel as [|fuel IH]; intros elements index; cbn [forOf_activeTrades];
    (destruct (elements !! index) as [trade|];
     [|now apply keeps_unleveraged_same_heap]).
  - now apply keeps_unleveraged_same_heap.
  - apply keeps_unleveraged_bind;
      [now apply keeps_unleveraged_same_heap|intros s0].
    apply keeps_unleveraged_bind;
      [apply monitorActiveTrades_body_unleveraged|intros _].
    apply keeps_unleveraged_bind;
      [now apply keeps_unleveraged_same_heap|intros s1].
    apply IH.
Qed.

Lemma monitorActiveTrades_unleveraged envs :
  keeps_unleveraged (monitorActiveTrades envs).
Proof.
  unfold monitorActiveTrades.
  apply keeps_unleveraged_bind;
    [now apply keeps_unleveraged_same_heap|intros s0].
  apply keeps_unleveraged_bind;
    [apply forOf_activeTrades_unleveraged
    |intros _; now apply keeps_unleveraged_same_heap].
Qed.

(** X16.  Whatever the timer and the candle feed make the script do,
    starting without positions, no position ever carries the configured
    leverage: the margin path of [placeFutureTrade] is never taken. *)
Lemma engine_never_leverages (ops : list Op) (s : State) :
  Forall driven ops ->
  heap s = [] ->
  forall t, t ∈ heap (run ops s) ->
    tradeLeverage t = 1 /\ (type t = "real" \/ type t = "fake").
Proof.
  intros Hops Hempty.
  assert (Forall unleveraged (heap (run ops s))) as Hall.
  { assert (Forall unleveraged (heap s)) as H0 by (rewrite Hempty; constructor).
    clear Hempty. revert s H0.
    induction Hops as [|op ops Hop _ IH]; intros s H0; [exact H0|].
    cbn [run]. apply IH. unfold step.
    destruct op; try contradiction; cbn [perform].
    - now apply checkPrices_unleveraged.
    - now apply monitorActiveTrades_body_unleveraged.
    - now apply monitorActiveTrades_unleveraged. }
  intros t Ht. rewrite Forall_forall in Hall.
  destruct (Hall t Ht) as [Htype Hlev]. tauto.
Qed.


(** ** Scenarios of the specification *)

Example scenario_spot_levels :
  stopLoss scenarioTrade == 98.5
  /\ takeProfit scenarioTrade == 106
  /\ entryFee scenarioTrade == 1
  /\ takeProfitHit scenarioTrade 106 = true
  /\ netPnlOf scenarioTrade 106 (Some (mkFeeRates 0.001 0.001)) == 57.94.
Proof. repeat split; vm_compute; reflexivity. Qed.

Example scenario_single_win :
  calculateBaseProbability 100 0.1 (Some [win]) == 100.
Proof. vm_compute. reflexivity. Qed.

Example scenario_accumulator_reset :
  cumulativeProbabilityChange
    (state_of (sessionDampening 60 75 901000 swungSession)) == 0
  /\ sessionStart (state_of (sessionDampening 60 75 901000 swungSession))
     = 901000%Z.
Proof. split; vm_compute; reflexivity. Qed.

(** ** A pass of the monitor exhausts the array *)

Lemma shouldReallocate_canReallocate h trade t netPnl :
  h !! trade = Some t ->
  shouldReallocate t netPnl = true ->
  canReallocate h trade = 1%nat.
Proof.
  intros H Hs. unfold canReallocate. rewrite H.
  unfold shouldReallocate in Hs.
  apply andb_prop in Hs as [Hs Hr]. apply andb_prop in Hs as [_ Ha].
  now rewrite Ha, Hr.
Qed.

Lemma shouldReallocate_ratchet t peakAt netPnl :
  shouldReallocate (ratchet t peakAt) netPnl = shouldReallocate t netPnl.
Proof. unfold ratchet. destruct (greaterThan _ _); reflexivity. Qed.

Lemma recordPeak_length trade t currentPrice s :
  length (heap (recordPeak trade t currentPrice s)) = length (heap s).
Proof.
  unfold recordPeak. destruct (greaterThan _ _); [|reflexivity].
  cbn. apply length_alter.
Qed.

(** What one tick allocates: nothing, or one favorable position, and then
    only on a position that could still be reallocated. *)
Lemma monitorActiveTrades_body_opened trade env s :
  let s' := state_of (monitorActiveTrades_body trade env s) in
  openedBetween s s' = []
  \/ exists n,
       openedBetween s s' = [n]
       /\ allocation n = "favorable"
       /\ canReallocate (heap s) trade = 1%nat.
Proof.
  cbv zeta. unfold openedBetween.
  destruct (priceAnswer env) as [currentPrice|] eqn:Hp.
  2:{ rewrite (monitorActiveTrades_body_no_price _ _ _ Hp).
      left. apply drop_all. }
  destruct (heap s !! trade) as [t|] eqn:H.
  2:{ rewrite (monitorActiveTrades_body_dangling _ _ _ H).
      left. apply drop_all. }
  rewrite (monitorActiveTrades_body_eq _ _ _ _ _ Hp H).
  unfold state_of. cbn [fst snd].
  pose proof (recordPeak_lookup trade t currentPrice s H) as Hl.
  pose proof (recordPeak_length trade t currentPrice s) as Hlen.
  assert (trade < length (heap (recordPeak trade t currentPrice s)))%nat
    as Hlt by (eapply lookup_lt_Some; exact Hl).
  assert (Hclosure :
    let r :=
      handleTradeClosure_summary trade (ratchet t currentPrice) currentPrice
        (closure env) (recordPeak trade t currentPrice s) in
    drop (length (heap s)) (heap (fst r)) = []
    \/ exists n,
         drop (length (heap s)) (heap (fst r)) = [n]
         /\ allocation n = "favorable"
         /\ canReallocate (heap s) trade = 1%nat).
  { cbv zeta. rewrite handleTradeClosure_summary_heap. unfold reallocated.
    destruct (shouldReallocate _ _) eqn:Hs.
    - cbn [fst heap set_heap]. rewrite placeFutureTrade_summary_heap.
      rewrite <- Hlen. rewrite drop_length_alter_app by exact Hlt.
      destruct (greaterThan _ _); [now left|].
      destruct (orderAccepted _); [|now left].
      right. eexists. split; [reflexivity|]. split; [reflexivity|].
      rewrite shouldReallocate_ratchet in Hs.
      eapply shouldReallocate_canReallocate; eassumption.
    - cbn [fst]. left. rewrite <- Hlen. apply drop_all. }
  unfold monitorActiveTrades_body_summary.
  destruct (takeProfitHit _ _); [|destruct (stopLossHit _ _)]; cbn [fst snd];
    try exact Hclosure.
  left. rewrite <- Hlen. apply drop_all.
Qed.

Lemma heap_evolves_length s s' :
  heap_evolves s s' -> (length (heap s) <= length (heap s'))%nat.
Proof.
  intros H. destruct (heap s) as [|x h] eqn:E using rev_ind; [simpl; lia|].
  clear IHh.
  destruct (H (length h) x) as (t' & Ht' & _).
  - rewrite E. apply list_lookup_middle. reflexivity.
  - apply lookup_lt_Some in Ht'. rewrite length_app. simpl. lia.
Qed.

Lemma canReallocate_evolves (h h' : list Trade) (l : loc) (t t' : Trade) :
  h !! l = Some t -> h' !! l = Some t' -> evolves t t' ->
  (canReallocate h' l <= canReallocate h l)%nat.
Proof.
  intros H H' E. unfold canReallocate. rewrite H, H'.
  rewrite (ev_allocation _ _ E).
  destruct (streq (allocation t) "unfavorable"); [|simpl; lia].
  destruct (isReallocated t) eqn:Hr.
  - rewrite (ev_isReallocated _ _ E Hr). simpl. lia.
  - destruct (isReallocated t'); simpl; lia.
Qed.

Lemma monitorActiveTrades_body_canReallocate trade env s (l : loc) :
  (canReallocate (heap (state_of (monitorActiveTrades_body trade env s))) l
   <= canReallocate (heap s) l)%nat.
Proof.
  destruct (heap s !! l) as [t|] eqn:H.
  - destruct (keeps_heap_monitorActiveTrades_body trade env s l t H)
      as (t' & H' & E).
    eapply canReallocate_evolves; eassumption.
  - unfold canReallocate at 2. rewrite H.
    apply lookup_ge_None in H.
    pose proof (monitorActiveTrades_body_opened trade env s) as Ho.
    cbv zeta in Ho. unfold openedBetween in Ho.
    unfold canReallocate.
    replace l with (length (heap s) + (l - length (heap s)))%nat by lia.
    rewrite <- lookup_drop.
    destruct Ho as [->|(n & -> & Hn & _)].
    + rewrite lookup_nil. lia.
    + destruct (l - length (heap s))%nat; simpl.
      * rewrite Hn. simpl. lia.
      * lia.
Qed.

Lemma monitorActiveTrades_body_normal trade env s :
  completion_of (monitorActiveTrades_body trade env s) = Normal tt.
Proof.
  destruct (priceAnswer env) as [currentPrice|] eqn:Hp.
  - destruct (heap s !! trade) as [t|] eqn:H.
    + now rewrite (monitorActiveTrades_body_eq _ _ _ _ _ Hp H).
    + now rewrite (monitorActiveTrades_body_dangling _ _ _ H).
  - now rewrite (monitorActiveTrades_body_no_price _ _ _ Hp).
Qed.

Lemma forOf_activeTrades_step fuel array elements index envs s trade :
  elements !! index = Some trade ->
  let b := monitorActiveTrades_body trade (envs index) s in
  let r :=
    forOf_activeTrades fuel array
      (elementsAfter array elements s (state_of b)) (S index) envs
      (state_of b) in
  forOf_activeTrades (S fuel) array elements index envs s
  = (completion_of r, state_of r, events_of b ++ events_of r).
Proof.
  intros H. cbv zeta. cbn [forOf_activeTrades]. rewrite H.
  unfold bind at 1. unfold get at 1.
  unfold bind at 1.
  pose proof (monitorActiveTrades_body_normal trade (envs index) s) as Hn.
  unfold completion_of, state_of, events_of, elementsAfter in *.
  destruct (monitorActiveTrades_body trade (envs index) s) as [[c s1] ev1].
  cbn [fst snd] in *. subst c.
  unfold bind at 1. unfold get at 1.
  destruct (forOf_activeTrades fuel array _ (S index) envs s1)
    as [[c2 s2] ev2].
  reflexivity.
Qed.

Lemma stepsLeft_cons h elements index (trade : loc) :
  elements !! index = Some trade ->
  stepsLeft h elements index
  = (S (canReallocate h trade) + stepsLeft h elements (S index))%nat.
Proof.
  intros H. unfold stepsLeft. rewrite (drop_S _ _ _ H). reflexivity.
Qed.

Lemma stepsLeft_decreases array elements index env s (trade : loc) :
  elements !! index = Some trade ->
  let s' := state_of (monitorActiveTrades_body trade env s) in
  (stepsLeft (heap s') (elementsAfter array elements s s') (S index)
   < stepsLeft (heap s) elements index)%nat.
Proof.
  intros H s'. rewrite (stepsLeft_cons _ _ _ _ H).
  assert (Hrest :
    (stepsLeft (heap s') elements (S index)
     <= stepsLeft (heap s) elements (S index))%nat).
  { unfold stepsLeft. generalize (drop (S index) elements). intros k.
    induction k as [|l k IH]; simpl; [lia|].
    pose proof (monitorActiveTrades_body_canReallocate trade env s l) as Hl.
    fold s' in Hl. lia. }
  unfold elementsAfter.
  destruct (activeTradesArray s =? array)%nat; [|lia].
  unfold stepsLeft at 1.
  rewrite drop_app_le by (apply lookup_lt_Some in H; lia).
  rewrite sum_list_with_app. fold (stepsLeft (heap s') elements (S index)).
  pose proof (monitorActiveTrades_body_opened trade env s) as Ho.
  cbv zeta in Ho. fold s' in Ho. unfold openedBetween in Ho.
  assert (length (heap s') - length (heap s)
          = length (drop (length (heap s)) (heap s')))%nat as ->
    by (rewrite length_drop; reflexivity).
  destruct Ho as [->|(n & Hn & Hfav & Hcan)].
  - simpl. lia.
  - rewrite Hn, Hcan. simpl.
    assert (canReallocate (heap s') (length (heap s)) = 0%nat) as ->.
    { unfold canReallocate.
      replace (length (heap s)) with (length (heap s) + 0)%nat by lia.
      rewrite <- lookup_drop, Hn. simpl. now rewrite Hfav. }
    lia.
Qed.

(** Enough fuel: the pass ends because the iterator is exhausted. *)
Lemma forOf_activeTrades_exhausts fuel array elements index envs s :
  (stepsLeft (heap s) elements index <= fuel)%nat ->
  completion_of (forOf_activeTrades fuel array elements index envs s)
  = Normal true.
Proof.
  revert elements index s.
  induction fuel as [|fuel IH]; intros elements index s Hfuel.
  - destruct (elements !! index) as [trade|] eqn:H.
    + rewrite (stepsLeft_cons _ _ _ _ H) in Hfuel. lia.
    + cbn [forOf_activeTrades]. now rewrite H.
  - destruct (elements !! index) as [trade|] eqn:H.
    + rewrite (forOf_activeTrades_step _ _ _ _ _ _ _ H).
      cbv zeta. unfold completion_of at 1. cbn [fst].
      apply IH.
      pose proof (stepsLeft_decreases array elements index (envs index) s
                    trade H) as Hd.
      cbv zeta in Hd. lia.
    + cbn [forOf_activeTrades]. now rewrite H.
Qed.

(** More fuel than enough changes nothing. *)
Lemma forOf_activeTrades_fuel fuel fuel' array elements index envs s :
  (stepsLeft (heap s) elements index <= fuel)%nat ->
  (fuel <= fuel')%nat ->
  forOf_activeTrades fuel' array elements index envs s
  = forOf_activeTrades fuel array elements index envs s.
Proof.
  revert fuel' elements index s.
  induction fuel as [|fuel IH]; intros fuel' elements index s Hfuel Hle.
  - destruct (elements !! index) as [trade|] eqn:H.
    + rewrite (stepsLeft_cons _ _ _ _ H) in Hfuel. lia.
    + destruct fuel'; cbn [forOf_activeTrades]; now rewrite H.
  - destruct (elements !! index) as [trade|] eqn:H.
    + destruct fuel' as [|fuel']; [lia|].
      rewrite !(forOf_activeTrades_step _ _ _ _ _ _ _ H). cbv zeta.
      rewrite (IH fuel'); [reflexivity| |lia].
      pose proof (stepsLeft_decreases array elements index (envs index) s
                    trade H) as Hd.
      cbv zeta in Hd. lia.
    + destruct fuel'; cbn [forOf_activeTrades]; now rewrite H.
Qed.

Lemma stepsLeft_bound h elements index :
  (stepsLeft h elements index <= 2 * length elements)%nat.
Proof.
  unfold stepsLeft.
  assert (forall k : list loc,
            (sum_list_with (fun l => S (canReallocate h l)) k
             <= 2 * length k)%nat) as Hk.
  { induction k as [|l k IH]; simpl; [lia|].
    assert (canReallocate h l <= 1)%nat.
    { unfold canReallocate. destruct (h !! l); [|lia].
      destruct (_ && _); lia. }
    lia. }
  specialize (Hk (drop index elements)). rewrite length_drop in Hk. lia.
Qed.

(** X18.  A monitor pass terminates.  The fuel [monitorActiveTrades] gives
    its loop is enough, in every state and whatever the outside answers: the
    pass ends with the iterator exhausted, and it would do the same with any
    larger fuel. *)
Theorem monitorActiveTrades_exhausts_the_array envs s :
  completion_of
    (forOf_activeTrades (2 * length (activeTrades s)) (activeTradesArray s)
       (activeTrades s) 0 envs s)
  = Normal true
  /\ forall fuel,
       (2 * length (activeTrades s) <= fuel)%nat ->
       forOf_activeTrades fuel (activeTradesArray s) (activeTrades s) 0 envs s
       = forOf_activeTrades (2 * length (activeTrades s))
           (activeTradesArray s) (activeTrades s) 0 envs s.
Proof.
  pose proof (stepsLeft_bound (heap s) (activeTrades s) 0) as Hb.
  split.
  - now apply forOf_activeTrades_exhausts.
  - intros fuel Hle. now apply forOf_activeTrades_fuel.
Qed.

(** A pass over a lone unfavorable short at a price above its stop: the
    settlement pushes the reallocated long onto the array being walked, and
    the same pass goes on to visit it (two status lines for an array that
    held one position); the variable ends on the filtered copy, which holds
    the new position only. *)
Example pass_visits_the_position_it_pushed :
  let r :=
    monitorActiveTrades (fun _ => tickAt 102 storingClosure)
      loneShortSession in
  activeTrades loneShortSession = [0%nat]
  /\ activeTrades (state_of r) = [1%nat]
  /\ length (List.filter isCurrentPrice (events_of r)) = 2%nat.
Proof. cbv zeta. repeat split; vm_compute; reflexivity. Qed.

(** ** What is fixed when a position opens *)

(** X1.  Whatever the script does after a position exists -- signal checks,
    opens, single ticks, whole monitor passes and the settlements they
    trigger, in any order and with any answers from outside -- the position
    object stays at its location and keeps the id, entry price, amount,
    stop-loss, take-profit, type, direction, leverage, entry fee and
    allocation it was opened with; its isReallocated flag, once set, is
    never cleared. *)
Theorem levels_are_fixed_at_open (ops : list Op) (s : State) (l : loc)
    (t : Trade) :
  heap s !! l = Some t ->
  exists t',
    heap (run ops s) !! l = Some t'
    /\ id t' = id t
    /\ entryPrice t' = entryPrice t
    /\ amount t' = amount t
    /\ stopLoss t' = stopLoss t
    /\ takeProfit t' = takeProfit t
    /\ type t' = type t
    /\ direction t' = direction t
    /\ tradeLeverage t' = tradeLeverage t
    /\ entryFee t' = entryFee t
    /\ allocation t' = allocation t
    /\ (isReallocated t = true -> isReallocated t' = true).
Proof.
  intros H. destruct (run_heap_evolves ops s l t H) as (t' & Hl & He).
  exists t'. destruct He. repeat split; assumption.
Qed.

Lemma levels_are_fixed_at_open_witness :
  heap openedSession !! 0%nat
  = Some (newFutureTrade 100 1 long "fake" "favorable" freeGateway)
  /\ exists t',
       heap (run [MonitorTrade 0 (tickAt 120 failingClosure);
                  MonitorPass (fun _ => tickAt 90 failingClosure)]
               openedSession) !! 0%nat = Some t'
       /\ stopLoss t' = 100 * (1 - stopLossPercentage / 100)
       /\ takeProfit t' = 100 * (1 + takeProfitPercentage / 100).
Proof.
  split; [reflexivity|].
  destruct (levels_are_fixed_at_open
              [MonitorTrade 0 (tickAt 120 failingClosure);
               MonitorPass (fun _ => tickAt 90 failingClosure)]
              openedSession 0
              (newFutureTrade 100 1 long "fake" "favorable" freeGateway)
              eq_refl)
    as (t' & Hl & _ & _ & _ & Hsl & Htp & _).
  exists t'. repeat split; assumption.
Defined.

(** ** The active set stays well formed *)

Lemma keeps_bind (P : State -> Prop) {A B} (m : Eff A) (k : A -> Eff B) :
  keeps P m -> (forall a, keeps P (k a)) -> keeps P (bind m k).
Proof.
  intros Hm Hk s Hs. specialize (Hm s Hs). unfold bind, state_of in *.
  destruct (m s) as [[[a|] s1] ev1]; simpl in *; [|exact Hm].
  specialize (Hk a s1 Hm). unfold state_of in Hk.
  destruct (k a s1) as [[r s2] ev2]; simpl in *. exact Hk.
Qed.

Lemma keeps_try_catch (P : State -> Prop) {A} (m h : Eff A) :
  keeps P m -> keeps P h -> keeps P (try_catch m h).
Proof.
  intros Hm Hh s Hs. specialize (Hm s Hs). unfold try_catch, state_of in *.
  destruct (m s) as [[[a|] s1] ev1]; simpl in *; [exact Hm|].
  specialize (Hh s1 Hm). unfold state_of in Hh.
  destruct (h s1) as [[r s2] ev2]; simpl in *. exact Hh.
Qed.

Lemma keeps_unchanged (P : State -> Prop) {A} (m : Eff A) :
  (forall s, state_of (m s) = s) -> keeps P m.
Proof. intros H s Hs. now rewrite H. Qed.

Lemma wellFormed_same s s' :
  activeTrades s' = activeTrades s ->
  length (heap s') = length (heap s) ->
  wellFormed s -> wellFormed s'.
Proof. unfold wellFormed. intros -> ->. auto. Qed.

Lemma wellFormed_pushed t s : wellFormed s -> wellFormed (pushed t s).
Proof.
  intros [Hnd Hb]. unfold wellFormed, pushed.
  cbn [activeTrades heap set_activeTrades set_heap]. split.
  - apply NoDup_app. split; [exact Hnd|]. split; [|apply NoDup_singleton].
    intros l Hl Hin. apply list_elem_of_singleton in Hin. subst l.
    rewrite Forall_forall in Hb. specialize (Hb _ Hl). lia.
  - rewrite length_app. apply Forall_app. split.
    + eapply Forall_impl; [exact Hb|]. intros l Hl. simpl in Hl. lia.
    + constructor; [simpl; lia|constructor].
Qed.

Lemma wellFormed_debit type totalCost s :
  wellFormed s -> wellFormed (debit type totalCost s).
Proof.
  apply wellFormed_same; [apply debit_activeTrades|].
  now rewrite debit_heap.
Qed.

Lemma placeFutureTrade_summary_wellFormed entryPrice amount direction type
    allocation env s :
  wellFormed s ->
  wellFormed
    (fst (placeFutureTrade_summary entryPrice amount direction type
            allocation env s)).
Proof.
  intros H. unfold placeFutureTrade_summary.
  destruct (greaterThan _ _); [exact H|].
  destruct (orderAccepted env); cbn [fst].
  - now apply wellFormed_pushed, wellFormed_debit.
  - now apply wellFormed_debit.
Qed.

Lemma placeSpotTrade_summary_wellFormed entryPrice amount type direction env
    s :
  wellFormed s ->
  wellFormed
    (fst (placeSpotTrade_summary entryPrice amount type direction env s)).
Proof.
  intros H. unfold placeSpotTrade_summary.
  destruct (greaterThan _ _); [exact H|].
  assert (wellFormed
            (set_walletBalance (walletBalance s - amount)
               (debit type (spotTotalCost entryPrice amount env) s))) as H1.
  { eapply wellFormed_same; [| |apply wellFormed_debit, H]; reflexivity. }
  destruct (orderAccepted env); cbn [fst]; [|exact H1].
  now apply wellFormed_pushed.
Qed.

Lemma wellFormed_removeById tradeId s :
  wellFormed s -> wellFormed (removeById tradeId s).
Proof.
  intros [Hnd Hb]. unfold wellFormed, removeById.
  cbn [activeTrades heap rebind_activeTrades]. split.
  - apply NoDup_ListNoDup, List.NoDup_filter, NoDup_ListNoDup, Hnd.
  - rewrite Forall_forall in *. intros l Hl.
    apply list_elem_of_In, filter_In in Hl as [Hl _].
    apply Hb. now apply list_elem_of_In.
Qed.

Lemma handleTradeClosure_summary_wellFormed trade t currentPrice env s :
  wellFormed s ->
  wellFormed (fst (handleTradeClosure_summary trade t currentPrice env s)).
Proof.
  intros H.
  assert (wellFormed (fst (reallocated trade t currentPrice env s))) as Hr.
  { unfold reallocated. destruct (shouldReallocate _ _); [|exact H].
    cbn [fst]. eapply wellFormed_same;
      [| |apply placeFutureTrade_summary_wellFormed, H].
    - reflexivity.
    - cbn [heap set_heap]. apply length_alter. }
  unfold handleTradeClosure_summary.
  destruct (_ && recordStored env); cbn [fst]; [|exact Hr].
  apply wellFormed_removeById.
  eapply wellFormed_same; [apply settled_activeTrades| |exact Hr].
  now rewrite settled_heap.
Qed.

Lemma monitorActiveTrades_body_wellFormed trade env :
  keeps wellFormed (monitorActiveTrades_body trade env).
Proof.
  intros s Hs.
  destruct (priceAnswer env) as [currentPrice|] eqn:Hp.
  - destruct (heap s !! trade) as [t|] eqn:H.
    + rewrite (monitorActiveTrades_body_eq _ _ _ _ _ Hp H). unfold state_of.
      cbn [fst snd].
      assert (wellFormed (recordPeak trade t currentPrice s)) as H1.
      { unfold recordPeak. destruct (greaterThan _ _); [|exact Hs].
        eapply wellFormed_same; [| |exact Hs]; [reflexivity|].
        cbn [heap set_heap]. apply length_alter. }
      unfold monitorActiveTrades_body_summary.
      destruct (takeProfitHit _ _); [|destruct (stopLossHit _ _)];
        cbn [fst snd]; try exact H1;
        now apply handleTradeClosure_summary_wellFormed.
    + now rewrite (monitorActiveTrades_body_dangling _ _ _ H).
  - now rewrite (monitorActiveTrades_body_no_price _ _ _ Hp).
Qed.

Lemma placeFutureTrade_wellFormed entryPrice amount direction type allocation
    env :
  keeps wellFormed
    (placeFutureTrade entryPrice amount direction type allocation env).
Proof.
  intros s Hs. rewrite placeFutureTrade_eq. unfold state_of. cbn [fst snd].
  now apply placeFutureTrade_summary_wellFormed.
Qed.

Lemma placeSpotTrade_wellFormed entryPrice amount type direction env :
  keeps wellFormed (placeSpotTrade entryPrice amount type direction env).
Proof.
  intros s Hs. rewrite placeSpotTrade_eq. unfold state_of. cbn [fst snd].
  now apply placeSpotTrade_summary_wellFormed.
Qed.

Lemma getAvaxBalance_wellFormed answer :
  keeps wellFormed (getAvaxBalance answer).
Proof.
  intros s Hs. destruct answer; [|exact Hs].
  unfold getAvaxBalance, bind, get, modify, when, state_of. cbn.
  destruct (fakeBalanceInitialized s); exact Hs.
Qed.

Lemma sessionDampening_wellFormed probability base now :
  keeps wellFormed (sessionDampening probability base now).
Proof.
  intros s Hs. unfold sessionDampening, bind, get, modify, state_of.
  destruct (greaterThanOrEqualTo _ _); cbn [fst snd];
    destruct (greaterThan _ _); exact Hs.
Qed.

Lemma checkPrices_wellFormed env : keeps wellFormed (checkPrices env).
Proof.
  unfold checkPrices.
  apply keeps_try_catch; [|now apply keeps_unchanged].
  apply keeps_bind; [apply getAvaxBalance_wellFormed|intros _].
  destruct (snapshot env) as [ind|]; [|now apply keeps_unchanged].
  destruct (indicatorsThrow env); [now apply keeps_unchanged|].
  apply keeps_bind; [apply sessionDampening_wellFormed|intros p].
  apply keeps_bind; [now apply keeps_unchanged|intros _].
  destruct (_ && _); [|now apply keeps_unchanged].
  destruct (takeTrade env) as [answers|]; [|now apply keeps_unchanged].
  apply keeps_bind; [|intros _ s Hs; exact Hs].
  destruct (chosenType answers).
  - apply keeps_bind; [|intros _]; apply placeFutureTrade_wellFormed.
  - apply placeSpotTrade_wellFormed.
Qed.

Lemma forOf_activeTrades_wellFormed fuel array elements index envs :
  keeps wellFormed (forOf_activeTrades fuel array elements index envs).
Proof.
  revert elements index.
  induction fuel as [|fuel IH]; intros elements index; cbn [forOf_activeTrades];
    (destruct (elements !! index) as [trade|]; [|now apply keeps_unchanged]).
  - now apply keeps_unchanged.
  - apply keeps_bind; [now apply keeps_unchanged|intros s0].
    apply keeps_bind; [apply monitorActiveTrades_body_wellFormed|intros _].
    apply keeps_bind; [now apply keeps_unchanged|intros s1].
    apply IH.
Qed.

Lemma monitorActiveTrades_wellFormed envs :
  keeps wellFormed (monitorActiveTrades envs).
Proof.
  unfold monitorActiveTrades.
  apply keeps_bind; [now apply keeps_unchanged|intros s0].
  apply keeps_bind;
    [apply forOf_activeTrades_wellFormed|intros _; now apply keeps_unchanged].
Qed.

Lemma step_wellFormed op s : wellFormed s -> wellFormed (step op s).
Proof.
  unfold step. destruct op; cbn [perform].
  - apply checkPrices_wellFormed.
  - apply placeSpotTrade_wellFormed.
  - apply placeFutureTrade_wellFormed.
  - apply monitorActiveTrades_body_wellFormed.
  - apply monitorActiveTrades_wellFormed.
Qed.

(** X2.  From a state in which every reference of the active set points to
    an allocated position and no reference occurs twice -- the empty set of
    a starting script is one -- every sequence of signal checks, opens,
    ticks and monitor passes leads to such a state again: the array never
    holds a dangling reference and never holds the same position twice. *)
Theorem active_set_stays_well_formed (ops : list Op) (s : State) :
  NoDup (activeTrades s) ->
  Forall (fun l => (l < length (heap s))%nat) (activeTrades s) ->
  NoDup (activeTrades (run ops s))
  /\ forall l, l ∈ activeTrades (run ops s) ->
       exists t, heap (run ops s) !! l = Some t.
Proof.
  intros Hnd Hb. assert (wellFormed (run ops s)) as [Hnd' Hb'].
  { assert (wellFormed s) as H by (split; assumption). clear Hnd Hb.
    revert s H. induction ops as [|op ops IH]; intros s H; [exact H|].
    cbn [run]. apply IH, step_wellFormed, H. }
  split; [exact Hnd'|]. intros l Hl. rewrite Forall_forall in Hb'.
  apply lookup_lt_is_Some_2, Hb', Hl.
Qed.

Lemma active_set_stays_well_formed_witness :
  let ops := [MonitorPass (fun _ => tickAt 102 storingClosure)] in
  NoDup (activeTrades (run ops loneShortSession))
  /\ forall l, l ∈ activeTrades (run ops loneShortSession) ->
       exists t, heap (run ops loneShortSession) !! l = Some t.
Proof.
  apply (active_set_stays_well_formed
           [MonitorPass (fun _ => tickAt 102 storingClosure)]
           loneShortSession).
  - apply NoDup_singleton.
  - repeat constructor.
Defined.

(** ** Settlement and the database write *)

Lemma rowOf_schema t netPnl exitTime reallocatedNow :
  tradeSchema (rowOf t netPnl exitTime reallocatedNow)
  = negb (streq (id t) "")
    && (streq (type t) "real" || streq (type t) "fake")
    && (streq (allocation t) "favorable"
        || streq (allocation t) "unfavorable").
Proof. reflexivity. Qed.

(** X3.  A settlement whose row is not stored -- the database refuses it,
    or the schema rejects it because the type of the position is neither
    'real' nor 'fake' -- changes nothing when no reallocation is due: no
    ledger is credited and the position stays in the active set with its
    fields as they were.  What leaves the process is the "closed" log line,
    the row, handed to [Trade.create] at each of the four attempts of the
    retry loop, and the error line. *)
Theorem unstored_settlement_changes_nothing (trade : loc) (t : Trade)
    (currentPrice : Decimal) (env : CloseEnv) (s : State) :
  heap s !! trade = Some t ->
  allocation t <> "unfavorable" \/ isReallocated t = true
  \/ 0 <= netPnlOf t currentPrice (exitFeeAnswer env) ->
  recordStored env = false \/ (type t <> "real" /\ type t <> "fake") ->
  let netPnl := netPnlOf t currentPrice (exitFeeAnswer env) in
  let row := TradeCreate (rowOf t netPnl (closeNow env) false) in
  handleTradeClosure trade currentPrice env s
  = (Normal tt, s,
     [Log (TradeClosed (id t) netPnl); row; row; row; row;
      Log ErrorClosure]).
Proof.
  intros H Hno Hfail netPnl row. subst netPnl row.
  rewrite (handleTradeClosure_eq _ _ _ _ _ H).
  unfold handleTradeClosure_summary, reallocated.
  rewrite (shouldReallocate_false _ _ Hno). cbn [fst snd app].
  assert (tradeSchema
            (rowOf t (netPnlOf t currentPrice (exitFeeAnswer env))
               (closeNow env) false) && recordStored env = false) as ->.
  { destruct Hfail as [->|[Hr Hf]]; [apply andb_false_r|].
    rewrite rowOf_schema. apply streq_false in Hr, Hf. rewrite Hr, Hf.
    now rewrite andb_false_r. }
  reflexivity.
Qed.

Lemma unstored_settlement_changes_nothing_witness :
  let row :=
    TradeCreate
      (rowOf (newFutureTrade 100 1 long "fake" "favorable" freeGateway)
         (netPnlOf (newFutureTrade 100 1 long "fake" "favorable"
                      freeGateway) 120 zeroFees)
         1700000060000 false) in
  handleTradeClosure 0 120 failingClosure openedSession
  = (Normal tt, openedSession,
     [Log (TradeClosed "trade_1700000000000_7"
             (netPnlOf (newFutureTrade 100 1 long "fake" "favorable"
                          freeGateway) 120 zeroFees));
      row; row; row; row; Log ErrorClosure]).
Proof.
  apply (unstored_settlement_changes_nothing 0
           (newFutureTrade 100 1 long "fake" "favorable" freeGateway) 120
           failingClosure openedSession).
  - reflexivity.
  - left. discriminate.
  - left. reflexivity.
Defined.

Lemma reallocated_activeTrades trade t currentPrice env s (l : loc) :
  l ∈ activeTrades s ->
  l ∈ activeTrades (fst (reallocated trade t currentPrice env s)).
Proof.
  intros H. unfold reallocated. destruct (shouldReallocate _ _); [|exact H].
  cbn [fst activeTrades set_heap]. unfold placeFutureTrade_summary.
  destruct (greaterThan _ _); [exact H|].
  destruct (orderAccepted _); cbn [fst]; unfold pushed;
    cbn [activeTrades set_activeTrades set_heap];
    rewrite ?debit_activeTrades; [|exact H].
  apply elem_of_app. now left.
Qed.

(** X4.  A settlement whose row is stored removes from the active set every
    reference to a position that carries the id of the closed one -- the
    closed position itself, and any other position that happens to share
    its id -- and keeps every reference to a position with another id. *)
Theorem stored_settlement_removes_by_id (trade : loc) (t : Trade)
    (currentPrice : Decimal) (env : CloseEnv) (s : State) :
  heap s !! trade = Some t ->
  id t <> "" ->
  type t = "real" \/ type t = "fake" ->
  allocation t = "favorable" \/ allocation t = "unfavorable" ->
  recordStored env = true ->
  let s' := state_of (handleTradeClosure trade currentPrice env s) in
  (trade ∉ activeTrades s')
  /\ (forall l x,
        heap s' !! l = Some x -> id x = id t -> l ∉ activeTrades s')
  /\ (forall l x,
        heap s !! l = Some x -> id x <> id t -> l ∈ activeTrades s ->
        l ∈ activeTrades s').
Proof.
  intros H Hid Htype Halloc Hstored s'. subst s'.
  rewrite (handleTradeClosure_eq _ _ _ _ _ H). unfold state_of. cbn [fst snd].
  assert (Hgone : forall l x,
    heap (fst (handleTradeClosure_summary trade t currentPrice env s)) !! l
    = Some x ->
    id x = id t ->
    l ∉ activeTrades
          (fst (handleTradeClosure_summary trade t currentPrice env s))).
  { intros l x Hx Hsame. revert Hx. unfold handleTradeClosure_summary.
    rewrite rowOf_schema, Hstored.
    apply streq_false in Hid. rewrite Hid.
    assert (streq (type t) "real" || streq (type t) "fake" = true) as ->.
    { destruct Htype as [->| ->]; reflexivity. }
    assert (streq (allocation t) "favorable"
            || streq (allocation t) "unfavorable" = true) as ->.
    { destruct Halloc as [->| ->]; reflexivity. }
    cbn [negb andb fst]. unfold removeById.
    cbn [heap activeTrades rebind_activeTrades].
    rewrite settled_heap, settled_activeTrades. intros Hx Hin.
    apply list_elem_of_In, filter_In in Hin as [_ Hin].
    rewrite Hx in Hin. rewrite <- Hsame, streq_refl in Hin. discriminate. }
  split; [|split].
  - destruct (handleTradeClosure_summary_heap_evolves trade t currentPrice
                env s trade t H) as (t' & Hl & He).
    apply (Hgone trade t' Hl). apply He.
  - exact Hgone.
  - intros l x Hx Hother Hin.
    destruct (reallocated_heap_evolves trade t currentPrice env s l x Hx)
      as (x' & Hl & He).
    apply (handleTradeClosure_summary_keeps_active _ _ _ _ _ l x' Hl).
    + destruct He as [He _]. now rewrite He.
    + now apply reallocated_activeTrades.
Qed.

Lemma stored_settlement_removes_by_id_witness :
  let s' := state_of (handleTradeClosure 1 102 storingClosure hedgedSession) in
  (1%nat ∉ activeTrades s')
  /\ (forall l x,
        heap s' !! l = Some x -> id x = id shortLeg -> l ∉ activeTrades s')
  /\ (forall l x,
        heap hedgedSession !! l = Some x -> id x <> id shortLeg ->
        l ∈ activeTrades hedgedSession -> l ∈ activeTrades s').
Proof.
  apply (stored_settlement_removes_by_id 1 shortLeg 102 storingClosure
           hedgedSession).
  - reflexivity.
  - discriminate.
  - right. reflexivity.
  - right. reflexivity.
  - reflexivity.
Defined.

(** ** Ticks without a price, ticks at the entry price *)

Lemma forOf_activeTrades_no_price fuel array elements index envs s :
  (forall i, priceAnswer (envs i) = None) ->
  (length elements - index <= fuel)%nat ->
  forOf_activeTrades fuel array elements index envs s
  = (Normal true, s, repeat (Log ErrorMonitoring) (length elements - index)).
Proof.
  intros Hp. revert index.
  induction fuel as [|fuel IH]; intros index Hfuel.
  - destruct (elements !! index) as [trade|] eqn:H.
    + apply lookup_lt_Some in H. lia.
    + cbn [forOf_activeTrades]. rewrite H.
      apply lookup_ge_None in H.
      replace (length elements - index)%nat with 0%nat by lia. reflexivity.
  - destruct (elements !! index) as [trade|] eqn:H.
    + rewrite (forOf_activeTrades_step _ _ _ _ _ _ _ H). cbv zeta.
      rewrite (monitorActiveTrades_body_no_price _ _ _ (Hp index)).
      unfold state_of, events_of, completion_of, elementsAfter. cbn [fst snd].
      rewrite Nat.sub_diag. cbn [seq]. rewrite app_nil_r.
      destruct (activeTradesArray s =? array)%nat;
        (rewrite IH by lia; cbn [fst snd];
         apply lookup_lt_Some in H;
         replace (length elements - index)%nat
           with (S (length elements - S index)) by lia;
         reflexivity).
    + cbn [forOf_activeTrades]. rewrite H.
      apply lookup_ge_None in H.
      replace (length elements - index)%nat with 0%nat by lia. reflexivity.
Qed.

(** X5.  While the price request fails, a monitor pass changes nothing: it
    ends normally, the state is the one it started from, and it logs one
    monitoring error for each position of the active set -- the failure of
    one position does not end the pass. *)
Theorem pass_without_prices_changes_nothing (envs : nat -> MonitorEnv)
    (s : State) :
  (forall i, priceAnswer (envs i) = None) ->
  monitorActiveTrades envs s
  = (Normal tt, s,
     repeat (Log ErrorMonitoring) (length (activeTrades s))).
Proof.
  intros Hp. unfold monitorActiveTrades.
  unfold bind at 1. unfold get at 1. unfold bind at 1.
  rewrite (forOf_activeTrades_no_price _ _ _ _ _ _ Hp) by lia.
  unfold ret. rewrite Nat.sub_0_r, app_nil_r. reflexivity.
Qed.

Lemma pass_without_prices_changes_nothing_witness :
  monitorActiveTrades (fun _ => mkMonitorEnv None storingClosure)
    hedgedSession
  = (Normal tt, hedgedSession, [Log ErrorMonitoring; Log ErrorMonitoring]).
Proof.
  apply (pass_without_prices_changes_nothing
           (fun _ => mkMonitorEnv None storingClosure) hedgedSession).
  intros i. reflexivity.
Defined.

Lemma placeFutureTrade_opened entryPrice amount direction type allocation env
    s :
  futureTotalCost entryPrice amount type env <= selectedBalance type s ->
  orderAccepted env = true ->
  state_of
    (placeFutureTrade entryPrice amount direction type allocation env s)
  = pushed (newFutureTrade entryPrice amount direction type allocation env)
      (debit type (futureTotalCost entryPrice amount type env) s).
Proof.
  intros Hc Ho. apply greaterThan_false in Hc.
  rewrite placeFutureTrade_eq. unfold state_of, placeFutureTrade_summary.
  cbn [fst snd]. now rewrite Hc, Ho.
Qed.

Lemma placeSpotTrade_opened entryPrice amount type direction env s :
  spotTotalCost entryPrice amount env <= selectedBalance type s ->
  orderAccepted env = true ->
  state_of (placeSpotTrade entryPrice amount type direction env s)
  = pushed (newSpotTrade entryPrice amount type direction env)
      (set_walletBalance (walletBalance s - amount)
         (debit type (spotTotalCost entryPrice amount env) s)).
Proof.
  intros Hc Ho. apply greaterThan_false in Hc.
  rewrite placeSpotTrade_eq. unfold state_of, placeSpotTrade_summary.
  cbn [fst snd]. now rewrite Hc, Ho.
Qed.

Lemma pushed_lookup t s : heap (pushed t s) !! length (heap s) = Some t.
Proof.
  unfold pushed. cbn [heap set_heap set_activeTrades].
  apply list_lookup_middle. reflexivity.
Qed.

Lemma no_new_peak_at_entry t :
  peakProfit t == 0 ->
  greaterThan (currentProfitOf t (entryPrice t)) (peakProfit t) = false.
Proof.
  intros Hpeak. apply greaterThan_false. rewrite Hpeak.
  assert (currentProfitOf t (entryPrice t) == 0) as ->
    by (unfold currentProfitOf; destruct (direction t); ring).
  apply Qle_refl.
Qed.

Lemma ratchet_at_entry t :
  peakProfit t == 0 -> ratchet t (entryPrice t) = t.
Proof.
  intros Hpeak. unfold ratchet. now rewrite no_new_peak_at_entry.
Qed.

Lemma recordPeak_at_entry trade t s :
  peakProfit t == 0 -> recordPeak trade t (entryPrice t) s = s.
Proof.
  intros Hpeak. unfold recordPeak. now rewrite no_new_peak_at_entry.
Qed.

Ltac constant_divisions :=
  unfold Qdiv in *;
  repeat match goal with
         | |- context [/ ?b] =>
             let v := eval vm_compute in (/ b) in
             progress change (/ b) with v
         end.

Lemma lessThanOrEqualTo_false x y : lessThanOrEqualTo x y = false <-> y < x.
Proof.
  unfold lessThanOrEqualTo. rewrite Qgt_alt.
  destruct (x ?= y); split; intros H; congruence.
Qed.

Lemma newFutureTrade_quiet_at_entry entryPrice amount direction type
    allocation env :
  0 < entryPrice ->
  let t := newFutureTrade entryPrice amount direction type allocation env in
  takeProfitHit t entryPrice = false /\ stopLossHit t entryPrice = false.
Proof.
  intros Hpos t. subst t.
  unfold takeProfitHit, stopLossHit, maxDrawdownPriceOf, newFutureTrade.
  cbn.
  unfold stopLossPercentage, takeProfitPercentage, maxSpotDrawdownPercentage.
  destruct direction; split; rewrite ?orb_false_iff; repeat split;
    first [apply greaterThanOrEqualTo_false|apply lessThanOrEqualTo_false];
    constant_divisions; lra.
Qed.

(** X6.  A position that [placeFutureTrade] has just opened at a positive
    entry price, long or short, is not closed by a tick at that same price:
    neither the take-profit test nor the stop-loss and drawdown tests fire,
    no peak is recorded, the state stays as the open left it and the tick
    only reports the price. *)
Theorem fresh_future_position_survives_entry_price
    (entryPrice amount : Decimal) (direction : Direction)
    (type allocation : string) (env : OpenEnv) (menv : MonitorEnv)
    (s : State) :
  0 < entryPrice ->
  futureTotalCost entryPrice amount type env <= selectedBalance type s ->
  orderAccepted env = true ->
  priceAnswer menv = Some entryPrice ->
  let opened :=
    state_of
      (placeFutureTrade entryPrice amount direction type allocation env s) in
  length (heap s) ∈ activeTrades opened
  /\ monitorActiveTrades_body (length (heap s)) menv opened
     = (Normal tt, opened, [Log (CurrentPrice entryPrice)]).
Proof.
  intros Hpos Hc Ho Hp opened. subst opened.
  rewrite (placeFutureTrade_opened _ _ _ _ _ _ _ Hc Ho).
  set (t := newFutureTrade entryPrice amount direction type allocation env).
  split.
  { unfold pushed. cbn [activeTrades set_activeTrades set_heap].
    rewrite debit_heap.
    apply elem_of_app. right. apply list_elem_of_singleton. reflexivity. }
  pose proof (pushed_lookup t
                (debit type (futureTotalCost entryPrice amount type env) s))
    as Hl.
  rewrite debit_heap in Hl.
  rewrite (monitorActiveTrades_body_eq _ t entryPrice _ _ Hp Hl).
  unfold monitorActiveTrades_body_summary.
  pose proof (ratchet_at_entry t (Qeq_refl 0)) as Hr.
  pose proof (recordPeak_at_entry (length (heap s)) t
                (pushed t (debit type
                             (futureTotalCost entryPrice amount type env) s))
                (Qeq_refl 0)) as Hq.
  cbn in Hr, Hq.
  rewrite Hr, Hq.
  destruct (newFutureTrade_quiet_at_entry entryPrice amount direction type
              allocation env Hpos) as [Htp Hsl].
  fold t in Htp, Hsl. rewrite Htp, Hsl. reflexivity.
Qed.

Lemma fresh_future_position_survives_entry_price_witness :
  let opened :=
    state_of
      (placeFutureTrade 100 3 short "fake" "unfavorable" freeGateway
         freshSession) in
  (0%nat ∈ activeTrades opened)
  /\ monitorActiveTrades_body 0 (tickAt 100 storingClosure) opened
     = (Normal tt, opened, [Log (CurrentPrice 100)]).
Proof.
  apply (fresh_future_position_survives_entry_price 100 3 short "fake"
           "unfavorable" freeGateway (tickAt 100 storingClosure)
           freshSession).
  - reflexivity.
  - vm_compute. discriminate.
  - reflexivity.
  - reflexivity.
Defined.

(** ** A settlement that is stored *)

Lemma rowOf_stored t netPnl exitTime reallocatedNow env :
  id t <> "" ->
  type t = "real" \/ type t = "fake" ->
  allocation t = "favorable" \/ allocation t = "unfavorable" ->
  recordStored env = true ->
  tradeSchema (rowOf t netPnl exitTime reallocatedNow) && recordStored env
  = true.
Proof.
  intros Hid Htype Halloc ->. rewrite rowOf_schema.
  apply streq_false in Hid. rewrite Hid.
  destruct Htype as [->| ->], Halloc as [->| ->]; reflexivity.
Qed.

Lemma settled_credit t netPnl s :
  type t = "real" \/ type t = "fake" ->
  selectedBalance (type t) (settled t netPnl s)
  = selectedBalance (type t) s + netPnl + amount t
  /\ (type t = "fake" -> fakePnL (settled t netPnl s) = fakePnL s + netPnl)
  /\ (type t = "real" -> realPnL (settled t netPnl s) = realPnL s + netPnl).
Proof.
  unfold settled, selectedBalance.
  intros [H|H]; rewrite H; cbn; repeat split; intros; try discriminate;
    reflexivity.
Qed.

Lemma reallocated_pnl trade t currentPrice env s :
  fakePnL (fst (reallocated trade t currentPrice env s)) = fakePnL s
  /\ realPnL (fst (reallocated trade t currentPrice env s)) = realPnL s.
Proof.
  unfold reallocated. destruct (shouldReallocate _ _); [|now split].
  cbn [fst fakePnL realPnL set_heap]. unfold placeFutureTrade_summary.
  destruct (greaterThan _ _); [now split|].
  destruct (orderAccepted _); cbn [fst]; unfold pushed, debit;
    destruct (streq (type t) "real"); split; reflexivity.
Qed.



(** What a stored settlement leaves behind, whatever the reallocation
    did. *)
Lemma handleTradeClosure_summary_stored trade t currentPrice env s :
  heap s !! trade = Some t ->
  id t <> "" ->
  type t = "real" \/ type t = "fake" ->
  allocation t = "favorable" \/ allocation t = "unfavorable" ->
  recordStored env = true ->
  let netPnl := netPnlOf t currentPrice (exitFeeAnswer env) in
  let r := handleTradeClosure_summary trade t currentPrice env s in
  (trade ∉ activeTrades (fst r))
  /\ Log (TradeRecorded (id t) (outcomeOf netPnl)) ∈ snd r
  /\ rowsIn (snd r)
     = [rowOf t netPnl (closeNow env) (shouldReallocate t netPnl)]
  /\ (type t = "fake" -> fakePnL (fst r) = fakePnL s + netPnl)
  /\ (type t = "real" -> realPnL (fst r) = realPnL s + netPnl)
  /\ (allocation t <> "unfavorable" \/ isReallocated t = true
      \/ 0 <= netPnl ->
      selectedBalance (type t) (fst r)
      = selectedBalance (type t) s + netPnl + amount t).
Proof.
  intros H Hid Htype Halloc Hstored netPnl r. subst netPnl r.
  pose proof (closure_events_rows trade t currentPrice env s) as Hrows.
  cbv zeta in Hrows.
  rewrite (rowOf_stored _ _ _ _ _ Hid Htype Halloc Hstored) in Hrows.
  split; [|split; [|split; [exact Hrows|]]].
  - unfold handleTradeClosure_summary.
    rewrite (rowOf_stored _ _ _ _ _ Hid Htype Halloc Hstored).
    cbn [fst]. unfold removeById. cbn [activeTrades rebind_activeTrades].
    rewrite settled_heap, settled_activeTrades. intros Hin.
    apply list_elem_of_In, filter_In in Hin as [_ Hin].
    rewrite (reallocated_lookup _ _ _ _ _ H) in Hin.
    destruct (shouldReallocate _ _); cbn in Hin;
      rewrite streq_refl in Hin; discriminate.
  - unfold handleTradeClosure_summary.
    rewrite (rowOf_stored _ _ _ _ _ Hid Htype Halloc Hstored).
    cbn [snd]. rewrite !elem_of_app, !elem_of_cons. right. right. now left.
  - unfold handleTradeClosure_summary.
    rewrite (rowOf_stored _ _ _ _ _ Hid Htype Halloc Hstored).
    cbn [fst]. unfold removeById.
    destruct (settled_credit t (netPnlOf t currentPrice (exitFeeAnswer env))
                (fst (reallocated trade t currentPrice env s)) Htype)
      as (Hbal & Hf & Hr).
    destruct (reallocated_pnl trade t currentPrice env s) as (Hf0 & Hr0).
    split; [|split].
    + intros Hfake. cbn [fakePnL rebind_activeTrades].
      now rewrite (Hf Hfake), Hf0.
    + intros Hreal. cbn [realPnL rebind_activeTrades].
      now rewrite (Hr Hreal), Hr0.
    + intros Hno.
      change (selectedBalance (type t) (rebind_activeTrades ?a ?x))
        with (selectedBalance (type t) x).
      rewrite Hbal. unfold reallocated.
      now rewrite (shouldReallocate_false _ _ Hno).
Qed.



(** X7.  [placeSpotTrade] gives a short position the levels of a long one,
    so its take-profit lies above its entry.  A tick at the entry price
    itself therefore already meets the short take-profit test: the monitor
    logs "Take profit reached" and hands the position to the settlement.
    For a position of one of the two modes with a non-empty id, whose row
    the database stores, that settles it: the position leaves the active
    set, the settlement is logged as recorded, and the one row written
    carries a net PnL of minus the entry fee and the exit fee, which is also
    what the PnL counter of the mode receives. *)
Theorem short_spot_position_takes_profit_at_entry
    (entryPrice amount : Decimal) (type : string) (env : OpenEnv)
    (menv : MonitorEnv) (s : State) :
  0 <= entryPrice ->
  spotTotalCost entryPrice amount env <= selectedBalance type s ->
  orderAccepted env = true ->
  priceAnswer menv = Some entryPrice ->
  type = "real" \/ type = "fake" ->
  generateTradeId env <> "" ->
  recordStored (closure menv) = true ->
  let opened :=
    state_of (placeSpotTrade entryPrice amount type short env s) in
  let t := newSpotTrade entryPrice amount type short env in
  let r := monitorActiveTrades_body (length (heap s)) menv opened in
  let netPnl := netPnlOf t entryPrice (exitFeeAnswer (closure menv)) in
  heap opened !! length (heap s) = Some t
  /\ length (heap s) ∈ activeTrades opened
  /\ head (events_of r) = Some (Log (TakeProfitReached (id t)))
  /\ (length (heap s) ∉ activeTrades (state_of r))
  /\ Log (TradeRecorded (id t) (outcomeOf netPnl)) ∈ events_of r
  /\ (exists row,
        rowsIn (events_of r) = [row]
        /\ r_id row = id t
        /\ r_netPnl row = netPnl)
  /\ netPnl
     == - (entryFee t
           + exitFeeOf t entryPrice (exitFeeAnswer (closure menv)))
  /\ (if streq type "fake"
      then fakePnL (state_of r) = fakePnL opened + netPnl
      else realPnL (state_of r) = realPnL opened + netPnl).
Proof.
  intros Hpos Hc Ho Hp Htype Hid Hstored opened t r netPnl.
  subst opened r netPnl.
  rewrite (placeSpotTrade_opened _ _ _ _ _ _ Hc Ho). fold t.
  set (s1 := set_walletBalance _ _).
  pose proof (pushed_lookup t s1) as Hl.
  assert (heap s1 = heap s) as Hh by (subst s1; cbn; apply debit_heap).
  rewrite Hh in Hl. split; [exact Hl|].
  split.
  { unfold pushed. cbn [activeTrades]. rewrite Hh.
    apply elem_of_app. right. apply elem_of_cons. now left. }
  rewrite (monitorActiveTrades_body_eq _ t entryPrice _ _ Hp Hl).
  unfold monitorActiveTrades_body_summary, events_of, state_of.
  cbn [fst snd].
  pose proof (ratchet_at_entry t (Qeq_refl 0)) as Hr.
  pose proof (recordPeak_at_entry (length (heap s)) t (pushed t s1)
                (Qeq_refl 0)) as Hq.
  cbn in Hr, Hq.
  rewrite Hr, Hq.
  assert (takeProfitHit t entryPrice = true) as ->.
  { unfold takeProfitHit, t, newSpotTrade, takeProfitPercentage.
    cbn.
    apply lessThanOrEqualTo_true. constant_divisions. lra. }
  cbn [fst snd]. split; [reflexivity|].
  destruct (handleTradeClosure_summary_stored (length (heap s)) t entryPrice
              (closure menv) (pushed t s1) Hl Hid Htype
              (or_introl eq_refl) Hstored)
    as (Hgone & Hrec & Hrows & Hf & Hre & _).
  split; [exact Hgone|].
  split; [apply elem_of_cons; now right|].
  split; [eexists; split; [exact Hrows|split; reflexivity]|].
  split.
  { unfold netPnlOf, grossPnlOf, t, newSpotTrade. cbn. ring. }
  destruct Htype as [-> | ->]; cbn [streq].
  - exact (Hre eq_refl).
  - exact (Hf eq_refl).
Qed.

Lemma short_spot_position_takes_profit_at_entry_witness :
  let opened :=
    state_of (placeSpotTrade 100 1 "fake" short freeGateway freshSession) in
  let t := newSpotTrade 100 1 "fake" short freeGateway in
  let r := monitorActiveTrades_body 0 (tickAt 100 storingClosure) opened in
  heap opened !! 0%nat = Some t
  /\ 0%nat ∈ activeTrades opened
  /\ head (events_of r) = Some (Log (TakeProfitReached (id t)))
  /\ (0%nat ∉ activeTrades (state_of r))
  /\ (exists row,
        rowsIn (events_of r) = [row]
        /\ r_id row = id t
        /\ r_netPnl row = netPnlOf t 100 zeroFees)
  /\ netPnlOf t 100 zeroFees == - (entryFee t + exitFeeOf t 100 zeroFees).
Proof.
  destruct
    (short_spot_position_takes_profit_at_entry 100 1 "fake" freeGateway
       (tickAt 100 storingClosure) freshSession)
    as (Hl & Hin & Hhead & Hgone & _ & Hrow & Hnet & _).
  - vm_compute. discriminate.
  - vm_compute. discriminate.
  - reflexivity.
  - reflexivity.
  - right. reflexivity.
  - discriminate.
  - reflexivity.
  - repeat split; assumption.
Defined.

(** ** When the signal check trades *)

Lemma getAvaxBalance_eq answer s :
  getAvaxBalance answer s
  = (Normal tt, state_of (getAvaxBalance answer s), []).
Proof.
  destruct answer; [|reflexivity].
  unfold getAvaxBalance, bind, get, modify, when, state_of. cbn.
  destruct (fakeBalanceInitialized s); reflexivity.
Qed.

Lemma getAvaxBalance_activeTrades answer s :
  activeTrades (state_of (getAvaxBalance answer s)) = activeTrades s.
Proof.
  destruct answer; [|reflexivity].
  unfold getAvaxBalance, bind, get, modify, when, state_of. cbn.
  destruct (fakeBalanceInitialized s); reflexivity.
Qed.

Lemma sessionDampening_eq probability base now s :
  exists p (dampened : bool),
    sessionDampening probability base now s
    = (Normal p, state_of (sessionDampening probability base now s),
       if dampened then [Log ProbabilityDampened] else []).
Proof.
  unfold sessionDampening, bind, get, modify, state_of.
  destruct (greaterThanOrEqualTo _ _); cbn [fst snd];
    destruct (greaterThan _ _); cbn [fst snd];
    first [now exists probability, false
          |now exists (probability - 5), true].
Qed.

Lemma sessionDampening_keeps probability base now s :
  let s' := state_of (sessionDampening probability base now s) in
  activeTrades s' = activeTrades s
  /\ realBalance s' = realBalance s
  /\ fakeBalance s' = fakeBalance s.
Proof.
  unfold sessionDampening, bind, get, modify, state_of.
  destruct (greaterThanOrEqualTo _ _); cbn [fst snd];
    destruct (greaterThan _ _); cbn [fst snd]; repeat split.
Qed.

(** X8.  A signal check opens nothing unless the adjusted probability lies
    in the band and the user accepts: when fewer than 26 candles are stored,
    or the user declines, or the adjusted probability lies below 70 or above
    80, [checkPrices] ends normally, sends no order, allocates no position
    and leaves the active set as it was. *)
Theorem no_trade_outside_the_band (env : CheckEnv) (s : State) :
  match snapshot env with
  | None => True
  | Some ind =>
      takeTrade env = None
      \/ exists p,
           adjustedProbability ind
             (calculateBaseProbability 100 0.1 (historyAnswer env))
             (checkNow env)
             (state_of (getAvaxBalance (balanceAnswer env) s))
           = Normal p
           /\ (p < 70 \/ 80 < p)
  end ->
  let checked := checkPrices env s in
  completion_of checked = Normal tt
  /\ heap (state_of checked) = heap s
  /\ activeTrades (state_of checked) = activeTrades s
  /\ ordersIn (events_of checked) = [].
Proof.
  intros Hgate checked. subst checked.
  cut (exists s' ev,
         checkPrices env s = (Normal tt, s', ev)
         /\ heap s' = heap s
         /\ activeTrades s' = activeTrades s
         /\ ordersIn ev = []).
  { intros (s' & ev & -> & H). exact (conj eq_refl H). }
  unfold checkPrices, try_catch. unfold bind at 1.
  rewrite getAvaxBalance_eq.
  pose proof (getAvaxBalance_heap (balanceAnswer env) s) as Hh.
  pose proof (getAvaxBalance_activeTrades (balanceAnswer env) s) as Ha.
  set (sB := state_of (getAvaxBalance (balanceAnswer env) s)) in *.
  destruct (snapshot env) as [ind|];
    [|unfold emit; cbn [fst snd]; eauto 10].
  destruct (indicatorsThrow env);
    [unfold throw, emit; cbn [fst snd]; eauto 10|].
  unfold bind at 1.
  unfold adjustedProbability in Hgate.
  set (base := calculateBaseProbability 100 0.1 (historyAnswer env)) in *.
  set (computed := calculateProbability _ _ _ _ _ _ _ _) in *.
  destruct (sessionDampening_eq computed base (checkNow env) sB)
    as (p0 & dampened & Heq).
  pose proof (sessionDampening_heap computed base (checkNow env) sB) as Hh2.
  destruct (sessionDampening_keeps computed base (checkNow env) sB)
    as (Ha2 & _).
  rewrite Heq in Hgate |- *.
  set (sG := state_of (sessionDampening computed base (checkNow env) sB)) in *.
  unfold bind at 1. unfold emit at 1.
  assert ((if greaterThanOrEqualTo p0 70 && lessThanOrEqualTo p0 80
           then match takeTrade env with
                | Some _ => false
                | None => true
                end
           else true) = true) as Hskip.
  { destruct Hgate as [->|(p & Hp & Hout)].
    - now destruct (_ && _).
    - unfold completion_of in Hp. cbn [fst] in Hp. injection Hp as ->.
      destruct Hout as [Hlow|Hhigh].
      + apply greaterThanOrEqualTo_false in Hlow. now rewrite Hlow.
      + assert (lessThanOrEqualTo p 80 = false) as ->.
        { unfold lessThanOrEqualTo. apply Qgt_alt in Hhigh. now rewrite Hhigh. }
        now rewrite andb_false_r. }
  destruct (greaterThanOrEqualTo p0 70 && lessThanOrEqualTo p0 80);
    [destruct (takeTrade env); [discriminate|]|];
    unfold emit; cbn [fst snd];
    (eexists; eexists; split; [reflexivity|]);
    (split; [congruence|]); (split; [congruence|]);
    destruct dampened; reflexivity.
Qed.

Lemma no_trade_outside_the_band_witness :
  let checked := checkPrices bearishCheck freshSession in
  completion_of checked = Normal tt
  /\ heap (state_of checked) = heap freshSession
  /\ activeTrades (state_of checked) = activeTrades freshSession
  /\ ordersIn (events_of checked) = [].
Proof.
  apply (no_trade_outside_the_band bearishCheck freshSession).
  right. eexists. split; [vm_compute; reflexivity|].
  left. vm_compute. reflexivity.
Defined.


(** ** The rounding layer *)

Lemma digitsFrom_spec fuel : forall n : Z,
  (0 < n)%Z -> (Z.log2 n <= Z.of_nat fuel)%Z ->
  (1 <= digitsFrom fuel n)%Z
  /\ (10 ^ (digitsFrom fuel n - 1) <= n < 10 ^ digitsFrom fuel n)%Z.
Proof.
  induction fuel as [|fuel IH]; intros n Hpos Hlog; cbn [digitsFrom].
  - assert (n < 2 ^ 1)%Z as Hn by (apply Z.log2_lt_pow2; lia).
    change (2 ^ 1)%Z with 2%Z in Hn.
    change (10 ^ (1 - 1))%Z with 1%Z. change (10 ^ 1)%Z with 10%Z. lia.
  - destruct (n <? 10)%Z eqn:Hsmall.
    + apply Z.ltb_lt in Hsmall.
      change (10 ^ (1 - 1))%Z with 1%Z. change (10 ^ 1)%Z with 10%Z. lia.
    + apply Z.ltb_ge in Hsmall.
      assert (n < 2 ^ (Z.of_nat (S fuel) + 1))%Z as Hn
        by (apply Z.log2_lt_pow2; lia).
      replace (Z.of_nat (S fuel) + 1)%Z with (Z.succ (Z.of_nat fuel + 1))
        in Hn by lia.
      rewrite Z.pow_succ_r in Hn by lia.
      pose proof (Z.div_mod n 10 ltac:(lia)) as Hdiv.
      pose proof (Z.mod_pos_bound n 10 ltac:(lia)) as Hmod.
      set (m := (n / 10)%Z) in *.
      assert (0 < m)%Z as Hm by lia.
      destruct (IH m Hm) as (Hd & Hlow & Hhigh).
      { assert (m < 2 ^ (Z.of_nat fuel + 1))%Z as Hlt by lia.
        apply Z.log2_lt_pow2 in Hlt; lia. }
      set (d := digitsFrom fuel m) in *.
      replace (1 + d - 1)%Z with (Z.succ (d - 1)) by lia.
      replace (1 + d)%Z with (Z.succ d) by lia.
      rewrite !Z.pow_succ_r by lia. lia.
Qed.

Lemma digitsOf_spec (n : Z) :
  (0 < n)%Z ->
  (1 <= digitsOf n)%Z /\ (10 ^ (digitsOf n - 1) <= n < 10 ^ digitsOf n)%Z.
Proof.
  intros Hpos. apply digitsFrom_spec; [exact Hpos|].
  pose proof (Z.log2_nonneg n). lia.
Qed.

Lemma power_of_ten_positive (z : Z) : 0 < 10 ^ z.
Proof. apply Qpower_0_lt. reflexivity. Qed.

Lemma power_of_ten_succ (z : Z) : 10 ^ (z + 1) == 10 ^ z * 10.
Proof. rewrite Qpower_plus by discriminate. reflexivity. Qed.

Lemma digits_bracket (n : Z) :
  (0 < n)%Z ->
  10 ^ (digitsOf n - 1) <= inject_Z n
  /\ inject_Z n < 10 ^ (digitsOf n - 1) * 10.
Proof.
  intros Hpos. destruct (digitsOf_spec n Hpos) as (Hd & Hlow & Hhigh).
  rewrite <- power_of_ten_succ.
  replace (digitsOf n - 1 + 1)%Z with (digitsOf n) by lia.
  change 10 with (inject_Z 10).
  rewrite <- !Zpower_Qpower by lia.
  rewrite <- Zle_Qle, <- Zlt_Qlt. lia.
Qed.

(** [exponentOf] brackets a positive number between two powers of ten. *)
Lemma exponentOf_spec (x : Q) :
  0 < x -> 10 ^ exponentOf x <= x /\ x < 10 ^ (exponentOf x + 1).
Proof.
  intros Hpos. unfold exponentOf.
  assert (0 < Qnum x)%Z as Hnum.
  { destruct x as [a b]. unfold Qlt in Hpos. simpl in *. lia. }
  destruct (digits_bracket (Qnum x) Hnum) as [Ha1 Ha2].
  destruct (digits_bracket (Zpos (Qden x)) eq_refl) as [Hb1 Hb2].
  set (da := digitsOf (Qnum x)) in *.
  set (db := digitsOf (Zpos (Qden x))) in *.
  assert (x * inject_Z (Zpos (Qden x)) == inject_Z (Qnum x)) as Hx.
  { destruct x as [a b]. unfold Qeq, Qmult, inject_Z. cbn.
    rewrite Pos.mul_1_r. lia. }
  set (a' := inject_Z (Qnum x)) in *.
  set (b' := inject_Z (Zpos (Qden x))) in *.
  pose proof (power_of_ten_positive (da - 1)) as Hqa.
  pose proof (power_of_ten_positive (db - 1)) as Hqb.
  pose proof (power_of_ten_positive (da - db)) as Hk.
  assert (10 ^ (da - db) * 10 ^ (db - 1) == 10 ^ (da - 1)) as Hsplit.
  { rewrite <- Qpower_plus by discriminate.
    now replace (da - db + (db - 1))%Z with (da - 1)%Z by lia. }
  set (qa := 10 ^ (da - 1)) in *. set (qb := 10 ^ (db - 1)) in *.
  destruct (Qle_bool (10 ^ (da - db)) x) eqn:Hcmp.
  - apply Qle_bool_iff in Hcmp. split; [exact Hcmp|].
    rewrite power_of_ten_succ.
    set (T := 10 ^ (da - db)) in *.
    apply Qnot_le_lt. intros Hge.
    assert (T * 10 * qb <= x * b') as H1.
    { apply Qle_trans with (x * qb).
      - apply Qmult_le_compat_r; [exact Hge|lra].
      - apply Qmult_le_l; lra. }
    nra.
  - assert (x < 10 ^ (da - db)) as Hlt.
    { apply Qnot_le_lt. intros Hle. apply Qle_bool_iff in Hle. congruence. }
    replace (da - db - 1 + 1)%Z with (da - db)%Z by lia.
    split; [|exact Hlt].
    pose proof (power_of_ten_succ (da - db - 1)) as Hs.
    replace (da - db - 1 + 1)%Z with (da - db)%Z in Hs by lia.
    pose proof (power_of_ten_positive (da - db - 1)) as Hk1.
    set (T := 10 ^ (da - db)) in *. set (U := 10 ^ (da - db - 1)) in *.
    apply Qnot_lt_le. intros Hbelow.
    assert (x * b' < U * (qb * 10)) as H1.
    { apply Qle_lt_trans with (U * b').
      - apply Qmult_le_compat_r; lra.
      - apply Qmult_lt_l; lra. }
    nra.
Qed.

(** What [toSignificantDigits] returns for a number other than zero: a
    coefficient of 20 digits (or [10 ^ 20], when the rounding carries) at
    the decimal exponent of the number, at most half a unit of the last
    digit away from it. *)
Lemma toSignificantDigits_spec (x : Decimal) :
  ~ x == 0 ->
  let e := exponentOf (Qabs x) in
  exists coefficient : Z,
    (10 ^ 19 <= coefficient <= 10 ^ 20)%Z
    /\ toSignificantDigits x
       == (if lessThan x 0 then -1 else 1)
          * (inject_Z coefficient * 10 ^ (e - 19))
    /\ Qabs (toSignificantDigits x - x) <= 0.5 * 10 ^ (e - 19)
    /\ 10 ^ e <= Qabs x < 10 ^ (e + 1).
Proof.
  intros Hx e.
  assert (0 < Qabs x) as Hpos.
  { apply Qabs_case; intros Hsign.
    - apply Qnot_le_lt. intros Hle. apply Hx. lra.
    - apply Qnot_le_lt. intros Hle. apply Hx. lra. }
  destruct (exponentOf_spec (Qabs x) Hpos) as [Hlow Hhigh].
  fold e in Hlow, Hhigh.
  unfold toSignificantDigits.
  assert (Qeq_bool x 0 = false) as ->.
  { destruct (Qeq_bool x 0) eqn:E; [|reflexivity].
    apply Qeq_bool_iff in E. contradiction. }
  fold e. unfold precision. change (20 - 1 - e)%Z with (19 - e)%Z.
  set (m := Qabs x) in *.
  pose proof (power_of_ten_positive (19 - e)) as Hs.
  pose proof (power_of_ten_positive (e - 19)) as Hu.
  pose proof (power_of_ten_positive e) as He.
  assert (10 ^ (19 - e) * 10 ^ (e - 19) == 1) as Hinv.
  { rewrite <- Qpower_plus by discriminate.
    now replace (19 - e + (e - 19))%Z with 0%Z by lia. }
  assert (10 ^ e * 10 ^ (19 - e) == inject_Z (10 ^ 19)) as H19.
  { rewrite <- Qpower_plus by discriminate.
    replace (e + (19 - e))%Z with 19%Z by lia. reflexivity. }
  assert (10 ^ (e + 1) * 10 ^ (19 - e) == inject_Z (10 ^ 20)) as H20.
  { rewrite <- Qpower_plus by discriminate.
    replace (e + 1 + (19 - e))%Z with 20%Z by lia. reflexivity. }
  set (s := 10 ^ (19 - e)) in *. set (u := 10 ^ (e - 19)) in *.
  set (lo := 10 ^ e) in *. set (hi := 10 ^ (e + 1)) in *.
  set (c := Qfloor (m * s + 0.5)).
  pose proof (Qfloor_le (m * s + 0.5)) as Hfl. fold c in Hfl.
  pose proof (Qlt_floor (m * s + 0.5)) as Hfu. fold c in Hfu.
  rewrite inject_Z_plus in Hfu. change (inject_Z 1) with 1 in Hfu.
  assert (inject_Z (10 ^ 19) <= m * s) as Hms1.
  { rewrite <- H19. apply Qmult_le_compat_r; lra. }
  assert (m * s < inject_Z (10 ^ 20)) as Hms2.
  { rewrite <- H20. apply Qmult_lt_compat_r; lra. }
  exists c. split; [|split; [|split; [|split; assumption]]].
  - set (t19 := inject_Z (10 ^ 19)) in *.
    set (t20 := inject_Z (10 ^ 20)) in *.
    split.
    + rewrite <- (Qfloor_Z (10 ^ 19)). fold t19.
      apply Qfloor_resp_le. lra.
    + apply Z.lt_succ_r. rewrite Zlt_Qlt.
      unfold Z.succ. rewrite inject_Z_plus. change (inject_Z 1) with 1.
      fold t20. lra.
  - rewrite Qred_correct.
    assert (/ s == u) as Hdiv.
    { apply Qmult_inj_l with s; [lra|]. rewrite Qmult_inv_r by lra. lra. }
    unfold Qdiv. rewrite Hdiv. reflexivity.
  - rewrite Qred_correct.
    assert (/ s == u) as Hdiv.
    { apply Qmult_inj_l with s; [lra|]. rewrite Qmult_inv_r by lra. lra. }
    unfold Qdiv. rewrite Hdiv.
    assert (Qabs (inject_Z c * u - m) <= 0.5 * u) as Hclose.
    { apply Qabs_Qle_condition.
      assert (inject_Z c * u - m == (inject_Z c - m * s) * u) as -> by nra.
      split.
      - assert (- (0.5 * u) == (- (0.5)) * u) as -> by ring.
        apply Qmult_le_compat_r; lra.
      - apply Qmult_le_compat_r; lra. }
    unfold lessThan. subst m.
    destruct (x ?= 0) eqn:Hc.
    + apply Qeq_alt in Hc. contradiction.
    + apply Qlt_alt in Hc.
      rewrite (Qabs_neg x) in Hclose by lra.
      assert (-1 * (inject_Z c * u) - x == - (inject_Z c * u - - x)) as ->
        by ring.
      rewrite Qabs_opp. exact Hclose.
    + apply Qgt_alt in Hc.
      rewrite (Qabs_pos x) in Hclose by lra.
      assert (1 * (inject_Z c * u) - x == inject_Z c * u - x) as -> by ring.
      exact Hclose.
Qed.



(** The two amounts of a hedge of 1 AVAX and of a hedge of 3 AVAX: the
    first pair adds up to the amount entered, the second does not. *)
Lemma hedge_amounts_of_one :
  times 1 (dividedBy 2 3) = 0.66666666666666666667
  /\ times 1 (dividedBy 1 3) = 0.33333333333333333333.
Proof. split; vm_compute; reflexivity. Qed.

Lemma hedge_amounts_of_three :
  times 3 (dividedBy 2 3) = 2
  /\ times 3 (dividedBy 1 3) = 0.99999999999999999999.
Proof. split; vm_compute; reflexivity. Qed.



(** ** Balance refresh *)

Lemma getAvaxBalance_state available s :
  state_of (getAvaxBalance (Some available) s)
  = if fakeBalanceInitialized s then set_realBalance available s
    else set_fakeBalanceInitialized true
           (set_walletBalance available
              (set_fakeBalance available (set_realBalance available s))).
Proof.
  unfold getAvaxBalance, bind, get, modify, when, state_of. cbn.
  destruct (fakeBalanceInitialized s); reflexivity.
Qed.

(** X10.  Over any series of balance requests, the real ledger ends at the
    last balance the exchange reported (or where it was, when every request
    failed), while the simulated ledger and the wallet are seeded once: with
    the first reported balance when the script has not seeded them yet, and
    never again afterwards.  A failed request changes nothing. *)
Theorem simulated_balance_is_seeded_once (answers : list (option Decimal))
    (s : State) :
  let s' := balanceFetches answers s in
  let successes := omap (fun answer : option Decimal => answer) answers in
  realBalance s' = default (realBalance s) (last successes)
  /\ fakeBalance s'
     = (if fakeBalanceInitialized s then fakeBalance s
        else default (fakeBalance s) (head successes))
  /\ walletBalance s'
     = (if fakeBalanceInitialized s then walletBalance s
        else default (walletBalance s) (head successes))
  /\ fakeBalanceInitialized s'
     = (fakeBalanceInitialized s || bool_decide (successes <> [])).
Proof.
  cbv zeta. revert s.
  induction answers as [|[available|] answers IH]; intros s.
  - cbn. destruct (fakeBalanceInitialized s); repeat split.
  - cbn [balanceFetches].
    destruct (IH (state_of (getAvaxBalance (Some available) s)))
      as (Hr & Hf & Hw & Hi).
    rewrite Hr, Hf, Hw, Hi, getAvaxBalance_state.
    change (omap ?f (Some available :: answers))
      with (available :: omap f answers).
    rewrite last_cons.
    destruct (fakeBalanceInitialized s) eqn:E; cbn; rewrite ?E;
      destruct (last (omap _ answers)); repeat split.
  - cbn [balanceFetches]. apply IH.
Qed.


(** ** The base probability *)

Lemma weight_positive alpha index :
  0 < alpha < 1 -> 0 < alpha * (1 - alpha) ^ Z.of_nat index.
Proof.
  intros [H0 H1]. apply Qmult_lt_0_compat; [exact H0|].
  apply Qpower_0_lt. lra.
Qed.

Lemma weightedSums_bounds alpha recentTrades index weightedSum weightTotal :
  0 < alpha < 1 ->
  0 <= weightedSum <= weightTotal ->
  let sums :=
    weightedSums alpha index recentTrades weightedSum weightTotal in
  0 <= fst sums <= snd sums
  /\ weightTotal <= snd sums
  /\ (recentTrades <> [] -> weightTotal < snd sums).
Proof.
  intros Ha. cbv zeta. revert index weightedSum weightTotal.
  induction recentTrades as [|outcome rest IH];
    intros index weightedSum weightTotal Hb.
  - cbn. repeat split; try lra. intros H. now destruct H.
  - cbn [weightedSums].
    pose proof (weight_positive alpha index Ha) as Hw.
    set (weight := alpha * (1 - alpha) ^ Z.of_nat index) in *.
    destruct outcome.
    + destruct (IH (S index) (weightedSum + weight) (weightTotal + weight))
        as (H1 & H2 & _); [lra|].
      repeat split; try apply H1; lra.
    + destruct (IH (S index) weightedSum (weightTotal + weight))
        as (H1 & H2 & _); [lra|].
      repeat split; try apply H1; lra.
Qed.

Lemma weightedSums_wins alpha recentTrades index weightedSum weightTotal :
  Forall (eq win) recentTrades ->
  let sums :=
    weightedSums alpha index recentTrades weightedSum weightTotal in
  fst sums - weightedSum == snd sums - weightTotal.
Proof.
  cbv zeta. intros Hall. revert index weightedSum weightTotal.
  induction Hall as [|outcome rest <- _ IH];
    intros index weightedSum weightTotal.
  - cbn. ring.
  - cbn [weightedSums].
    specialize (IH (S index)
                  (weightedSum + alpha * (1 - alpha) ^ Z.of_nat index)
                  (weightTotal + alpha * (1 - alpha) ^ Z.of_nat index)).
    lra.
Qed.

Lemma weightedSums_losses alpha recentTrades index weightedSum weightTotal :
  Forall (eq loss) recentTrades ->
  fst (weightedSums alpha index recentTrades weightedSum weightTotal)
  = weightedSum.
Proof.
  intros Hall. revert index weightTotal.
  induction Hall as [|outcome rest <- _ IH]; intros index weightTotal.
  - reflexivity.
  - cbn [weightedSums]. apply IH.
Qed.

(** X11.  For a smoothing factor strictly between 0 and 1, the base
    probability is a percentage, between 0 and 100.  It is the default 75
    when the query fails or returns no row; it is 100 when every row of the
    window is a win and 0 when every row is a loss, however many rows there
    are. *)
Theorem base_probability_is_a_percentage (windowSize : nat)
    (alpha : Decimal) (answer : option (list Outcome)) :
  0 < alpha < 1 ->
  let base := calculateBaseProbability windowSize alpha answer in
  0 <= base <= 100
  /\ (answer = None -> base = defaultBaseProbability)
  /\ forall rows,
       answer = Some rows ->
       (take windowSize rows = [] -> base = defaultBaseProbability)
       /\ (take windowSize rows <> [] ->
           Forall (eq win) (take windowSize rows) -> base == 100)
       /\ (take windowSize rows <> [] ->
           Forall (eq loss) (take windowSize rows) -> base == 0).
Proof.
  intros Ha base. subst base.
  assert (Hwindow : forall rows,
    take windowSize rows <> [] ->
    let sums := weightedSums alpha 0 (take windowSize rows) 0 0 in
    calculateBaseProbability windowSize alpha (Some rows)
    = fst sums / snd sums * 100
    /\ 0 <= fst sums <= snd sums /\ 0 < snd sums).
  { intros rows Hne sums.
    destruct (weightedSums_bounds alpha (take windowSize rows) 0 0 0 Ha)
      as (Hb & _ & Hpos); [lra|].
    fold sums in Hb, Hpos. specialize (Hpos Hne).
    split; [|split; assumption].
    unfold calculateBaseProbability.
    destruct (take windowSize rows) as [|r rest] eqn:E; [now destruct Hne|].
    cbn [length Nat.eqb]. fold sums. destruct sums as [ws wt].
    cbn [fst snd] in *.
    destruct (Qeq_bool wt 0) eqn:Hz; [|reflexivity].
    apply Qeq_bool_eq in Hz. lra. }
  split; [|split].
  - destruct answer as [rows|];
      [|unfold calculateBaseProbability, defaultBaseProbability; lra].
    destruct (take windowSize rows) as [|r rest] eqn:E.
    + unfold calculateBaseProbability, defaultBaseProbability. rewrite E.
      cbn. lra.
    + destruct (Hwindow rows) as (-> & [H0 H1] & Hpos); [now rewrite E|].
      rewrite E in *.
      set (sums := weightedSums alpha 0 (r :: rest) 0 0) in *.
      split.
      * apply Qmult_le_0_compat; [|lra].
        apply Qle_shift_div_l; [exact Hpos|lra].
      * assert (fst sums / snd sums <= 1)
          by (apply Qle_shift_div_r; [exact Hpos|lra]).
        lra.
  - intros ->. reflexivity.
  - intros rows ->. split; [|split].
    + intros E. unfold calculateBaseProbability. now rewrite E.
    + intros Hne Hall. destruct (Hwindow rows Hne) as (-> & _ & Hpos).
      pose proof (weightedSums_wins alpha (take windowSize rows) 0 0 0 Hall)
        as Hw.
      cbv zeta in Hw.
      set (sums := weightedSums alpha 0 (take windowSize rows) 0 0) in *.
      assert (fst sums == snd sums) as -> by lra.
      field. lra.
    + intros Hne Hall. destruct (Hwindow rows Hne) as (-> & _ & Hpos).
      rewrite (weightedSums_losses alpha (take windowSize rows) 0 0 0 Hall).
      field. lra.
Qed.

Lemma base_probability_is_a_percentage_witness :
  let base := calculateBaseProbability 100 0.1 (Some [win; loss; win]) in
  0 <= base <= 100.
Proof.
  apply (base_probability_is_a_percentage 100 0.1 (Some [win; loss; win])).
  split; reflexivity.
Defined.

(** ** How far the indicators move the probability *)

Lemma rsiAdjust_range rsi p : p - 10 <= rsiAdjust rsi p <= p + 10.
Proof.
  unfold rsiAdjust. destruct (lessThan _ _); [lra|].
  destruct (greaterThan _ _); lra.
Qed.

Lemma macdAdjust_range macd p : p - 5 <= macdAdjust macd p <= p + 5.
Proof.
  unfold macdAdjust. destruct (greaterThan _ _); [lra|].
  destruct (lessThan _ _); lra.
Qed.

Lemma maAdjust_range sma ema p : p - 5 <= maAdjust sma ema p <= p + 5.
Proof. unfold maAdjust. destruct (greaterThan _ _); lra. Qed.

Lemma stochasticAdjust_range stochastic p :
  p - 10 <= stochasticAdjust stochastic p <= p + 10.
Proof.
  unfold stochasticAdjust. destruct (_ && _); [lra|].
  destruct (_ && _); lra.
Qed.

Lemma atrAdjust_range atr p : p - 5 <= atrAdjust atr p <= p.
Proof. unfold atrAdjust. destruct (greaterThan _ _); lra. Qed.

Lemma bollingerAdjust_range bollinger p :
  p - 5 <= bollingerAdjust bollinger p <= p + 5.
Proof.
  unfold bollingerAdjust. destruct (lessThan _ _); [lra|].
  destruct (greaterThan _ _); lra.
Qed.

Lemma clamp_cases p :
  (p < 0 /\ clamp p = 0) \/ (100 < p /\ clamp p = 100)
  \/ (0 <= p <= 100 /\ clamp p = p).
Proof.
  unfold clamp. destruct (lessThan p 0) eqn:H0.
  - apply lessThan_true in H0. left. split; [exact H0|].
    assert (greaterThan 0 100 = false) as -> by reflexivity. reflexivity.
  - apply lessThan_false in H0. destruct (greaterThan p 100) eqn:H1.
    + apply greaterThan_true in H1. right. left. now split.
    + apply greaterThan_false in H1. right. right. now split.
Qed.

(** X12.  For a base probability between 0 and 100, the six indicator
    adjustments and the final clamp move the probability by at most 40 down
    and 35 up.  So a base probability below 35 keeps the computed
    probability below 70, the lower edge of the band in which a trade is
    offered. *)
Theorem indicators_move_probability_within_range (rsi : Decimal)
    (macd : Macd) (sma ema : Decimal) (stochastic : Stochastic)
    (atr : Decimal) (bollinger : Bollinger) (baseProbability : Decimal) :
  0 <= baseProbability <= 100 ->
  let probability :=
    calculateProbability rsi macd sma ema stochastic atr bollinger
      baseProbability in
  baseProbability - 40 <= probability <= baseProbability + 35
  /\ (baseProbability < 35 -> probability < 70).
Proof.
  intros Hb probability. subst probability. unfold calculateProbability.
  cbv zeta.
  pose proof (rsiAdjust_range rsi baseProbability) as H1.
  set (p1 := rsiAdjust rsi baseProbability) in *.
  pose proof (macdAdjust_range macd p1) as H2.
  set (p2 := macdAdjust macd p1) in *.
  pose proof (maAdjust_range sma ema p2) as H3.
  set (p3 := maAdjust sma ema p2) in *.
  pose proof (stochasticAdjust_range stochastic p3) as H4.
  set (p4 := stochasticAdjust stochastic p3) in *.
  pose proof (atrAdjust_range atr p4) as H5.
  set (p5 := atrAdjust atr p4) in *.
  pose proof (bollingerAdjust_range bollinger p5) as H6.
  set (p6 := bollingerAdjust bollinger p5) in *.
  destruct (clamp_cases p6) as [[Hc ->]|[[Hc ->]|[Hc ->]]];
    (split; [|intros Hlow]); lra.
Qed.

Lemma indicators_move_probability_within_range_witness :
  let probability :=
    calculateProbability (rsi bearish) (macd bearish) (sma bearish)
      (ema bearish) (stochastic bearish) (atr bearish) (bollinger bearish)
      75 in
  75 - 40 <= probability <= 75 + 35 /\ (75 < 35 -> probability < 70).
Proof.
  apply (indicators_move_probability_within_range (rsi bearish)
           (macd bearish) (sma bearish) (ema bearish) (stochastic bearish)
           (atr bearish) (bollinger bearish) 75).
  split; vm_compute; discriminate.
Defined.

(** ** The session accumulator *)

Lemma timeElapsed_reset (now start : Z) :
  greaterThanOrEqualTo (inject_Z (now - start) / 1000) 900 = true
  <-> (900000 <= now - start)%Z.
Proof.
  rewrite greaterThanOrEqualTo_true.
  unfold Qle, Qdiv, Qmult, Qinv, inject_Z. cbn. lia.
Qed.

(** X13.  The session accumulator works in windows of 900 seconds.  An
    evaluation that comes 900000 ms or more after the window started resets
    the accumulator to 0, starts a new window at the current time and
    returns the probability without penalty, whatever the accumulator held.
    An earlier evaluation keeps the window, adds the distance between the
    probability and the base probability to the accumulator, which therefore
    never decreases within a window, and once the accumulator is above 20
    every evaluation of the window loses the flat 5.  The accumulator never
    becomes negative. *)
Theorem dampening_window (probability dynamicBaseProbability : Decimal)
    (now : Z) (s : State) :
  let r := sessionDampening probability dynamicBaseProbability now s in
  let s' := state_of r in
  ((900000 <= now - sessionStart s)%Z ->
   r = (Normal probability, s', [])
   /\ cumulativeProbabilityChange s' = 0
   /\ sessionStart s' = now)
  /\ ((now - sessionStart s < 900000)%Z ->
      sessionStart s' = sessionStart s
      /\ cumulativeProbabilityChange s'
         = cumulativeProbabilityChange s
           + Qabs (probability - dynamicBaseProbability)
      /\ cumulativeProbabilityChange s <= cumulativeProbabilityChange s'
      /\ (20 < cumulativeProbabilityChange s ->
          r = (Normal (probability - 5), s', [Log ProbabilityDampened])))
  /\ (0 <= cumulativeProbabilityChange s ->
      0 <= cumulativeProbabilityChange s').
Proof.
  cbv zeta. unfold sessionDampening, bind, get, modify, emit, ret, state_of.
  pose proof (timeElapsed_reset now (sessionStart s)) as Ht.
  pose proof (Qabs_nonneg (probability - dynamicBaseProbability)) as Habs.
  destruct (greaterThanOrEqualTo _ _) eqn:E; cbn [fst snd].
  - assert (greaterThan 0 20 = false) as Hz by reflexivity.
    cbn [cumulativeProbabilityChange set_cumulativeProbabilityChange
         set_sessionStart]. rewrite Hz. cbn [fst snd app].
    split; [intros _; repeat split|].
    split; [intros Hlt; apply proj1 in Ht; specialize (Ht eq_refl); lia|].
    intros _. apply Qle_refl.
  - cbn [cumulativeProbabilityChange set_cumulativeProbabilityChange].
    split; [intros Hge; apply Ht in Hge; discriminate|].
    split.
    + intros _.
      destruct (greaterThan _ 20) eqn:G;
        cbn [fst snd cumulativeProbabilityChange sessionStart
             set_cumulativeProbabilityChange];
        (split; [reflexivity|]); (split; [reflexivity|]);
        (split; [lra|]); intros Hacc; [reflexivity|].
      apply greaterThan_false in G. lra.
    + intros H0. destruct (greaterThan _ 20);
        cbn [fst snd cumulativeProbabilityChange
             set_cumulativeProbabilityChange]; lra.
Qed.

Lemma dampening_window_witness :
  let r := sessionDampening 60 75 901000 swungSession in
  r = (Normal 60, state_of r, [])
  /\ cumulativeProbabilityChange (state_of r) = 0
  /\ sessionStart (state_of r) = 901000%Z.
Proof.
  apply (dampening_window 60 75 901000 swungSession). vm_compute.
  discriminate.
Defined.

(** ** Instances *)

Lemma fake_round_trip_balance_witness :
  let opened :=
    state_of
      (placeFutureTrade 100 1 long "fake" "unfavorable" freeGateway
         freshSession) in
  let closed := state_of (handleTradeClosure 0 98 storingClosure opened) in
  fakeBalance opened = 1000 - 100 * 1 * (1 + 0)
  /\ fakeBalance closed == 801.
Proof.
  destruct (fake_round_trip_balance 100 1 98 long "unfavorable" freeGateway
              storingClosure freshSession) as [Hopen Hclose].
  - vm_compute. discriminate.
  - reflexivity.
  - discriminate.
  - right. reflexivity.
  - reflexivity.
  - split; [exact Hopen|]. rewrite Hclose. vm_compute. reflexivity.
Defined.

Lemma engine_never_leverages_witness :
  let t :=
    newFutureTrade 100 6 long "fake" "favorable"
      (hedgeGateway "trade_1700000000000_1") in
  tradeLeverage t = 1 /\ (type t = "real" \/ type t = "fake").
Proof.
  apply (engine_never_leverages [CheckPrices hedgeCheck] freshSession).
  - repeat constructor.
  - reflexivity.
  - apply list_elem_of_lookup. exists 0%nat. vm_compute. reflexivity.
Defined.


Lemma monitorActiveTrades_exhausts_the_array_witness :
  forOf_activeTrades 5 (activeTradesArray loneShortSession)
    (activeTrades loneShortSession) 0 (fun _ => tickAt 102 storingClosure)
    loneShortSession
  = forOf_activeTrades (2 * length (activeTrades loneShortSession))
      (activeTradesArray loneShortSession) (activeTrades loneShortSession) 0
      (fun _ => tickAt 102 storingClosure) loneShortSession.
Proof.
  apply (monitorActiveTrades_exhausts_the_array
           (fun _ => tickAt 102 storingClosure) loneShortSession).
  vm_compute. lia.
Defined.

(** ** Retry *)


Lemma backoffSleeps_S delay n :
  backoffSleeps delay (S n) = delay :: backoffSleeps (delay * 2) n.
Proof.
  unfold backoffSleeps. cbn [seq map]. f_equal; [cbn; lia|].
  rewrite <- seq_shift, map_map. apply map_ext. intros j.
  rewrite Nat2Z.inj_succ, Z.pow_succ_r by lia. lia.
Qed.

(** X19.  [retryOperation] stops at the first attempt that succeeds: when
    the first [failures] attempts are rejected, with [failures] not above
    the retry count, and the next one resolves, the promise resolves to that
    value after exactly [failures] sleeps of delay, 2 * delay, 4 * delay and
    so on; no further attempt is made. *)
Theorem retryOperation_stops_at_first_success {A}
    (operation : nat -> Settled A) (attempt retries : nat) (delay : Z)
    (failures : nat) (value : A) :
  (failures <= retries)%nat ->
  (forall j, (j < failures)%nat ->
     exists error, operation (attempt + j)%nat = Rejected error) ->
  operation (attempt + failures)%nat = Resolved value ->
  retryOperation operation attempt retries delay
  = (Resolved value, backoffSleeps delay failures).
Proof.
  revert attempt retries delay.
  induction failures as [|failures IH]; intros attempt retries delay Hle Hf Hs.
  - rewrite Nat.add_0_r in Hs. destruct retries; cbn; now rewrite Hs.
  - destruct retries as [|retries]; [lia|].
    cbn [retryOperation].
    destruct (Hf 0%nat ltac:(lia)) as (error & He).
    rewrite Nat.add_0_r in He. rewrite He.
    rewrite (IH (S attempt) retries (delay * 2)%Z).
    + now rewrite backoffSleeps_S.
    + lia.
    + intros j Hj. destruct (Hf (S j) ltac:(lia)) as (e & Hej).
      exists e. now rewrite <- Hej, Nat.add_succ_comm.
    + now rewrite <- Hs, Nat.add_succ_comm.
Qed.

Lemma sum_backoffSleeps delay n :
  foldr Z.add 0%Z (backoffSleeps delay n) = (delay * (2 ^ Z.of_nat n - 1))%Z.
Proof.
  revert delay. induction n as [|n IH]; intros delay.
  - cbn. lia.
  - rewrite backoffSleeps_S. cbn [foldr]. rewrite IH.
    rewrite Nat2Z.inj_succ, Z.pow_succ_r by lia. lia.
Qed.

(** X20.  When every attempt is rejected, [retryOperation] makes
    retries + 1 attempts, sleeps the doubling delays between them, which add
    up to delay * (2 ^ retries - 1), and rejects with the error of the last
    attempt. *)
Theorem retryOperation_gives_up_after_retries {A}
    (operation : nat -> Settled A) (attempt retries : nat) (delay : Z) :
  (forall j, (j <= retries)%nat ->
     exists error, operation (attempt + j)%nat = Rejected error) ->
  exists error,
    operation (attempt + retries)%nat = Rejected error
    /\ retryOperation operation attempt retries delay
       = (Rejected error, backoffSleeps delay retries)
    /\ foldr Z.add 0%Z (backoffSleeps delay retries)
       = (delay * (2 ^ Z.of_nat retries - 1))%Z.
Proof.
  intros Hf.
  cut (exists error,
         operation (attempt + retries)%nat = Rejected error
         /\ retryOperation operation attempt retries delay
            = (Rejected error, backoffSleeps delay retries)).
  { intros (e & H1 & H2). exists e. split; [exact H1|]. split; [exact H2|].
    apply sum_backoffSleeps. }
  revert attempt delay Hf.
  induction retries as [|retries IH]; intros attempt delay Hf.
  - destruct (Hf 0%nat ltac:(lia)) as (error & He). exists error.
    split; [exact He|]. rewrite Nat.add_0_r in He. cbn. now rewrite He.
  - destruct (Hf 0%nat ltac:(lia)) as (e0 & He0).
    rewrite Nat.add_0_r in He0.
    destruct (IH (S attempt) (delay * 2)%Z) as (error & He & Hr).
    { intros j Hj. destruct (Hf (S j) ltac:(lia)) as (e & Hej).
      exists e. now rewrite <- Hej, Nat.add_succ_comm. }
    exists error. split; [now rewrite <- He, Nat.add_succ_comm|].
    cbn [retryOperation]. rewrite He0, Hr. now rewrite backoffSleeps_S.
Qed.

Lemma retryOperation_stops_at_first_success_witness :
  retryOperation
    (fun n => if (n <? 2)%nat then Rejected "timeout" else Resolved 7%Z)
    0 3 1000
  = (Resolved 7%Z, [1000; 2000]%Z).
Proof.
  apply (retryOperation_stops_at_first_success
           (fun n => if (n <? 2)%nat then Rejected "timeout"
                     else Resolved 7%Z)
           0 3 1000 2 7%Z).
  - lia.
  - intros j Hj. exists "timeout".
    destruct j as [|[|j]]; [reflexivity|reflexivity|lia].
  - reflexivity.
Defined.

Lemma retryOperation_gives_up_after_retries_witness :
  exists error,
    retryOperation (fun _ => @Rejected unit "timeout") 0 3 1000
    = (Rejected error, [1000; 2000; 4000]%Z)
    /\ foldr Z.add 0%Z [1000; 2000; 4000]%Z = 7000%Z.
Proof.
  destruct (retryOperation_gives_up_after_retries
              (fun _ => @Rejected unit "timeout") 0 3 1000)
    as (error & _ & H1 & H2).
  - intros j _. exists "timeout". reflexivity.
  - exists error. split; [exact H1|exact H2].
Defined.

(** ** Reconnection *)

Lemma backoffTime_bounds retryCount :
  (1000 <= backoffTime retryCount <= 30000)%Z.
Proof.
  unfold backoffTime.
  assert (1 <= 2 ^ Z.of_nat retryCount)%Z
    by (apply Z.pow_le_mono_r with (b := 0%Z); lia).
  lia.
Qed.

Lemma subscribeToLiveData_unopened n retryCount :
  (retryCount <= maxRetries)%nat ->
  subscribeToLiveData (repeat closesUnopened n) retryCount
  = (map backoffTime (seq retryCount (min n (maxRetries - retryCount))),
     bool_decide (maxRetries - retryCount < n)%nat).
Proof.
  revert retryCount. induction n as [|n IH]; intros retryCount Hle.
  - cbn. rewrite bool_decide_false by lia. reflexivity.
  - cbn [repeat subscribeToLiveData].
    destruct (retryCount <? maxRetries)%nat eqn:E.
    + apply Nat.ltb_lt in E. rewrite IH by lia.
      replace (maxRetries - retryCount)%nat
        with (S (maxRetries - (retryCount + 1))) by lia.
      rewrite <- Nat.succ_min_distr. cbn [seq map].
      rewrite Nat.add_1_r. f_equal.
      apply bool_decide_ext. lia.
    + apply Nat.ltb_ge in E.
      replace (maxRetries - retryCount)%nat with 0%nat by lia.
      rewrite Nat.min_0_r, bool_decide_true by lia. reflexivity.
Qed.

(** X21.  The reconnection policy of the live feed.  A run of sockets that
    close without having opened is retried after 1000 * 2 ^ retryCount ms
    each, until a socket started with the count at 5 closes unopened: then
    the script shuts down.  A socket that did open resets the count, but its
    reconnection waits the backoff of the count it was started with, and the
    next socket starts at count 1, so that five unopened sockets in a row
    then suffice for the shutdown.  Every timeout set lies between 1000 and
    30000 ms. *)
Theorem reconnection_policy (n retryCount : nat) (sockets : list Socket) :
  (retryCount <= maxRetries)%nat ->
  subscribeToLiveData (repeat closesUnopened n) retryCount
  = (map backoffTime (seq retryCount (min n (maxRetries - retryCount))),
     bool_decide (maxRetries - retryCount < n)%nat)
  /\ subscribeToLiveData (opensThenCloses :: repeat closesUnopened n)
       retryCount
     = (backoffTime retryCount :: map backoffTime (seq 1 (min n 4)),
        bool_decide (4 < n)%nat)
  /\ Forall (fun timeout => (1000 <= timeout <= 30000)%Z)
       (fst (subscribeToLiveData sockets retryCount)).
Proof.
  intros Hle. split; [now apply subscribeToLiveData_unopened|]. split.
  - cbn [subscribeToLiveData]. change (0 <? maxRetries)%nat with true.
    cbn match. rewrite (subscribeToLiveData_unopened n (0 + 1))
      by (unfold maxRetries; lia).
    reflexivity.
  - clear Hle n. revert retryCount.
    induction sockets as [|socket rest IH]; intros retryCount;
      [constructor|].
    cbn [subscribeToLiveData].
    destruct (_ <? maxRetries)%nat; [|constructor].
    match goal with
    | |- context [subscribeToLiveData rest ?r] =>
        specialize (IH r); destruct (subscribeToLiveData rest r)
    end.
    constructor; [apply backoffTime_bounds|exact IH].
Qed.

Lemma reconnection_policy_witness :
  subscribeToLiveData (repeat closesUnopened 6) 0
  = ([1000; 2000; 4000; 8000; 16000]%Z, true)
  /\ subscribeToLiveData (opensThenCloses :: repeat closesUnopened 5) 4
     = ([16000; 2000; 4000; 8000; 16000]%Z, true).
Proof.
  destruct (reconnection_policy 6 0 [] ltac:(unfold maxRetries; lia))
    as (H1 & _ & _).
  destruct (reconnection_policy 5 4 [] ltac:(unfold maxRetries; lia))
    as (_ & H2 & _).
  split; [exact H1|exact H2].
Defined.

(** ** Validation of the stored history *)

Lemma expectedGapOf_ge interval gap :
  expectedGapOf interval = Some gap -> (60000 <= gap)%Z.
Proof.
  unfold expectedGapOf, timeframeMap, timeframes. cbn [ownProperty].
  repeat match goal with
         | |- context [streq interval ?name] => destruct (streq interval name)
         end;
    try (intros [= <-]; lia).
  destruct (bool_decide _); [discriminate|]. intros [= <-]. lia.
Qed.

Lemma validateFrom_spec expectedGap i previous rest (k : nat) :
  k ∈ validateFrom expectedGap i previous rest
  <-> exists j before current,
        k = (i + j)%nat
        /\ (previous :: rest) !! j = Some before
        /\ (previous :: rest) !! S j = Some current
        /\ gapDetected expectedGap before current = true.
Proof.
  revert i previous. induction rest as [|c rest IH]; intros i previous.
  - cbn. split; [intros H; now apply elem_of_nil in H|].
    intros (j & b & c & _ & _ & H & _). destruct j; discriminate.
  - cbn [validateFrom]. rewrite elem_of_app, IH. split.
    + intros [H|(j & b & c' & -> & Hb & Hc & Hg)].
      * destruct (gapDetected expectedGap previous c) eqn:Hg;
          [|now apply elem_of_nil in H].
        apply list_elem_of_singleton in H. subst k.
        exists 0%nat, previous, c. rewrite Nat.add_0_r. now repeat split.
      * exists (S j), b, c'. repeat split; try assumption. lia.
    + intros (j & b & c' & -> & Hb & Hc & Hg). destruct j as [|j].
      * left. cbn in Hb, Hc. injection Hb as <-. injection Hc as <-.
        rewrite Hg, Nat.add_0_r. apply list_elem_of_singleton. reflexivity.
      * right. exists j, b, c'. repeat split; try assumption. lia.
Qed.

Lemma gapDetected_false expectedGap previous current :
  gapDetected expectedGap previous current = false
  <-> exists gap closed,
        expectedGap = Some gap
        /\ closeTime previous = Millis closed
        /\ openTime current = Millis (closed + gap).
Proof.
  unfold gapDetected. split.
  - destruct (closeTime previous) as [closed|]; [|discriminate].
    destruct expectedGap as [gap|]; [|discriminate].
    destruct (openTime current) as [opened|]; [|discriminate].
    intros H. apply negb_false_iff, Z.eqb_eq in H. subst opened.
    now exists gap, closed.
  - intros (gap & closed & -> & -> & ->). now rewrite Z.eqb_refl.
Qed.

(** X22.  [validateHistoricalData] logs no warning exactly when, for every
    two neighbouring candles, the close time of the first and the open time
    of the second are numbers and the second opens exactly the expected gap
    after the first one closes (not after it opens), the expected gap being
    the number the interval has in the timeframe table, or 60000 for an
    unknown interval. *)
Theorem validation_passes_only_on_exact_gaps (data : list Candle)
    (interval : string) :
  validateHistoricalData data interval = []
  <-> forall i previous current,
        data !! i = Some previous ->
        data !! S i = Some current ->
        exists gap closed,
          expectedGapOf interval = Some gap
          /\ closeTime previous = Millis closed
          /\ openTime current = Millis (closed + gap).
Proof.
  unfold validateHistoricalData. destruct data as [|first rest].
  - split; [|reflexivity]. intros _ i previous current H. discriminate.
  - split.
    + intros Hnone i previous current Hp Hc.
      apply gapDetected_false.
      destruct (gapDetected _ previous current) eqn:Hg; [|reflexivity].
      assert ((1 + i)%nat
              ∈ validateFrom (expectedGapOf interval) 1 first rest) as Hin.
      { apply validateFrom_spec. exists i, previous, current.
        now repeat split. }
      rewrite Hnone in Hin. now apply elem_of_nil in Hin.
    + intros Hall.
      destruct (validateFrom (expectedGapOf interval) 1 first rest)
        as [|k warnings] eqn:E; [reflexivity|].
      assert (k ∈ validateFrom (expectedGapOf interval) 1 first rest) as Hin
        by (rewrite E; apply elem_of_cons; now left).
      apply validateFrom_spec in Hin
        as (j & before & current & _ & Hb & Hc & Hg).
      apply (Hall j before current Hb) in Hc. apply gapDetected_false in Hc.
      congruence.
Qed.

Lemma validateFrom_all expectedGap i previous rest :
  (forall j before current,
     (previous :: rest) !! j = Some before ->
     (previous :: rest) !! S j = Some current ->
     gapDetected expectedGap before current = true) ->
  validateFrom expectedGap i previous rest = seq i (length rest).
Proof.
  revert i previous. induction rest as [|c rest IH]; intros i previous Hall.
  - reflexivity.
  - cbn [validateFrom length seq].
    rewrite (Hall 0%nat previous c eq_refl eq_refl). cbn [app]. f_equal.
    apply IH. intros j before current Hb Hc.
    exact (Hall (S j) before current Hb Hc).
Qed.

(** X23.  A series in which every candle opens one millisecond after the
    previous one closes, or whose close times are [Date] objects, is
    reported as nothing but gaps: [validateHistoricalData] logs a warning
    for every index from 1 on, whatever the interval. *)
Theorem validation_flags_every_pair (data : list Candle) (interval : string) :
  (forall i previous current,
     data !! i = Some previous ->
     data !! S i = Some current ->
     (exists ms, closeTime previous = DateObject ms)
     \/ (exists closed,
           closeTime previous = Millis closed
           /\ openTime current = Millis (closed + 1))) ->
  validateHistoricalData data interval = seq 1 (length data - 1).
Proof.
  intros Hall. unfold validateHistoricalData.
  destruct data as [|first rest]; [reflexivity|].
  cbn [length]. rewrite Nat.sub_1_r. cbn [Nat.pred].
  apply validateFrom_all. intros j before current Hb Hc.
  destruct (gapDetected _ before current) eqn:Hg; [reflexivity|].
  apply gapDetected_false in Hg as (gap & closed & Hgap & Hclose & Hopen).
  apply expectedGapOf_ge in Hgap.
  destruct (Hall j before current Hb Hc)
    as [(ms & Hd)|(closed' & Hclose' & Hopen')]; [congruence|].
  rewrite Hclose in Hclose'. injection Hclose' as <-.
  rewrite Hopen in Hopen'. injection Hopen' as Heq. lia.
Qed.

Lemma validation_flags_every_pair_witness :
  validateHistoricalData threeMinutes "1m" = [1%nat; 2%nat].
Proof.
  apply (validation_flags_every_pair threeMinutes "1m").
  intros [|[|i]] previous current Hp Hc; cbn in Hp, Hc; try discriminate;
    injection Hp as <-; injection Hc as <-; right; eexists; split;
    reflexivity.
Defined.

(** ** Aggregation of candles *)

Lemma aggregateStep_fresh targetInterval aggregatedCandles candle :
  aggregateStep targetInterval (aggregatedCandles, None, 0%nat) candle
  = aggregateStep targetInterval (aggregatedCandles, Some candle, 0%nat)
      candle.
Proof. reflexivity. Qed.

Lemma aggregateStep_building (m : nat) aggregatedCandles tempCandle count
    candle :
  aggregateStep (Z.of_nat m) (aggregatedCandles, Some tempCandle, count)
    candle
  = if (S count =? m)%nat
    then (aggregatedCandles ++ [mergeCandle tempCandle candle], None, 0%nat)
    else (aggregatedCandles, Some (mergeCandle tempCandle candle), S count).
Proof.
  unfold aggregateStep. fold (mergeCandle tempCandle candle).
  destruct (S count =? m)%nat eqn:E.
  - apply Nat.eqb_eq in E. rewrite E, Z.eqb_refl. reflexivity.
  - apply Nat.eqb_neq in E.
    assert ((Z.of_nat (S count) =? Z.of_nat m)%Z = false) as ->
      by (apply Z.eqb_neq; lia).
    reflexivity.
Qed.

Lemma fold_aggregateStep_building (m : nat) group aggregatedCandles
    tempCandle count :
  group <> [] ->
  (count + length group <= m)%nat ->
  fold_left (aggregateStep (Z.of_nat m)) group
    (aggregatedCandles, Some tempCandle, count)
  = if (count + length group =? m)%nat
    then (aggregatedCandles ++ [fold_left mergeCandle group tempCandle],
          None, 0%nat)
    else (aggregatedCandles, Some (fold_left mergeCandle group tempCandle),
          (count + length group)%nat).
Proof.
  revert tempCandle count.
  induction group as [|candle group IH]; intros tempCandle count Hne Hle;
    [now destruct Hne|].
  cbn [fold_left length] in *. rewrite aggregateStep_building.
  destruct group as [|next group].
  - cbn [fold_left length]. rewrite Nat.add_1_r. reflexivity.
  - assert ((S count =? m)%nat = false) as ->
      by (apply Nat.eqb_neq; cbn [length] in Hle; lia).
    rewrite IH by (cbn [length] in *; first [discriminate|lia]).
    replace (S count + length (next :: group))%nat
      with (count + S (length (next :: group)))%nat by lia.
    reflexivity.
Qed.

Lemma fold_aggregateStep_group (m : nat) first rest more aggregatedCandles :
  length (first :: rest) = m ->
  fold_left (aggregateStep (Z.of_nat m)) ((first :: rest) ++ more)
    (aggregatedCandles, None, 0%nat)
  = fold_left (aggregateStep (Z.of_nat m)) more
      (aggregatedCandles ++ [fold_left mergeCandle (first :: rest) first],
       None, 0%nat).
Proof.
  intros Hm. rewrite fold_left_app. f_equal.
  cbn [fold_left]. rewrite aggregateStep_fresh.
  change (fold_left (aggregateStep (Z.of_nat m)) rest
            (aggregateStep (Z.of_nat m)
               (aggregatedCandles, Some first, 0%nat) first))
    with (fold_left (aggregateStep (Z.of_nat m)) (first :: rest)
            (aggregatedCandles, Some first, 0%nat)).
  rewrite fold_aggregateStep_building by (first [discriminate|lia]).
  cbn [Nat.add]. now rewrite Hm, Nat.eqb_refl.
Qed.

Lemma fold_aggregateStep_leftover (m : nat) group aggregatedCandles :
  (length group < m)%nat ->
  fst (fst (fold_left (aggregateStep (Z.of_nat m)) group
              (aggregatedCandles, None, 0%nat)))
  = aggregatedCandles.
Proof.
  intros Hlt. destruct group as [|first rest]; [reflexivity|].
  cbn [fold_left]. rewrite aggregateStep_fresh.
  change (fold_left (aggregateStep (Z.of_nat m)) rest
            (aggregateStep (Z.of_nat m)
               (aggregatedCandles, Some first, 0%nat) first))
    with (fold_left (aggregateStep (Z.of_nat m)) (first :: rest)
            (aggregatedCandles, Some first, 0%nat)).
  rewrite fold_aggregateStep_building by (first [discriminate|lia]).
  cbn [Nat.add].
  assert ((length (first :: rest) =? m)%nat = false) as ->
    by (apply Nat.eqb_neq; lia).
  reflexivity.
Qed.

Lemma aggregateCandleData_groups (m q r : nat) candles aggregatedCandles :
  (r < m)%nat ->
  length candles = (q * m + r)%nat ->
  exists groups,
    length groups = q
    /\ (forall k, (k < q)%nat ->
          exists first rest,
            groupOf m k candles = first :: rest
            /\ groups !! k
               = Some (fold_left mergeCandle (first :: rest) first))
    /\ fst (fst (fold_left (aggregateStep (Z.of_nat m)) candles
                   (aggregatedCandles, None, 0%nat)))
       = aggregatedCandles ++ groups.
Proof.
  intros Hr. revert candles aggregatedCandles.
  induction q as [|q IH]; intros candles aggregatedCandles Hlen.
  - exists []. split; [reflexivity|]. split; [intros k Hk; lia|].
    rewrite app_nil_r. apply fold_aggregateStep_leftover. lia.
  - assert (length (take m candles) = m) as Htake
      by (rewrite length_take; lia).
    destruct (take m candles) as [|first rest] eqn:E;
      [cbn in Htake; lia|].
    destruct (IH (drop m candles)
                (aggregatedCandles
                 ++ [fold_left mergeCandle (first :: rest) first]))
      as (groups & Hgl & Hgk & Hfold).
    { rewrite length_drop. lia. }
    exists (fold_left mergeCandle (first :: rest) first :: groups).
    split; [cbn; lia|]. split.
    + intros [|k] Hk.
      * exists first, rest. unfold groupOf. cbn [Nat.mul drop].
        split; [exact E|reflexivity].
      * destruct (Hgk k ltac:(lia)) as (f & g & Hg & Hl).
        exists f, g. split; [|exact Hl].
        unfold groupOf in *. rewrite drop_drop in Hg.
        now replace (S k * m)%nat with (m + k * m)%nat by lia.
    + rewrite <- (take_drop m candles) at 1. rewrite E.
      rewrite fold_aggregateStep_group by exact Htake.
      rewrite Hfold, <- app_assoc. reflexivity.
Qed.

Lemma fold_aggregateStep_never (targetInterval : Z) candles aggregatedCandles
    tempCandle count :
  (targetInterval <= 0)%Z ->
  fst (fst (fold_left (aggregateStep targetInterval) candles
              (aggregatedCandles, tempCandle, count)))
  = aggregatedCandles.
Proof.
  intros Hle. revert tempCandle count.
  induction candles as [|candle candles IH]; intros tempCandle count;
    [reflexivity|].
  cbn [fold_left]. unfold aggregateStep at 2.
  assert ((Z.of_nat (S count) =? targetInterval)%Z = false) as ->
    by (apply Z.eqb_neq; lia).
  apply IH.
Qed.

(** X24.  [aggregateCandleData] emits one candle per full group of
    [targetInterval] consecutive candles and drops the candles left over at
    the end: [q * m + r] candles with [r < m] give [q] candles.  With a
    target interval of zero or less it emits nothing. *)
Theorem aggregation_keeps_full_groups_only (candles : list Candle) :
  (forall m q r : nat,
     (r < m)%nat ->
     length candles = (q * m + r)%nat ->
     length (aggregateCandleData candles (Z.of_nat m)) = q)
  /\ (forall targetInterval : Z,
        (targetInterval <= 0)%Z ->
        aggregateCandleData candles targetInterval = []).
Proof.
  split.
  - intros m q r Hr Hlen. unfold aggregateCandleData.
    destruct (aggregateCandleData_groups m q r candles [] Hr Hlen)
      as (groups & Hgl & _ & ->).
    exact Hgl.
  - intros targetInterval Hle. now apply fold_aggregateStep_never.
Qed.

Lemma aggregation_keeps_full_groups_only_witness :
  length (aggregateCandleData threeMinutes 2) = 1%nat
  /\ aggregateCandleData threeMinutes 0 = [].
Proof.
  destruct (aggregation_keeps_full_groups_only threeMinutes) as [H1 H2].
  split.
  - apply (H1 2%nat 1%nat 1%nat); [lia|reflexivity].
  - apply H2. lia.
Defined.

Lemma Decimal_max_spec x y :
  x <= Decimal_max x y /\ y <= Decimal_max x y
  /\ (Decimal_max x y = x \/ Decimal_max x y = y).
Proof.
  unfold Decimal_max. destruct (lessThan x y) eqn:E.
  - apply lessThan_true in E. repeat split; try lra. now right.
  - apply lessThan_false in E. repeat split; try lra. now left.
Qed.

Lemma Decimal_min_spec x y :
  Decimal_min x y <= x /\ Decimal_min x y <= y
  /\ (Decimal_min x y = x \/ Decimal_min x y = y).
Proof.
  unfold Decimal_min. destruct (greaterThan x y) eqn:E.
  - apply greaterThan_true in E. repeat split; try lra. now right.
  - apply greaterThan_false in E. repeat split; try lra. now left.
Qed.

Lemma fold_mergeCandle_fixed group tempCandle :
  openTime (fold_left mergeCandle group tempCandle) = openTime tempCandle
  /\ open (fold_left mergeCandle group tempCandle) = open tempCandle
  /\ closeTime (fold_left mergeCandle group tempCandle)
     = closeTime tempCandle.
Proof.
  revert tempCandle. induction group as [|candle group IH]; intros tempCandle;
    [repeat split|].
  cbn [fold_left]. destruct (IH (mergeCandle tempCandle candle))
    as (-> & -> & ->).
  repeat split.
Qed.

Lemma fold_mergeCandle_close group tempCandle candle :
  close (fold_left mergeCandle (candle :: group) tempCandle)
  = close (default candle (last group)).
Proof.
  revert tempCandle candle.
  induction group as [|next group IH]; intros tempCandle candle;
    [reflexivity|].
  change (fold_left mergeCandle (candle :: next :: group) tempCandle)
    with (fold_left mergeCandle (next :: group)
            (mergeCandle tempCandle candle)).
  rewrite IH, last_cons. now destruct (last group).
Qed.

Lemma fold_mergeCandle_high group tempCandle :
  let merged := fold_left mergeCandle group tempCandle in
  high tempCandle <= high merged
  /\ Forall (fun candle => high candle <= high merged) group
  /\ (high merged = high tempCandle
      \/ Exists (fun candle => high merged = high candle) group).
Proof.
  cbv zeta. revert tempCandle.
  induction group as [|candle group IH]; intros tempCandle.
  - cbn. split; [lra|]. split; [constructor|now left].
  - cbn [fold_left].
    destruct (IH (mergeCandle tempCandle candle)) as (H1 & H2 & H3).
    destruct (Decimal_max_spec (high tempCandle) (high candle))
      as (Hx & Hy & Hcase).
    cbn [high mergeCandle] in H1, H3.
    split; [lra|]. split; [constructor; [lra|exact H2]|].
    destruct H3 as [H3|H3]; [|right; now constructor 2].
    destruct Hcase as [Hcase|Hcase]; rewrite Hcase in H3;
      [now left|right; now constructor 1].
Qed.

Lemma fold_mergeCandle_low group tempCandle :
  let merged := fold_left mergeCandle group tempCandle in
  low merged <= low tempCandle
  /\ Forall (fun candle => low merged <= low candle) group
  /\ (low merged = low tempCandle
      \/ Exists (fun candle => low merged = low candle) group).
Proof.
  cbv zeta. revert tempCandle.
  induction group as [|candle group IH]; intros tempCandle.
  - cbn. split; [lra|]. split; [constructor|now left].
  - cbn [fold_left].
    destruct (IH (mergeCandle tempCandle candle)) as (H1 & H2 & H3).
    destruct (Decimal_min_spec (low tempCandle) (low candle))
      as (Hx & Hy & Hcase).
    cbn [low mergeCandle] in H1, H3.
    split; [lra|]. split; [constructor; [lra|exact H2]|].
    destruct H3 as [H3|H3]; [|right; now constructor 2].
    destruct Hcase as [Hcase|Hcase]; rewrite Hcase in H3;
      [now left|right; now constructor 1].
Qed.

Lemma fold_mergeCandle_volume group tempCandle :
  volume (fold_left mergeCandle group tempCandle)
  == volume tempCandle + totalVolume group.
Proof.
  revert tempCandle. induction group as [|candle group IH]; intros tempCandle.
  - cbn. lra.
  - cbn [fold_left totalVolume foldr]. rewrite IH. cbn [volume mergeCandle].
    fold (totalVolume group). lra.
Qed.

(** X25.  What an aggregated candle holds.  The candle emitted for a full
    group takes its open time, its open price and also its close time from
    the first candle of the group, and its close price from the last one;
    its high is the highest high and its low the lowest low of the group;
    its volume is the volume of the group plus, once more, the volume of the
    first candle, which the loop adds to its own copy. *)
Theorem aggregated_candle_fields (candles : list Candle) (m q r k : nat)
    (first : Candle) (rest : list Candle) :
  (r < m)%nat ->
  length candles = (q * m + r)%nat ->
  (k < q)%nat ->
  groupOf m k candles = first :: rest ->
  exists aggregated,
    aggregateCandleData candles (Z.of_nat m) !! k = Some aggregated
    /\ openTime aggregated = openTime first
    /\ open aggregated = open first
    /\ closeTime aggregated = closeTime first
    /\ close aggregated = close (default first (last rest))
    /\ Forall (fun candle => high candle <= high aggregated) (first :: rest)
    /\ Exists (fun candle => high aggregated = high candle) (first :: rest)
    /\ Forall (fun candle => low aggregated <= low candle) (first :: rest)
    /\ Exists (fun candle => low aggregated = low candle) (first :: rest)
    /\ volume aggregated == volume first + totalVolume (first :: rest).
Proof.
  intros Hr Hlen Hk Hgroup. unfold aggregateCandleData.
  destruct (aggregateCandleData_groups m q r candles [] Hr Hlen)
    as (groups & _ & Hgk & ->).
  destruct (Hgk k Hk) as (f & g & Hg & Hl).
  rewrite Hgroup in Hg. injection Hg as <- <-.
  cbn [app]. exists (fold_left mergeCandle (first :: rest) first).
  split; [exact Hl|].
  destruct (fold_mergeCandle_fixed (first :: rest) first) as (-> & -> & ->).
  rewrite fold_mergeCandle_close.
  destruct (fold_mergeCandle_high (first :: rest) first) as (_ & Hh & Hhe).
  destruct (fold_mergeCandle_low (first :: rest) first) as (_ & Hlo & Hle).
  repeat split; try assumption.
  - destruct Hhe as [Hhe|Hhe]; [now constructor 1|exact Hhe].
  - destruct Hle as [Hle|Hle]; [now constructor 1|exact Hle].
  - apply fold_mergeCandle_volume.
Qed.

Lemma aggregated_candle_fields_witness :
  exists aggregated,
    aggregateCandleData threeMinutes 2 !! 0%nat = Some aggregated
    /\ closeTime aggregated = Millis 59999
    /\ close aggregated = 102
    /\ volume aggregated == 10 + totalVolume (take 2 threeMinutes).
Proof.
  destruct (aggregated_candle_fields threeMinutes 2 1 1 0
              (minuteCandle 0 101 99 100 10) [minuteCandle 1 103 100 102 20])
    as (aggregated & Hk & _ & _ & Hct & Hc & _ & _ & _ & _ & Hv);
    [lia|reflexivity|lia|reflexivity|].
  exists aggregated. repeat split; assumption.
Defined.

(** ** The buffer of live candles *)

Lemma onLiveCandleClose_history candle envs historicalData :
  let after := fst (onLiveCandleClose candle envs historicalData) in
  length after
  = (if (length historicalData <? 1000)%nat then S (length historicalData)
     else length historicalData)
  /\ after
     = drop (S (length historicalData) - length after)
         (historicalData ++ [candle]).
Proof.
  cbv zeta. unfold onLiveCandleClose. cbn [fst].
  rewrite length_app. cbn [length]. rewrite Nat.add_1_r.
  destruct (length historicalData <? 1000)%nat eqn:E.
  - apply Nat.ltb_lt in E.
    assert ((1000 <? S (length historicalData))%nat = false) as ->
      by (apply Nat.ltb_ge; lia).
    rewrite length_app. cbn [length]. rewrite Nat.add_1_r, Nat.sub_diag.
    split; reflexivity.
  - apply Nat.ltb_ge in E.
    assert ((1000 <? S (length historicalData))%nat = true) as ->
      by (apply Nat.ltb_lt; lia).
    destruct historicalData as [|oldest others]; [cbn in E; lia|].
    cbn [app tail length]. rewrite length_app. cbn [length].
    rewrite Nat.add_1_r.
    replace (S (S (length others)) - S (length others))%nat with 1%nat by lia.
    split; reflexivity.
Qed.

(** X26.  The history buffer under live candles.  A history of fewer than
    1000 candles grows by one per live candle until it holds 1000 and then
    stays there; a history that starts with 1000 candles or more, as one
    loaded from the database can, keeps its length for ever: it is never
    trimmed to 1000.  In both cases the buffer holds the most recent candles
    of the history followed by the live candles, in order. *)
Theorem live_history_keeps_the_latest (candles : list Candle)
    (envs : nat -> MonitorEnv) (historicalData : list Candle) :
  let after := liveFeed candles envs historicalData in
  length after
  = (if (length historicalData <? 1000)%nat
     then Nat.min (length historicalData + length candles) 1000
     else length historicalData)
  /\ after
     = drop (length historicalData + length candles - length after)
         (historicalData ++ candles).
Proof.
  cbv zeta. revert historicalData.
  induction candles as [|candle candles IH]; intros historicalData.
  - cbn [liveFeed fold_left length]. rewrite Nat.add_0_r, Nat.sub_diag.
    rewrite app_nil_r. split; [|reflexivity].
    destruct (length historicalData <? 1000)%nat eqn:E; [|reflexivity].
    apply Nat.ltb_lt in E. lia.
  - unfold liveFeed. cbn [fold_left].
    fold (liveFeed candles envs
            (fst (onLiveCandleClose candle envs historicalData))).
    destruct (onLiveCandleClose_history candle envs historicalData)
      as (Hlen1 & Heq1).
    cbv zeta in Hlen1, Heq1.
    set (data1 := fst (onLiveCandleClose candle envs historicalData)) in *.
    destruct (IH data1) as (Hlen & Heq).
    set (after := liveFeed candles envs data1) in *.
    cbn [length].
    assert (length after
            = (if (length historicalData <? 1000)%nat
               then Nat.min (length historicalData + S (length candles)) 1000
               else length historicalData)) as Hafter.
    { rewrite Hlen, Hlen1.
      destruct (length historicalData <? 1000)%nat eqn:E.
      - apply Nat.ltb_lt in E.
        destruct (S (length historicalData) <? 1000)%nat eqn:E1.
        + apply Nat.ltb_lt in E1. lia.
        + apply Nat.ltb_ge in E1. lia.
      - now rewrite E. }
    split; [exact Hafter|].
    transitivity
      (drop (length data1 + length candles - length after) (data1 ++ candles));
      [exact Heq|].
    replace (data1 ++ candles)
      with (drop (S (length historicalData) - length data1)
              ((historicalData ++ [candle]) ++ candles)).
    2:{ rewrite drop_app_le by (rewrite length_app; cbn [length]; lia).
        now rewrite <- Heq1. }
    rewrite <- app_assoc. cbn [app].
    rewrite drop_drop. f_equal.
    assert (length data1 <= S (length historicalData))%nat
      by (rewrite Hlen1; destruct (_ <? _)%nat; lia).
    assert (length after <= length data1 + length candles)%nat.
    { rewrite Hlen. destruct (length data1 <? 1000)%nat; lia. }
    lia.
Qed.

(** ** Invariants of the objects on the heap

    A property of trade objects that holds for the objects the two opening
    routines build, and that the two in-place updates of the script (the
    reallocation flag and the peak pair) preserve, holds for every object
    on the heap for ever. *)

Section HeapInvariant.

Variable P : Trade -> Prop.

Hypothesis P_newFutureTrade :
  forall entryPrice amount requested type allocation env,
    P (newFutureTrade entryPrice amount requested type allocation env).
Hypothesis P_newSpotTrade :
  forall entryPrice amount type requested env,
    P (newSpotTrade entryPrice amount type requested env).
Hypothesis P_set_isReallocated :
  forall t, P t -> P (set_isReallocated true t).
Hypothesis P_set_peak :
  forall t currentPrice,
    P t -> P (set_peak (currentProfitOf t currentPrice) currentPrice t).

Let holds (s : State) : Prop := Forall P (heap s).

Lemma placeFutureTrade_holds entryPrice amount requested type allocation env :
  keeps holds
    (placeFutureTrade entryPrice amount requested type allocation env).
Proof.
  intros s Hs. rewrite placeFutureTrade_eq. unfold state_of. cbn [fst snd].
  unfold holds, placeFutureTrade_summary.
  destruct (greaterThan _ _); [exact Hs|].
  destruct (orderAccepted env); cbn [fst]; unfold pushed;
    cbn [heap set_heap set_activeTrades]; rewrite debit_heap; [|exact Hs].
  apply Forall_app. split; [exact Hs|]. constructor; [|constructor].
  apply P_newFutureTrade.
Qed.

Lemma placeSpotTrade_holds entryPrice amount type requested env :
  keeps holds (placeSpotTrade entryPrice amount type requested env).
Proof.
  intros s Hs. rewrite placeSpotTrade_eq. unfold state_of. cbn [fst snd].
  unfold holds, placeSpotTrade_summary.
  destruct (greaterThan _ _); [exact Hs|].
  destruct (orderAccepted env); cbn [fst]; unfold pushed;
    cbn [heap set_heap set_activeTrades set_walletBalance];
    rewrite debit_heap; [|exact Hs].
  apply Forall_app. split; [exact Hs|]. constructor; [|constructor].
  apply P_newSpotTrade.
Qed.

Lemma handleTradeClosure_summary_holds trade t currentPrice env s :
  holds s ->
  holds (fst (handleTradeClosure_summary trade t currentPrice env s)).
Proof.
  intros Hs. unfold holds. rewrite handleTradeClosure_summary_heap.
  unfold reallocated. destruct (shouldReallocate _ _); [|exact Hs].
  cbn [fst heap set_heap]. apply Forall_alter.
  - pose proof (placeFutureTrade_holds currentPrice (amount t)
                  (opposite (direction t)) (type t) "favorable"
                  (reallocation env) s Hs) as H.
    rewrite placeFutureTrade_eq in H. exact H.
  - intros x _ Hx. now apply P_set_isReallocated.
Qed.

Lemma monitorActiveTrades_body_holds trade env :
  keeps holds (monitorActiveTrades_body trade env).
Proof.
  intros s Hs.
  destruct (priceAnswer env) as [currentPrice|] eqn:Hp.
  - destruct (heap s !! trade) as [t|] eqn:H.
    + rewrite (monitorActiveTrades_body_eq _ _ _ _ _ Hp H). unfold state_of.
      cbn [fst snd].
      assert (holds (recordPeak trade t currentPrice s)) as H1.
      { unfold recordPeak. destruct (greaterThan _ _); [|exact Hs].
        unfold holds. cbn [heap set_heap]. apply Forall_alter; [exact Hs|].
        intros x Hx Px. rewrite H in Hx. injection Hx as <-.
        now apply P_set_peak. }
      unfold monitorActiveTrades_body_summary.
      destruct (takeProfitHit _ _); [|destruct (stopLossHit _ _)];
        cbn [fst snd]; try exact H1;
        now apply handleTradeClosure_summary_holds.
    + now rewrite (monitorActiveTrades_body_dangling _ _ _ H).
  - now rewrite (monitorActiveTrades_body_no_price _ _ _ Hp).
Qed.

Lemma checkPrices_holds env : keeps holds (checkPrices env).
Proof.
  unfold checkPrices.
  apply keeps_try_catch; [|now apply keeps_unchanged].
  apply keeps_bind;
    [intros s Hs; unfold holds; now rewrite getAvaxBalance_heap|intros _].
  destruct (snapshot env) as [ind|]; [|now apply keeps_unchanged].
  destruct (indicatorsThrow env); [now apply keeps_unchanged|].
  apply keeps_bind;
    [intros s Hs; unfold holds; now rewrite sessionDampening_heap|intros p].
  apply keeps_bind; [now apply keeps_unchanged|intros _].
  destruct (_ && _); [|now apply keeps_unchanged].
  destruct (takeTrade env) as [answers|]; [|now apply keeps_unchanged].
  apply keeps_bind; [|intros _ s Hs; exact Hs].
  destruct (chosenType answers).
  - apply keeps_bind; [|intros _]; apply placeFutureTrade_holds.
  - apply placeSpotTrade_holds.
Qed.

Lemma forOf_activeTrades_holds fuel array elements index envs :
  keeps holds (forOf_activeTrades fuel array elements index envs).
Proof.
  revert elements index.
  induction fuel as [|fuel IH]; intros elements index; cbn [forOf_activeTrades];
    (destruct (elements !! index) as [trade|]; [|now apply keeps_unchanged]).
  - now apply keeps_unchanged.
  - apply keeps_bind; [now apply keeps_unchanged|intros s0].
    apply keeps_bind; [apply monitorActiveTrades_body_holds|intros _].
    apply keeps_bind; [now apply keeps_unchanged|intros s1].
    apply IH.
Qed.

Lemma run_holds ops s : holds s -> holds (run ops s).
Proof.
  revert s. induction ops as [|op ops IH]; intros s Hs; [exact Hs|].
  cbn [run]. apply IH. unfold step. destruct op; cbn [perform].
  - now apply checkPrices_holds.
  - now apply placeSpotTrade_holds.
  - now apply placeFutureTrade_holds.
  - now apply monitorActiveTrades_body_holds.
  - unfold monitorActiveTrades.
    apply keeps_bind; [now apply keeps_unchanged|intros s0| exact Hs].
    apply keeps_bind;
      [apply forOf_activeTrades_holds|intros _; now apply keeps_unchanged].
Qed.

End HeapInvariant.

(** ** The trailing stop *)

Lemma run_peakConsistent ops s :
  Forall peakConsistent (heap s) -> Forall peakConsistent (heap (run ops s)).
Proof.
  apply run_holds.
  - intros. unfold peakConsistent, currentProfitOf. cbn.
    destruct requested; ring.
  - intros. unfold peakConsistent, currentProfitOf. cbn.
    destruct requested; ring.
  - intros t Ht. exact Ht.
  - intros t currentPrice _. unfold peakConsistent. cbn. reflexivity.
Qed.

(** X27.  The trailing stop only tightens.  Take a session in which the
    peak profit of every position is its profit at its peak price, as it is
    for every position from its opening on.  Then, whatever the script does
    next, the peak price of a long position with positive amount and
    leverage never falls and that of a short one never rises, so the price
    at which the drawdown test closes it -- 2% below the peak for a long, 2%
    above for a short -- never moves away from the market. *)
Theorem trailing_stop_only_tightens (ops : list Op) (s : State) (l : loc)
    (t : Trade) :
  Forall peakConsistent (heap s) ->
  heap s !! l = Some t ->
  0 < amount t ->
  0 < tradeLeverage t ->
  exists t',
    heap (run ops s) !! l = Some t'
    /\ peakConsistent t'
    /\ match direction t with
       | long =>
           peakPrice t <= peakPrice t'
           /\ maxDrawdownPriceOf t <= maxDrawdownPriceOf t'
       | short =>
           peakPrice t' <= peakPrice t
           /\ maxDrawdownPriceOf t' <= maxDrawdownPriceOf t
       end.
Proof.
  intros Hall Hl Ha Hlev.
  destruct (run_heap_evolves ops s l t Hl) as (t' & Hl' & He).
  pose proof (run_peakConsistent ops s Hall) as Hall'.
  rewrite Forall_lookup in Hall, Hall'.
  pose proof (Hall l t Hl) as Hc. pose proof (Hall' l t' Hl') as Hc'.
  exists t'. split; [exact Hl'|]. split; [exact Hc'|].
  destruct He as [_ Hentry Hamount _ _ _ Hdir Hlv _ _ Hpeak _].
  assert (peakPrice t' == peakPrice t
          \/ currentProfitOf t (peakPrice t)
             < currentProfitOf t' (peakPrice t')) as Hcases.
  { destruct Hpeak as [[_ ->]|Hlt]; [left; reflexivity|right].
    unfold peakConsistent in Hc, Hc'. now rewrite <- Hc, <- Hc'. }
  unfold maxDrawdownPriceOf, currentProfitOf in *.
  rewrite Hdir, Hentry, Hamount, Hlv in *.
  unfold maxSpotDrawdownPercentage.
  assert (0 < amount t * tradeLeverage t) as Hpos
    by (apply Qmult_lt_0_compat; assumption).
  destruct (direction t).
  - assert (peakPrice t <= peakPrice t') as Hp.
    { destruct Hcases as [->|Hlt]; [apply Qle_refl|].
      apply Qlt_le_weak.
      apply (Qmult_lt_r _ _ (amount t * tradeLeverage t) Hpos). lra. }
    split; [exact Hp|]. constant_divisions. lra.
  - assert (peakPrice t' <= peakPrice t) as Hp.
    { destruct Hcases as [->|Hlt]; [apply Qle_refl|].
      apply Qlt_le_weak.
      apply (Qmult_lt_r _ _ (amount t * tradeLeverage t) Hpos). lra. }
    split; [exact Hp|]. constant_divisions. lra.
Qed.

Lemma trailing_stop_only_tightens_witness :
  exists t',
    heap (run [MonitorTrade 0 (tickAt 103 failingClosure);
               MonitorTrade 0 (tickAt 101 failingClosure)]
            openedSession) !! 0%nat = Some t'
    /\ 100 <= peakPrice t'.
Proof.
  destruct (trailing_stop_only_tightens
              [MonitorTrade 0 (tickAt 103 failingClosure);
               MonitorTrade 0 (tickAt 101 failingClosure)]
              openedSession 0
              (newFutureTrade 100 1 long "fake" "favorable" freeGateway))
    as (t' & Hl & _ & Hp & _).
  - repeat constructor.
  - reflexivity.
  - reflexivity.
  - reflexivity.
  - exists t'. split; [exact Hl|exact Hp].
Defined.

(** ** Fees at entry and at exit *)

(** X28.  A position whose type is one of the two modes, as every position
    opened from the signal check is, pays fees from two different
    schedules: [placeFutureTrade] charges its entry with the spot taker
    rate (the futures schedule is reserved for the type 'futures'), and
    [handleTradeClosure] charges its exit with the futures taker rate (the
    spot schedule is reserved for the type 'spot').  With both lookups
    failing these are the defaults 0.001 at entry and 0.0004 at exit. *)
Theorem mode_typed_position_pays_two_fee_schedules
    (entryPrice amount currentPrice : Decimal) (requested : Direction)
    (type allocation : string) (env : OpenEnv) (cenv : CloseEnv)
    (s : State) :
  type = "real" \/ type = "fake" ->
  futureTotalCost entryPrice amount type env <= selectedBalance type s ->
  orderAccepted env = true ->
  exists t,
    heap (state_of
            (placeFutureTrade entryPrice amount requested type allocation
               env s)) !! length (heap s) = Some t
    /\ entryFee t
       = entryPrice * amount * takerFee (getSpotTradingFee (feeAnswer env))
    /\ netPnlOf t currentPrice (exitFeeAnswer cenv)
       = grossPnlOf t currentPrice - entryFee t
         - currentPrice * amount
           * takerFee (getFuturesTradingFee (exitFeeAnswer cenv))
    /\ (feeAnswer env = None -> feeRate t = 0.001)
    /\ (exitFeeAnswer cenv = None ->
        exitFeeOf t currentPrice (exitFeeAnswer cenv)
        = currentPrice * amount * 0.0004).
Proof.
  intros Htype Hc Ho.
  rewrite (placeFutureTrade_opened _ _ _ _ _ _ _ Hc Ho).
  exists (newFutureTrade entryPrice amount requested type allocation env).
  split.
  { pose proof (pushed_lookup
                  (newFutureTrade entryPrice amount requested type allocation
                     env)
                  (debit type (futureTotalCost entryPrice amount type env) s))
      as Hl.
    now rewrite debit_heap in Hl. }
  unfold netPnlOf, exitFeeOf, newFutureTrade, futureFeeRate. cbn.
  assert (streq type "futures" = false) as ->
    by (destruct Htype as [->| ->]; reflexivity).
  assert (streq type "spot" = false) as ->
    by (destruct Htype as [->| ->]; reflexivity).
  repeat split; intros ->; reflexivity.
Qed.

Lemma mode_typed_position_pays_two_fee_schedules_witness :
  exists t,
    heap (state_of
            (placeFutureTrade 100 1 long "fake" "favorable" acceptingGateway
               freshSession)) !! 0%nat = Some t
    /\ entryFee t = 100 * 1 * 0.001
    /\ exitFeeOf t 110 None = 110 * 1 * 0.0004.
Proof.
  destruct (mode_typed_position_pays_two_fee_schedules 100 1 110 long "fake"
              "favorable" acceptingGateway
              (mkCloseEnv None freeGateway true 1700000060000) freshSession)
    as (t & Hl & He & _ & _ & Hx).
  - right. reflexivity.
  - vm_compute. discriminate.
  - reflexivity.
  - exists t. split; [exact Hl|]. split; [exact He|]. now apply Hx.
Defined.
